(** * Claudetorio session broker: slot allocation and session lifecycle

    A shallow embedding of [packages/broker/main.py].  The persisted tables
    (users, sessions, saves, score_history, session_snapshots), the Redis
    slot locks and the in-process [active_websockets] dictionary form an
    explicit state; every request handler and every iteration of a
    background loop is a function from a state (and the answers of the
    outside world during that call) to a new state and a result.

    Conventions of the embedding:
    - timestamps are seconds as [Z]; one clock serves Python, Postgres and
      Redis;
    - REAL columns hold exact integers (no rounding to single precision);
    - a handler runs to completion before the next one starts;
    - statements against Postgres and Redis fail only where the model says
      so (a duplicate primary key, a parameter that is not a number). *)

From Stdlib Require Import ZArith String Ascii List Bool Lia Sorted.
From stdpp Require Import base option list gmap strings pretty.

Local Open Scope string_scope.
Local Set Warnings "-register-all".

(** ** Python values

    What [json.loads] can return, and what the handlers pass around in
    their dictionaries.  Numbers are integers here. *)

Inductive pyval : Type :=
  | PNone
  | PBool (b : bool)
  | PInt (z : Z)
  | PStr (s : string)
  | PList (l : list pyval)
  | PDict (d : list (string * pyval)).

(** [d.get(k)] on the items of a dictionary. *)
Fixpoint dict_get (k : string) (d : list (string * pyval)) : option pyval :=
  match d with
  | [] => None
  | (k', v) :: d' => if String.eqb k k' then Some v else dict_get k d'
  end.

(** ** String helpers

    Strings are sequences of 8-bit characters; white space and digits are
    the ASCII ones. *)

(** [p in s] for strings. *)
Fixpoint str_contains (p s : string) : bool :=
  String.prefix p s ||
  match s with
  | EmptyString => false
  | String _ s' => str_contains p s'
  end.

Fixpoint lstrip_char (c : ascii) (l : list ascii) : list ascii :=
  match l with
  | [] => []
  | a :: l' => if Ascii.eqb a c then lstrip_char c l' else l
  end.

(** [s.strip(c)] for a one-character argument. *)
Definition strip_char (c : ascii) (s : string) : string :=
  string_of_list_ascii
    (rev (lstrip_char c (rev (lstrip_char c (list_ascii_of_string s))))).

Definition dquote : ascii := Ascii.ascii_of_nat 34.

(** ** Configuration ([class Config]) *)

Module Config.
Definition TOTAL_SLOTS : nat := 20.
Definition BASE_RCON_PORT : Z := 27000.
Definition BASE_UDP_PORT : Z := 34197.
Definition SESSION_TIMEOUT_HOURS : Z := 2.
Definition SCORE_POLL_INTERVAL : Z := 30.
End Config.

(** ** The Game Control Interface (RCON)

    The commands the broker sends, and what a call can do: raise (no
    connection, timeout) or return the reply text. *)

Inductive rcon_cmd : Type :=
  | CmdScore
  | CmdRender (radius : Z)
  | CmdInventory
  | CmdResearch
  | CmdProduction
  | CmdServerSave (name : string)
  | CmdResetGame.

Inductive rcon_result : Type :=
  | RconRaised
  | RconReply (response : string).

(** ** Entity list ([_sync_get_entities_list]) *)

Record clean_entity : Type := CleanEntity {
  ce_name : string;
  ce_position : pyval;
  ce_direction : pyval
}.

Inductive query_error : Type :=
  | ParseError      (* json.JSONDecodeError *)
  | Raised.         (* any other exception, caught by the outer handler *)

Record entities_result : Type := EntitiesResult {
  er_entities : list clean_entity;
  er_total : nat;
  er_error : option query_error;
  er_note : bool    (* the note: only available for active sessions *)
}.

(** The body of the loop: the name (default unknown) stripped of double
    quotes at both ends, the position (default an empty dictionary) and
    the direction (default 0).  [None] when the element has no [get] or
    its name has no [strip]. *)
Definition clean_one (e : pyval) : option clean_entity :=
  match e with
  | PDict d =>
      match default (PStr "unknown") (dict_get "name" d) with
      | PStr n =>
          Some (CleanEntity (strip_char dquote n)
                  (default (PDict []) (dict_get "position" d))
                  (default (PInt 0) (dict_get "direction" d)))
      | _ => None
      end
  | _ => None
  end.

Fixpoint clean_all (l : list pyval) : option (list clean_entity) :=
  match l with
  | [] => Some []
  | e :: l' =>
      match clean_one e with
      | None => None
      | Some c =>
          match clean_all l' with
          | None => None
          | Some cs => Some (c :: cs)
          end
      end
  end.

Definition chars_of (s : string) : list pyval :=
  map (fun a => PStr (String a EmptyString)) (list_ascii_of_string s).

(** [entities[:200]]: lists and strings can be sliced, nothing else. *)
Definition slice_200 (v : pyval) : option (list pyval) :=
  match v with
  | PList l => Some (take 200 l)
  | PStr s => Some (take 200 (chars_of s))
  | _ => None
  end.

(** [len(entities)] for what got through the slice. *)
Definition py_len (v : pyval) : nat :=
  match v with
  | PList l => length l
  | PStr s => String.length s
  | PDict d => length d
  | _ => 0
  end.

Definition entities_empty (e : option query_error) : entities_result :=
  EntitiesResult [] 0 e false.

(** ** Score reply ([_sync_get_slot_score])

    The reply of the score action is a Lua table dump with an entry for
    the key player (in brackets and double quotes), an equals sign and an
    integer.  The broker searches it with a regular expression: the quoted
    key in brackets, optional white space, the equals sign, optional white
    space, then an optional minus sign and one or more digits (the
    captured group). *)

Definition is_space (a : ascii) : bool :=
  let n := nat_of_ascii a in
  ((9 <=? n)%nat && (n <=? 13)%nat) || ((28 <=? n)%nat && (n <=? 32)%nat).

Definition is_digit (a : ascii) : bool :=
  let n := nat_of_ascii a in (48 <=? n)%nat && (n <=? 57)%nat.

Fixpoint skip_spaces (l : list ascii) : list ascii :=
  match l with
  | a :: l' => if is_space a then skip_spaces l' else l
  | [] => []
  end.

Fixpoint take_digits (l : list ascii) : list ascii :=
  match l with
  | a :: l' => if is_digit a then a :: take_digits l' else []
  | [] => []
  end.

Definition int_of_digits (ds : list ascii) : Z :=
  fold_left (fun acc d => 10 * acc + (Z.of_nat (nat_of_ascii d) - 48))%Z ds 0%Z.

Fixpoint strip_prefix (p l : list ascii) : option (list ascii) :=
  match p, l with
  | [], _ => Some l
  | a :: p', b :: l' => if Ascii.eqb a b then strip_prefix p' l' else None
  | _ :: _, [] => None
  end.

(** The literal part of the pattern: the quoted key in brackets. *)
Definition player_key : list ascii :=
  "["%char :: dquote :: list_ascii_of_string "player" ++ [dquote; "]"%char].

(** The pattern anchored at the head of [l]; the captured group as an
    integer. *)
Definition match_player_at (l : list ascii) : option Z :=
  match strip_prefix player_key l with
  | None => None
  | Some l1 =>
      match skip_spaces l1 with
      | "="%char :: l2 =>
          let l3 := skip_spaces l2 in
          let '(neg, l4) :=
            match l3 with
            | "-"%char :: r => (true, r)
            | _ => (false, l3)
            end in
          match take_digits l4 with
          | [] => None
          | ds => Some (if neg then - int_of_digits ds else int_of_digits ds)%Z
          end
      | _ => None
      end
  end.

(** [re.search]: the leftmost position where the pattern matches. *)
Fixpoint search_player (l : list ascii) : option Z :=
  match match_player_at l with
  | Some z => Some z
  | None =>
      match l with
      | [] => None
      | _ :: l' => search_player l'
      end
  end.

Record score_data : Type := ScoreData {
  sd_score : pyval;
  sd_items : pyval;
  sd_raw : option string;
  sd_error : bool
}.

Section Broker.

(** [json.loads]: [None] stands for [json.JSONDecodeError]. *)
Variable json_loads : string -> option pyval.

(** What follows the RCON call in [_sync_get_entities_list]. *)
Definition entities_of_reply (r : rcon_result) : entities_result :=
  match r with
  | RconRaised => entities_empty (Some Raised)
  | RconReply response =>
      if String.eqb response "" || str_contains "Error" response
      then entities_empty None
      else
        match json_loads response with
        | None => entities_empty (Some ParseError)
        | Some (PDict data) =>
            let entities := default (PList []) (dict_get "entities" data) in
            match slice_200 entities with
            | None => entities_empty (Some Raised)
            | Some firsts =>
                match clean_all firsts with
                | None => entities_empty (Some Raised)
                | Some clean_entities =>
                    EntitiesResult clean_entities (py_len entities) None false
                end
            end
        | Some _ => entities_empty (Some Raised)   (* no [get] *)
        end
  end.

(** What follows the RCON call in [_sync_get_slot_score]. *)
Definition score_of_reply (r : rcon_result) : score_data :=
  match r with
  | RconRaised => ScoreData (PInt 0) (PDict []) None true
  | RconReply response =>
      if String.eqb response ""
      then ScoreData (PInt 0) (PDict []) None false
      else
        match search_player (list_ascii_of_string response) with
        | Some score => ScoreData (PInt score) (PDict []) (Some response) false
        | None =>
            match json_loads response with
            | None => ScoreData (PInt 0) (PDict []) (Some response) false
            | Some (PDict data) =>
                ScoreData (default (PInt 0) (dict_get "player" data))
                  (PDict data) None false
            | Some _ => ScoreData (PInt 0) (PDict []) None true   (* no [get] *)
            end
        end
  end.

(** ** The durable store *)

Inductive session_status : Type := Active | Completed | Expired.

#[global] Instance session_status_eq_dec : EqDecision session_status.
Proof. solve_decision. Defined.

Record User : Type := mkUser {
  u_created_at : Z;
  best_score : Z;
  total_playtime_seconds : Z
}.

Record Session : Type := mkSession {
  session_id : string;
  s_username : string;
  s_slot : nat;
  started_at : Z;
  ended_at : option Z;
  final_score : option Z;
  status : session_status;
  save_loaded : option string;
  save_created : option string
}.

Record Save : Type := mkSave {
  sv_username : string;
  sv_save_name : string;
  file_path : string;
  sv_created_at : Z;
  last_played : Z;
  score_at_save : option Z;
  playtime_seconds : Z
}.

Record ScoreSample : Type := mkScoreSample {
  h_username : string;
  h_session_id : string;
  recorded_at : Z;
  h_score : option Z;
  items_produced : pyval
}.

Record Snapshot : Type := mkSnapshot {
  sn_created_at : Z;
  sn_final_score : option Z;
  sn_playtime_seconds : Z;
  research_data : pyval;
  production_data : pyval;
  inventory_data : pyval;
  factory_data : pyval
}.

(** A score update as sent to the subscribers of a session. *)
Record ScoreUpdate : Type := mkScoreUpdate {
  m_score : pyval;
  m_timestamp : Z
}.

(** The state of the system.  [slot_locks] is the Redis key space of the
    slot locks: the owner and the time at which the key expires.
    [active_websockets] is the dictionary of the same name, web sockets
    being numbered.  [files] are the paths that exist under the saves
    directory, [delivered] the messages that reached a web socket. *)
Record State : Type := mkState {
  users : gmap string User;
  sessions : list Session;
  saves : list Save;
  score_history : list ScoreSample;
  session_snapshots : gmap string Snapshot;
  slot_locks : gmap nat (string * Z);
  active_websockets : gmap string (list nat);
  files : gset string;
  delivered : list (nat * ScoreUpdate)
}.

Definition init_state : State :=
  mkState ∅ [] [] [] ∅ ∅ ∅ ∅ [].

Definition set_users (f : gmap string User -> gmap string User) (st : State) : State :=
  mkState (f (users st)) (sessions st) (saves st) (score_history st)
    (session_snapshots st) (slot_locks st) (active_websockets st) (files st)
    (delivered st).

Definition set_sessions (f : list Session -> list Session) (st : State) : State :=
  mkState (users st) (f (sessions st)) (saves st) (score_history st)
    (session_snapshots st) (slot_locks st) (active_websockets st) (files st)
    (delivered st).

Definition set_saves (f : list Save -> list Save) (st : State) : State :=
  mkState (users st) (sessions st) (f (saves st)) (score_history st)
    (session_snapshots st) (slot_locks st) (active_websockets st) (files st)
    (delivered st).

Definition set_score_history (f : list ScoreSample -> list ScoreSample) (st : State) : State :=
  mkState (users st) (sessions st) (saves st) (f (score_history st))
    (session_snapshots st) (slot_locks st) (active_websockets st) (files st)
    (delivered st).

Definition set_session_snapshots
    (f : gmap string Snapshot -> gmap string Snapshot) (st : State) : State :=
  mkState (users st) (sessions st) (saves st) (score_history st)
    (f (session_snapshots st)) (slot_locks st) (active_websockets st) (files st)
    (delivered st).

Definition set_slot_locks
    (f : gmap nat (string * Z) -> gmap nat (string * Z)) (st : State) : State :=
  mkState (users st) (sessions st) (saves st) (score_history st)
    (session_snapshots st) (f (slot_locks st)) (active_websockets st) (files st)
    (delivered st).

Definition set_active_websockets
    (f : gmap string (list nat) -> gmap string (list nat)) (st : State) : State :=
  mkState (users st) (sessions st) (saves st) (score_history st)
    (session_snapshots st) (slot_locks st) (f (active_websockets st)) (files st)
    (delivered st).

Definition set_files (f : gset string -> gset string) (st : State) : State :=
  mkState (users st) (sessions st) (saves st) (score_history st)
    (session_snapshots st) (slot_locks st) (active_websockets st) (f (files st))
    (delivered st).

Definition set_delivered
    (f : list (nat * ScoreUpdate) -> list (nat * ScoreUpdate)) (st : State) : State :=
  mkState (users st) (sessions st) (saves st) (score_history st)
    (session_snapshots st) (slot_locks st) (active_websockets st) (files st)
    (f (delivered st)).

(** ** The outside world during one call *)

Inductive copy_outcome : Type :=
  | FleSaveMissing    (* the game wrote no file: a warning is printed *)
  | Copied
  | CopyRaised.

Record World : Type := mkWorld {
  now : Z;
  rcon : nat -> rcon_cmd -> rcon_result;
  uuid8 : string;                         (* [str(uuid.uuid4())[:8]] *)
  mkdir_ok : string -> bool;
  fle_copy : nat -> copy_outcome;
  ws_send_ok : nat -> bool;               (* does [send_text] return? *)
  (* the four queries of the snapshot: each catches every exception of its
     own and returns a dictionary *)
  get_research : nat -> pyval;
  get_production : nat -> pyval;
  get_inventory : nat -> pyval;
  get_factory_data : nat -> pyval
}.

(** ** Time stamps

    [strftime('%Y%m%d_%H%M%S')] of a UTC time given in seconds since the
    epoch (proleptic Gregorian calendar). *)

Definition civil_from_days (days : Z) : Z * Z * Z :=
  let z := (days + 719468)%Z in
  let era := (z / 146097)%Z in
  let doe := (z - era * 146097)%Z in
  let yoe := ((doe - doe / 1460 + doe / 36524 - doe / 146096) / 365)%Z in
  let doy := (doe - (365 * yoe + yoe / 4 - yoe / 100))%Z in
  let mp := ((5 * doy + 2) / 153)%Z in
  let d := (doy - (153 * mp + 2) / 5 + 1)%Z in
  let m := (if mp <? 10 then mp + 3 else mp - 9)%Z in
  let y := (yoe + era * 400 + (if m <=? 2 then 1 else 0))%Z in
  (y, m, d).

Definition digit_char (z : Z) : ascii :=
  ascii_of_nat (48 + Z.to_nat (z mod 10)).

Definition pad2 (z : Z) : string :=
  String (digit_char (z / 10)) (String (digit_char z) EmptyString).

Definition pad4 (z : Z) : string :=
  pad2 (z / 100) +:+ pad2 (z mod 100).

Definition strftime_compact (t : Z) : string :=
  let '(y, m, d) := civil_from_days (t / 86400) in
  let s := (t mod 86400)%Z in
  pad4 y +:+ pad2 m +:+ pad2 d +:+ "_" +:+
  pad2 (s / 3600) +:+ pad2 (s mod 3600 / 60) +:+ pad2 (s mod 60).

(** The name of the save made when a session expires. *)
Definition autosave_name (t : Z) : string := "autosave_" +:+ strftime_compact t.

(** ** User names: [request.username.lower().strip()] *)

Definition lower_char (a : ascii) : ascii :=
  let n := nat_of_ascii a in
  if (65 <=? n)%nat && (n <=? 90)%nat then ascii_of_nat (n + 32) else a.

Definition py_lower (s : string) : string :=
  string_of_list_ascii (map lower_char (list_ascii_of_string s)).

Definition py_strip (s : string) : string :=
  string_of_list_ascii
    (rev (skip_spaces (rev (skip_spaces (list_ascii_of_string s))))).

(** A string, or [None], used as a condition. *)
Definition truthy (o : option string) : option string :=
  match o with
  | Some s => if String.eqb s "" then None else Some s
  | None => None
  end.

(** ** Paths: [SAVES_DIR / username / (save_name + .zip)] *)

Definition SAVES_DIR : string := "/var/claudetorio/saves".

Definition save_path_of (username save_name : string) : string :=
  SAVES_DIR +:+ "/" +:+ username +:+ "/" +:+ save_name +:+ ".zip".

(** ** Parameters of statements

    A Python value bound to a REAL parameter: [None] is NULL, a number is
    itself, anything else makes the driver raise (outer [None]). *)
Definition as_real (v : pyval) : option (option Z) :=
  match v with
  | PNone => Some None
  | PBool b => Some (Some (if b then 1 else 0)%Z)
  | PInt z => Some (Some z)
  | _ => None
  end.

(** [GREATEST(a, b)] ignores NULL. *)
Definition greatest (a : Z) (b : option Z) : Z :=
  match b with
  | Some z => Z.max a z
  | None => a
  end.

(** ** Statements on the sessions table *)

Definition is_active (s : Session) : bool := bool_decide (status s = Active).

(** [SELECT ... FROM sessions WHERE status = 'active'] *)
Definition active_sessions (st : State) : list Session :=
  List.filter is_active (sessions st).

(** [... WHERE username = $1 AND status = 'active'] *)
Definition active_session_of_user (st : State) (username : string) : option Session :=
  List.find (fun s => String.eqb (s_username s) username && is_active s) (sessions st).

(** [... WHERE session_id = $1 AND status = 'active'] *)
Definition active_session_by_id (st : State) (sid : string) : option Session :=
  List.find (fun s => String.eqb (session_id s) sid && is_active s) (sessions st).

(** [... WHERE session_id = $1] *)
Definition session_by_id (st : State) (sid : string) : option Session :=
  List.find (fun s => String.eqb (session_id s) sid) (sessions st).

(** [INSERT INTO sessions]: a duplicate primary key raises. *)
Definition insert_session (new : Session) (ss : list Session) : option (list Session) :=
  if existsb (fun s => String.eqb (session_id s) (session_id new)) ss
  then None
  else Some (ss ++ [new])%list.

(** [UPDATE sessions SET ... WHERE session_id = $1] *)
Definition update_session (sid : string) (f : Session -> Session)
    (ss : list Session) : list Session :=
  map (fun s => if String.eqb (session_id s) sid then f s else s) ss.

(** [DELETE FROM sessions WHERE session_id = $1] *)
Definition delete_session (sid : string) (ss : list Session) : list Session :=
  List.filter (fun s => negb (String.eqb (session_id s) sid)) ss.

Definition terminate (st' : session_status) (t : Z) (score : option Z)
    (created : option (option string)) (s : Session) : Session :=
  mkSession (session_id s) (s_username s) (s_slot s) (started_at s)
    (Some t) score st' (save_loaded s)
    (match created with Some c => c | None => save_created s end).

(** ** Slot management *)

Definition active_set (st : State) : list nat := map s_slot (active_sessions st).

(** Find first available slot. *)
Definition get_free_slot (st : State) : option nat :=
  List.find (fun slot => negb (existsb (Nat.eqb slot) (active_set st)))
    (seq 0 Config.TOTAL_SLOTS).

Definition lock_held (t : Z) (st : State) (slot : nat) : bool :=
  match slot_locks st !! slot with
  | Some (_, expires) => (t <? expires)%Z
  | None => false
  end.

(** [SET slot_lock:<slot> username NX EX 7200]: [None] when the key is
    there. *)
Definition claim_slot_lock (w : World) (st : State) (slot : nat) (username : string)
    : option State :=
  if lock_held (now w) st slot then None
  else Some (set_slot_locks
               <[slot := (username, (now w + Config.SESSION_TIMEOUT_HOURS * 3600)%Z)]> st).

Definition release_slot_lock (slot : nat) (st : State) : State :=
  set_slot_locks (delete slot) st.

(** ** Calls to the game *)

Definition _sync_get_slot_score (w : World) (slot : nat) : score_data :=
  score_of_reply (rcon w slot CmdScore).

Definition get_slot_score (w : World) (slot : nat) : score_data :=
  _sync_get_slot_score w slot.

Definition _sync_get_entities_list (w : World) (slot : nat) (radius : Z)
    : entities_result :=
  entities_of_reply (rcon w slot (CmdRender radius)).

(** A handler that went through, or one that raised, with the state it
    leaves. *)
Inductive outcome : Type :=
  | Done (st : State)
  | Raise (st : State).

(** Save current slot state to a file.  Every exception is printed and
    raised again. *)
Definition save_slot_state (w : World) (slot : nat) (save_path : string)
    (st : State) : outcome :=
  if negb (mkdir_ok w save_path) then Raise st
  else
    match rcon w slot (CmdServerSave ("claudetorio_save_" +:+ pretty slot)) with
    | RconRaised => Raise st
    | RconReply _ =>
        match fle_copy w slot with
        | FleSaveMissing => Done st
        | Copied => Done (set_files (fun fs => {[save_path]} ∪ fs) st)
        | CopyRaised => Raise st
        end
    end.

(** ** Claim *)

Inductive http_error : Type :=
  | E404    (* NotFound *)
  | E409    (* Conflict *)
  | E500
  | E503.   (* Unavailable *)

Inductive background_task : Type :=
  | LoadSaveToSlot (slot : nat) (save_path : string)
  | ResetSlot (slot : nat).

Record ClaimRequest : Type := mkClaimRequest {
  cr_username : string;
  cr_save_name : option string
}.

Record ClaimResponse : Type := mkClaimResponse {
  c_session_id : string;
  c_username : string;
  c_slot : nat;
  c_rcon_port : Z;
  c_udp_port : Z;
  c_expires_at : Z;
  c_background : background_task
}.

Definition claim_response (w : World) (sid username : string) (slot : nat)
    (task : background_task) : ClaimResponse :=
  mkClaimResponse sid username slot
    (Config.BASE_RCON_PORT + Z.of_nat slot)%Z
    (Config.BASE_UDP_PORT + Z.of_nat slot)%Z
    (now w + Config.SESSION_TIMEOUT_HOURS * 3600)%Z
    task.

(** [INSERT INTO users (username) VALUES ($1) ON CONFLICT DO NOTHING] *)
Definition ensure_user (t : Z) (username : string) (us : gmap string User)
    : gmap string User :=
  match us !! username with
  | Some _ => us
  | None => <[username := mkUser t 0 0]> us
  end.

Definition claim_session (w : World) (st : State) (request : ClaimRequest)
    : State * (http_error + ClaimResponse) :=
  let username := py_strip (py_lower (cr_username request)) in
  match active_session_of_user st username with
  | Some _ => (st, inl E409)
  | None =>
      match get_free_slot st with
      | None => (st, inl E503)
      | Some slot =>
          match claim_slot_lock w st slot username with
          | None => (st, inl E503)
          | Some st1 =>
              let st2 := set_users (ensure_user (now w) username) st1 in
              let sid := uuid8 w in
              let row :=
                mkSession sid username slot (now w) None None Active
                  (cr_save_name request) None in
              match insert_session row (sessions st2) with
              | None => (release_slot_lock slot st2, inl E500)
              | Some ss =>
                  let st3 := set_sessions (fun _ => ss) st2 in
                  match truthy (cr_save_name request) with
                  | Some save_name =>
                      let save_path := save_path_of username save_name in
                      if bool_decide (save_path ∈ files st3)
                      then (st3, inr (claim_response w sid username slot
                                        (LoadSaveToSlot slot save_path)))
                      else (set_sessions (delete_session sid)
                              (release_slot_lock slot st3), inl E404)
                  | None =>
                      (st3, inr (claim_response w sid username slot (ResetSlot slot)))
                  end
              end
          end
      end
  end.

(** ** Saves: [INSERT ... ON CONFLICT (username, save_name) DO UPDATE] *)

Definition same_save (a b : Save) : bool :=
  String.eqb (sv_username a) (sv_username b) &&
  String.eqb (sv_save_name a) (sv_save_name b).

Fixpoint upsert_save (on_conflict : Save -> Save) (new : Save) (l : list Save)
    : list Save :=
  match l with
  | [] => [new]
  | r :: l' =>
      if same_save r new then on_conflict r :: l'
      else r :: upsert_save on_conflict new l'
  end.

(** The update of [release_session]: last_played, score_at_save, and
    playtime_seconds = saves.playtime_seconds + $5. *)
Definition on_conflict_release (t : Z) (score : option Z) (playtime : Z)
    (old : Save) : Save :=
  mkSave (sv_username old) (sv_save_name old) (file_path old) (sv_created_at old)
    t score (playtime_seconds old + playtime)%Z.

(** The update of [session_timeout_checker]: last_played and
    score_at_save. *)
Definition on_conflict_autosave (t : Z) (score : option Z) (old : Save) : Save :=
  mkSave (sv_username old) (sv_save_name old) (file_path old) (sv_created_at old)
    t score (playtime_seconds old).

Definition new_save (t : Z) (username save_name save_path : string)
    (score : option Z) (playtime : Z) : Save :=
  mkSave username save_name save_path t t score playtime.

(** [UPDATE users SET best_score = GREATEST(best_score, $1),
    total_playtime_seconds = total_playtime_seconds + $2 WHERE username = $3] *)
Definition update_user_stats (score : option Z) (playtime : Z) (username : string)
    (us : gmap string User) : gmap string User :=
  alter (fun u => mkUser (u_created_at u) (greatest (best_score u) score)
                    (total_playtime_seconds u + playtime)%Z) username us.

(** ** Release *)

Record ReleaseRequest : Type := mkReleaseRequest {
  rr_save_name : option string
}.

Record ReleaseResponse : Type := mkReleaseResponse {
  final_score_out : pyval;
  playtime_minutes : Z;
  saved_as : option string
}.

(** [INSERT INTO session_snapshots ... ON CONFLICT (session_id) DO UPDATE] *)
Definition upsert_snapshot (sid : string) (new : Snapshot)
    (m : gmap string Snapshot) : gmap string Snapshot :=
  match m !! sid with
  | Some old =>
      <[sid := mkSnapshot (sn_created_at old) (sn_final_score new)
                 (sn_playtime_seconds new) (research_data new)
                 (production_data new) (inventory_data new) (factory_data new)]> m
  | None => <[sid := new]> m
  end.

(** The snapshot block of [release_session]; its exception handler prints
    a warning and goes on. *)
Definition capture_snapshot (w : World) (sid : string) (slot : nat)
    (final_score : pyval) (playtime : Z) (st : State) : State :=
  let research := get_research w slot in
  let production := get_production w slot in
  let inventory := get_inventory w slot in
  let factory := get_factory_data w slot in
  match as_real final_score with
  | None => st
  | Some score =>
      set_session_snapshots
        (upsert_snapshot sid
           (mkSnapshot (now w) score playtime research production inventory factory))
        st
  end.

(** The block [if request.save_name:] of [release_session]. *)
Definition save_if_requested (w : World) (slot : nat) (username : string)
    (final_score : pyval) (playtime : Z) (save_name : option string)
    (st : State) : outcome :=
  match truthy save_name with
  | None => Done st
  | Some name =>
      let save_path := save_path_of username name in
      match save_slot_state w slot save_path st with
      | Raise st' => Raise st'
      | Done st' =>
          match as_real final_score with
          | None => Raise st'
          | Some score =>
              Done (set_saves
                      (upsert_save (on_conflict_release (now w) score playtime)
                         (new_save (now w) username name save_path score playtime))
                      st')
          end
      end
  end.

Definition release_session (w : World) (st : State) (sid : string)
    (request : ReleaseRequest) : State * (http_error + ReleaseResponse) :=
  match active_session_by_id st sid with
  | None => (st, inl E404)
  | Some session =>
      let slot := s_slot session in
      let username := s_username session in
      let score_data := get_slot_score w slot in
      let final_score := sd_score score_data in
      let playtime := (now w - started_at session)%Z in
      let st1 := capture_snapshot w sid slot final_score playtime st in
      match save_if_requested w slot username final_score playtime
              (rr_save_name request) st1 with
      | Raise st2 => (st2, inl E500)
      | Done st2 =>
          match as_real final_score with
          | None => (st2, inl E500)
          | Some score =>
              let st3 :=
                set_sessions
                  (update_session sid
                     (terminate Completed (now w) score (Some (rr_save_name request))))
                  st2 in
              let st4 := set_users (update_user_stats score playtime username) st3 in
              let st5 := release_slot_lock slot st4 in
              let st6 := set_active_websockets (delete sid) st5 in
              (st6, inr (mkReleaseResponse final_score (playtime / 60)%Z
                           (rr_save_name request)))
          end
      end
  end.

(** ** Timeout sweep: one iteration of [session_timeout_checker] *)

(** The body of the loop over the expired sessions. *)
Definition expire_one (w : World) (session : Session) (st : State) : outcome :=
  let score_data := get_slot_score w (s_slot session) in
  let final_score := sd_score score_data in
  match session_by_id st (session_id session) with
  | None => Raise st
  | Some session_row =>
      let playtime := (now w - started_at session_row)%Z in
      let save_name := autosave_name (now w) in
      let save_path := save_path_of (s_username session) save_name in
      let st1 :=
        match save_slot_state w (s_slot session) save_path st with
        | Raise st' => st'
        | Done st' =>
            match as_real final_score with
            | None => st'
            | Some score =>
                set_saves
                  (upsert_save (on_conflict_autosave (now w) score)
                     (new_save (now w) (s_username session) save_name save_path
                        score playtime))
                  st'
            end
        end in
      match as_real final_score with
      | None => Raise st1
      | Some score =>
          let st2 :=
            set_sessions
              (update_session (session_id session)
                 (terminate Expired (now w) score None))
              st1 in
          let st3 :=
            set_users (update_user_stats score playtime (s_username session)) st2 in
          Done (release_slot_lock (s_slot session) st3)
      end
  end.

(** A loop inside [try]: the first exception ends it. *)
Fixpoint for_each (body : Session -> State -> outcome) (rows : list Session)
    (st : State) : State :=
  match rows with
  | [] => st
  | r :: rows' =>
      match body r st with
      | Done st' => for_each body rows' st'
      | Raise st' => st'
      end
  end.

Definition is_expired (w : World) (s : Session) : bool :=
  is_active s &&
  (started_at s <? now w - Config.SESSION_TIMEOUT_HOURS * 3600)%Z.

Definition session_timeout_checker (w : World) (st : State) : State :=
  for_each (expire_one w) (List.filter (is_expired w) (sessions st)) st.

(** ** Score polling: one iteration of [score_polling_loop] *)

(** [send_text] to every web socket of the session; an exception of one
    is passed over. *)
Definition broadcast (w : World) (sid : string) (message : ScoreUpdate)
    (st : State) : State :=
  match active_websockets st !! sid with
  | None => st
  | Some wss =>
      set_delivered
        (fun d => d ++ map (fun ws => (ws, message)) (List.filter (ws_send_ok w) wss))%list
        st
  end.

Definition poll_one (w : World) (session : Session) (st : State) : outcome :=
  let score_data := get_slot_score w (s_slot session) in
  let score := sd_score score_data in
  match as_real score with
  | None => Raise st
  | Some sc =>
      let st1 :=
        set_score_history
          (fun h => h ++ [mkScoreSample (s_username session) (session_id session)
                            (now w) sc (sd_items score_data)])%list
          st in
      Done (broadcast w (session_id session) (mkScoreUpdate score (now w)) st1)
  end.

Definition score_polling_loop (w : World) (st : State) : State :=
  for_each (poll_one w) (active_sessions st) st.

(** ** Stream: the two ends of [session_stream] *)

Fixpoint list_remove (ws : nat) (l : list nat) : list nat :=
  match l with
  | [] => []
  | x :: l' => if Nat.eqb x ws then l' else x :: list_remove ws l'
  end.

(** Up to the loop that waits for the client: [false] when the socket is
    closed with code 4004. *)
Definition session_stream_open (st : State) (sid : string) (ws : nat) : State * bool :=
  match session_by_id st sid with
  | Some s =>
      if is_active s
      then (set_active_websockets
              (fun m => <[sid := (default [] (m !! sid) ++ [ws])%list]> m) st, true)
      else (st, false)
  | None => (st, false)
  end.

(** The [finally] block, when the client is gone. *)
Definition session_stream_close (st : State) (sid : string) (ws : nat) : State :=
  match active_websockets st !! sid with
  | Some wss => set_active_websockets <[sid := list_remove ws wss]> st
  | None => st
  end.

(** ** Entities endpoint *)

Definition get_session_entities (w : World) (st : State) (sid : string)
    (radius : Z) : http_error + entities_result :=
  match session_by_id st sid with
  | None => inl E404
  | Some session =>
      if is_active session
      then inr (_sync_get_entities_list w (s_slot session) radius)
      else inr (EntitiesResult [] 0 None true)
  end.

(** ** The system as a transition system

    One step is one handler, or one iteration of a background loop, run to
    completion. *)

Inductive step : State -> State -> Prop :=
  | step_claim w st request :
      step st (fst (claim_session w st request))
  | step_release w st sid request :
      step st (fst (release_session w st sid request))
  | step_sweep w st :
      step st (session_timeout_checker w st)
  | step_poll w st :
      step st (score_polling_loop w st)
  | step_stream_open st sid ws :
      step st (fst (session_stream_open st sid ws))
  | step_stream_close st sid ws :
      step st (session_stream_close st sid ws).

Inductive reachable : State -> Prop :=
  | reachable_init : reachable init_state
  | reachable_step st st' : reachable st -> step st st' -> reachable st'.

(** No two active sessions on one slot, no two active sessions of one
    user. *)
Definition one_active_per_slot (st : State) : Prop :=
  List.NoDup (map s_slot (active_sessions st)).

Definition one_active_per_user (st : State) : Prop :=
  List.NoDup (map s_username (active_sessions st)).

Definition normalized (request : ClaimRequest) : string :=
  py_strip (py_lower (cr_username request)).

(** A reply that is empty, carries the word Error, or is not JSON. *)
Definition bad_reply (response : string) : Prop :=
  response = "" \/ str_contains "Error" response = true \/
  json_loads response = None.

(** The active rows of [ss'] are active rows of [ss], in the same order. *)
Definition narrows (ss ss' : list Session) : Prop :=
  exists q, List.filter is_active ss' = List.filter q (List.filter is_active ss).

(** What one iteration of the polling loop writes and sends for a session
    whose score can be stored. *)
Definition numeric_score (w : World) (s : Session) : Prop :=
  as_real (sd_score (get_slot_score w (s_slot s))) <> None.

Definition sample_of (w : World) (s : Session) : ScoreSample :=
  let score_data := get_slot_score w (s_slot s) in
  mkScoreSample (s_username s) (session_id s) (now w)
    (default None (as_real (sd_score score_data))) (sd_items score_data).

Definition deliveries_of (w : World) (subscribers : gmap string (list nat))
    (s : Session) : list (nat * ScoreUpdate) :=
  map (fun ws => (ws, mkScoreUpdate (sd_score (get_slot_score w (s_slot s))) (now w)))
    (List.filter (ws_send_ok w) (default [] (subscribers !! session_id s))).

(** The score call failed: it raised, or its reply is empty, or the reply
    has no player entry and is not JSON. *)
Definition call_failed (w : World) (slot : nat) : Prop :=
  match rcon w slot CmdScore with
  | RconRaised => True
  | RconReply response =>
      response = "" \/
      (search_player (list_ascii_of_string response) = None /\
       json_loads response = None)
  end.

(** A row is expired as of [t]. *)
Definition expired_at (t : Z) (s : Session) : Prop :=
  status s = Expired /\ ended_at s = Some t.

(** [save_slot_state] for this slot and path does not raise. *)
Definition save_goes_through (w : World) (slot : nat) (save_path : string) : Prop :=
  mkdir_ok w save_path = true /\
  rcon w slot (CmdServerSave ("claudetorio_save_" +:+ pretty slot)) <> RconRaised /\
  fle_copy w slot <> CopyRaised.

End Broker.


(** ** A small scenario

    One player, alice, a game that answers every command, and web socket
    number 7. *)

Module Scenario.

(** No reply is JSON. *)
Definition no_json : string -> option pyval := fun _ => None.

(** The reply of the score action for a given score. *)
Definition score_reply (digits : string) : string :=
  string_of_list_ascii
    (list_ascii_of_string "{ " ++ player_key ++
     list_ascii_of_string (" = " +:+ digits +:+ ", }")).

Definition game (digits : string) (slot : nat) (cmd : rcon_cmd) : rcon_result :=
  match cmd with
  | CmdScore => RconReply (score_reply digits)
  | _ => RconReply "ok"
  end.

(** The world at time [t], the game showing the score [digits], the next
    session id being [sid]. *)
Definition world (t : Z) (digits sid : string) : World :=
  mkWorld t (game digits) sid (fun _ => true) (fun _ => Copied) (fun _ => true)
    (fun _ => PDict []) (fun _ => PDict []) (fun _ => PDict []) (fun _ => PDict []).

(** The same, but the game cannot be reached. *)
Definition world_down (t : Z) (sid : string) : World :=
  mkWorld t (fun _ _ => RconRaised) sid (fun _ => true) (fun _ => CopyRaised)
    (fun _ => false)
    (fun _ => PDict []) (fun _ => PDict []) (fun _ => PDict []) (fun _ => PDict []).

(** The same as [world], but saving fails: the save command raises. *)
Definition world_no_save (t : Z) (digits sid : string) : World :=
  mkWorld t
    (fun slot cmd => match cmd with
                     | CmdServerSave _ => RconRaised
                     | _ => game digits slot cmd
                     end)
    sid (fun _ => true) (fun _ => Copied) (fun _ => true)
    (fun _ => PDict []) (fun _ => PDict []) (fun _ => PDict []) (fun _ => PDict []).

(** The same as [world], but no web socket can be reached. *)
Definition world_deaf (t : Z) (digits sid : string) : World :=
  mkWorld t (game digits) sid (fun _ => true) (fun _ => Copied) (fun _ => false)
    (fun _ => PDict []) (fun _ => PDict []) (fun _ => PDict []) (fun _ => PDict []).

Definition alice : ClaimRequest := mkClaimRequest "alice" None.

(** alice claims at time 1000 and gets session a1b2c3d4 on slot 0. *)
Definition claimed : State :=
  fst (claim_session (world 1000 "0" "a1b2c3d4") init_state alice).

(** An observer, web socket 7, subscribes to her session. *)
Definition watched : State :=
  fst (session_stream_open claimed "a1b2c3d4" 7).

(** Half a minute after her two hours are over. *)
Definition late : Z := 8230.

(** A save name of the pattern of the automatic saves. *)
Definition stamp : Z := 1700000000.

(** alice plays from 1699990000 for 100 seconds and releases with a save
    named like the automatic save of [stamp]; she claims again two hours
    and half a minute before [stamp] and lets the session run out. *)
Definition saved_once : State :=
  let st1 := fst (claim_session (world 1699990000 "0" "a1b2c3d4") init_state alice) in
  fst (release_session no_json (world 1699990100 "120" "") st1 "a1b2c3d4"
         (mkReleaseRequest (Some (autosave_name stamp)))).

Definition claimed_again : State :=
  fst (claim_session (world 1699992770 "120" "e5f6a7b8") saved_once alice).

(** A reader of JSON that knows one reply: the text [render] stands for
    an object with [n] entities, each a stone furnace whose name came
    with its quotes. *)
Definition quoted (s : string) : string :=
  String dquote (s +:+ String dquote EmptyString).

Definition furnace : pyval :=
  PDict [("name", PStr (quoted "stone-furnace"));
         ("position", PDict [("x", PInt 3); ("y", PInt (-4))]);
         ("direction", PInt 2);
         ("health", PInt 200)].

Definition json_of_render (n : nat) : string -> option pyval :=
  fun s => if String.eqb s "render"
           then Some (PDict [("entities", PList (repeat furnace n))])
           else None.

Definition world_render (t : Z) : World :=
  mkWorld t (fun _ cmd => match cmd with
                          | CmdRender _ => RconReply "render"
                          | _ => RconReply "ok"
                          end)
    "" (fun _ => true) (fun _ => Copied) (fun _ => true)
    (fun _ => PDict []) (fun _ => PDict []) (fun _ => PDict []) (fun _ => PDict []).

(** bob claims while alice holds slot 0. *)
Definition bob : ClaimRequest := mkClaimRequest "bob" None.

Definition two_players : State :=
  fst (claim_session (world 1500 "0" "0f0f0f0f") claimed bob).

End Scenario.

(** * Further operations

    The read-only endpoints and the queries behind them. *)

(** ** Python values as conditions and as numbers *)

(** [bool(v)] *)
Definition py_truthy (v : pyval) : bool :=
  match v with
  | PNone => false
  | PBool b => b
  | PInt z => negb (z =? 0)%Z
  | PStr s => negb (String.eqb s "")
  | PList l => match l with [] => false | _ => true end
  | PDict d => match d with [] => false | _ => true end
  end.

(** A value that takes part in [+] and [-] with an integer; [None] is the
    [TypeError] of every other value. *)
Definition py_num (v : pyval) : option Z :=
  match v with
  | PInt z => Some z
  | PBool b => Some (if b then 1 else 0)%Z
  | _ => None
  end.

(** [sum(d.values())] *)
Fixpoint sum_values (d : list (string * pyval)) : option Z :=
  match d with
  | [] => Some 0%Z
  | (_, v) :: d' =>
      match py_num v, sum_values d' with
      | Some z, Some t => Some (z + t)%Z
      | _, _ => None
      end
  end.

(** [for x in v]: the elements of a list, the characters of a string, the
    keys of a dictionary; [None] for what cannot be iterated. *)
Definition py_iter (v : pyval) : option (list pyval) :=
  match v with
  | PList l => Some l
  | PStr s => Some (chars_of s)
  | PDict d => Some (map (fun kv => PStr (fst kv)) d)
  | _ => None
  end.

(** [len(v)]; [None] for what has no length. *)
Definition py_len_opt (v : pyval) : option nat :=
  match v with
  | PList l => Some (length l)
  | PStr s => Some (String.length s)
  | PDict d => Some (length d)
  | _ => None
  end.

(** ** Inventory ([_sync_get_inventory]) *)

Record inventory_result : Type := InventoryResult {
  inv_items : pyval;
  inv_total : Z;
  inv_error : option query_error
}.

Definition inventory_empty (e : option query_error) : inventory_result :=
  InventoryResult (PDict []) 0 e.

(** ** Factory summary ([_sync_get_factory_data]) *)

(** The error the answer carries: the reply itself when it has the error
    mark, a fixed text when the reply is empty, the parser's message, or
    the message of another exception. *)
Inductive factory_error : Type :=
  | NoDataReturned
  | ErrorInReply (response : string)
  | JsonParseError
  | FactoryRaised.

Inductive factory_result : Type :=
  | FactoryError (e : factory_error)
  | FactoryData (total_entities : nat) (entity_counts : list (string * nat))
      (has_water : bool).

(** [entity_counts[name] = entity_counts.get(name, 0) + 1] on a dictionary
    that keeps its keys in the order of their first insertion. *)
Fixpoint bump (name : string) (counts : list (string * nat)) : list (string * nat) :=
  match counts with
  | [] => [(name, 1%nat)]
  | (k, n) :: counts' =>
      if String.eqb k name then (k, S n) :: counts'
      else (k, n) :: bump name counts'
  end.

(** The name of an entity as the loop reads it; [None] when the entity has
    no [get] or its name no [strip]. *)
Definition entity_name (e : pyval) : option string :=
  match e with
  | PDict d =>
      match default (PStr "unknown") (dict_get "name" d) with
      | PStr n => Some (strip_char dquote n)
      | _ => None
      end
  | _ => None
  end.

(** The loop over [data['entities']], from the left. *)
Fixpoint count_entities (es : list pyval) (counts : list (string * nat))
    : option (list (string * nat)) :=
  match es with
  | [] => Some counts
  | e :: es' =>
      match entity_name e with
      | None => None
      | Some name => count_entities es' (bump name counts)
      end
  end.

(** ** Production ([_sync_get_production]) *)

Inductive production_result : Type :=
  | ProductionError
  | ProductionData (produced consumed : list (string * pyval))
      (net : gmap string Z).

(** One turn of the loop over the items: [None] when the difference cannot
    be taken. *)
Definition net_step (produced consumed : list (string * pyval)) (item : string)
    (net : gmap string Z) : option (gmap string Z) :=
  match py_num (default (PInt 0) (dict_get item produced)),
        py_num (default (PInt 0) (dict_get item consumed)) with
  | Some p, Some c =>
      if ((p - c) =? 0)%Z then Some net else Some (<[item := (p - c)%Z]> net)
  | _, _ => None
  end.

Fixpoint net_loop (produced consumed : list (string * pyval)) (items : list string)
    (net : gmap string Z) : option (gmap string Z) :=
  match items with
  | [] => Some net
  | item :: items' =>
      match net_step produced consumed item net with
      | None => None
      | Some net' => net_loop produced consumed items' net'
      end
  end.

(** ** Score with details ([_sync_get_detailed_score]) *)

Record detailed_score : Type := DetailedScore {
  ds_score : Z;
  ds_raw : option string;
  ds_error : bool
}.

Section Queries.

Variable json_loads : string -> option pyval.

(** What follows the RCON call in [_sync_get_inventory]. *)
Definition inventory_of_reply (r : rcon_result) : inventory_result :=
  match r with
  | RconRaised => inventory_empty (Some Raised)
  | RconReply response =>
      if String.eqb response "" || str_contains "Error" response
      then inventory_empty None
      else
        match json_loads response with
        | None => inventory_empty (Some ParseError)
        | Some items =>
            if py_truthy items
            then
              match items with
              | PDict d =>
                  match sum_values d with
                  | Some total => InventoryResult items total None
                  | None => inventory_empty (Some Raised)
                  end
              | _ => inventory_empty (Some Raised)   (* no [values] *)
              end
            else InventoryResult items 0 None
        end
  end.

Definition _sync_get_inventory (w : World) (slot : nat) : inventory_result :=
  inventory_of_reply (rcon w slot CmdInventory).

(** The part of [_sync_get_factory_data] that works on the parsed reply.
    The dictionary is built in the order of the source: the length of the
    entities first, then the counts, then the water flag. *)
Definition factory_of_data (data : pyval) : factory_result :=
  match data with
  | PDict d =>
      let counted :=
        match dict_get "entities" d with
        | None => Some []
        | Some entities =>
            match py_iter entities with
            | None => None
            | Some es => count_entities es []
            end
        end in
      match counted with
      | None => FactoryError FactoryRaised
      | Some entity_counts =>
          match py_len_opt (default (PList []) (dict_get "entities" d)) with
          | None => FactoryError FactoryRaised
          | Some total =>
              match dict_get "water_runs" d with
              | None => FactoryData total entity_counts false
              | Some water =>
                  match py_len_opt water with
                  | None => FactoryError FactoryRaised
                  | Some n => FactoryData total entity_counts (0 <? n)%nat
                  end
              end
          end
      end
  | _ => FactoryError FactoryRaised
  end.

(** What follows the RCON call in [_sync_get_factory_data]. *)
Definition factory_of_reply (r : rcon_result) : factory_result :=
  match r with
  | RconRaised => FactoryError FactoryRaised
  | RconReply response =>
      if String.eqb response "" then FactoryError NoDataReturned
      else if str_contains "Error" response then FactoryError (ErrorInReply response)
      else
        match json_loads response with
        | None => FactoryError JsonParseError
        | Some data => factory_of_data data
        end
  end.

Definition _sync_get_factory_data (w : World) (slot : nat) (radius : Z)
    : factory_result :=
  factory_of_reply (rcon w slot (CmdRender radius)).

(** One of the two replies of [_sync_get_production]: the parsed reply, or
    the empty dictionary when the reply is empty, carries an error mark or
    is not JSON. *)
Definition production_counts (response : string) : pyval :=
  if String.eqb response "" || str_contains "Error" response
  then PDict []
  else default (PDict []) (json_loads response).

(** What follows the two RCON calls in [_sync_get_production].  The items
    are visited in the order produced, consumed; the source visits a set,
    and the result does not depend on the order. *)
Definition production_of_replies (produced_r consumed_r : rcon_result)
    : production_result :=
  match produced_r, consumed_r with
  | RconReply produced_response, RconReply consumed_response =>
      match production_counts produced_response,
            production_counts consumed_response with
      | PDict produced, PDict consumed =>
          match net_loop produced consumed
                  (map fst produced ++ map fst consumed)%list ∅ with
          | Some net => ProductionData produced consumed net
          | None => ProductionError
          end
      | _, _ => ProductionError   (* no [keys] *)
      end
  | _, _ => ProductionError
  end.

(** What follows the RCON call in [_sync_get_detailed_score]. *)
Definition detailed_score_of_reply (r : rcon_result) : detailed_score :=
  match r with
  | RconRaised => DetailedScore 0 None true
  | RconReply score_response =>
      if String.eqb score_response "" then DetailedScore 0 None false
      else
        match search_player (list_ascii_of_string score_response) with
        | Some score => DetailedScore score (Some score_response) false
        | None => DetailedScore 0 (Some score_response) false
        end
  end.

Definition _sync_get_detailed_score (w : World) (slot : nat) : detailed_score :=
  detailed_score_of_reply (rcon w slot CmdScore).

End Queries.

(** ** Stream addresses ([Config.get_stream_url])

    The base URL and the base port come from the environment. *)

Definition get_stream_url (base_url : string) (base_port : Z) (slot : nat) : string :=
  base_url +:+ ":" +:+ pretty (base_port + Z.of_nat slot)%Z +:+ "/".

(** A true division, kept as it is written. *)
Record fraction : Type := Fraction {
  numerator : Z;
  denominator : Z
}.

(** ** Answers of the read-only endpoints

    As the handlers build them.  Where a handler builds a response model
    itself, the check of the model on a field that can fail is part of the
    handler; what the framework does with the answer afterwards is not. *)

Record SessionInfo : Type := mkSessionInfo {
  si_session_id : string;
  si_username : string;
  si_slot : nat;
  si_started_at : Z;
  si_expires_at : Z;
  si_current_score : pyval;
  si_status : session_status
}.

Record ScoreReport : Type := mkScoreReport {
  sr_session_id : string;
  sr_username : string;
  sr_status : session_status;
  sr_score : Z;
  sr_playtime_seconds : Z;
  sr_playtime_formatted : string
}.

(** What an endpoint that is live or from the snapshot answers with: the
    live query, the stored column, or the note that there is no
    snapshot. *)
Inductive served (A : Type) : Type :=
  | Live (a : A)
  | Stored (v : pyval)
  | NoSnapshot.

Arguments Live {A} a.
Arguments Stored {A} v.
Arguments NoSnapshot {A}.

Record ActiveEntry : Type := mkActiveEntry {
  ae_session_id : string;
  ae_username : string;
  ae_slot : nat;
  ae_started_at : Z;
  ae_stream_url : string
}.

Record SystemStatus : Type := mkSystemStatus {
  total_slots : nat;
  available_slots : Z;
  st_active_sessions : list ActiveEntry;
  total_users : nat;
  total_sessions_all_time : nat
}.

Record UserProfile : Type := mkUserProfile {
  up_username : string;
  up_created_at : Z;
  up_best_score : Z;
  up_total_playtime_hours : fraction;
  up_total_sessions : nat;
  up_last_session : option Z;
  up_rank : option nat
}.

Record UserSave : Type := mkUserSave {
  us_save_name : string;
  us_created_at : Z;
  us_last_played : Z;
  us_score_at_save : Z;
  us_playtime_hours : fraction
}.

(** A field that a response model declares a float, at the moment the
    handler builds the model: numbers and truth values are taken, a string
    when it reads as a number, everything else raises.  How a string
    reads is a parameter of the embedding. *)
Definition float_field (str_as_float : string -> bool) (v : pyval) : bool :=
  match v with
  | PInt _ | PBool _ => true
  | PStr s => str_as_float s
  | _ => false
  end.

(** The rows of the saves as [UserSave] models: the score is a float that
    is required, so a row whose score is NULL raises. *)
Fixpoint user_saves_of (rows : list Save) : option (list UserSave) :=
  match rows with
  | [] => Some []
  | r :: rows' =>
      match score_at_save r, user_saves_of rows' with
      | Some score, Some models =>
          Some (mkUserSave (sv_save_name r) (sv_created_at r) (last_played r)
                  score (Fraction (playtime_seconds r) 3600) :: models)
      | _, _ => None
      end
  end.

(** [f"{p // 3600}h {(p % 3600) // 60}m"] *)
Definition playtime_formatted (p : Z) : string :=
  pretty (p / 3600)%Z +:+ "h " +:+ pretty (p mod 3600 / 60)%Z +:+ "m".

(** [MAX(started_at)] over rows; NULL when there is none. *)
Definition max_started_at (ss : list Session) : option Z :=
  fold_right (fun s acc => match acc with
                           | Some m => Some (Z.max (started_at s) m)
                           | None => Some (started_at s)
                           end) None ss.

(** The users with a best score above [score]. *)
Definition higher_scores (score : Z) (us : gmap string User) : gmap string User :=
  filter (fun kv => (score < best_score kv.2)%Z) us.

(** [ORDER BY last_played DESC]: rows with equal times stay in the order of
    the table (the query leaves their order open). *)
Fixpoint insert_desc (r : Save) (sorted : list Save) : list Save :=
  match sorted with
  | [] => [r]
  | x :: sorted' =>
      if (last_played x <=? last_played r)%Z then r :: sorted
      else x :: insert_desc r sorted'
  end.

Definition order_by_last_played_desc (rows : list Save) : list Save :=
  fold_right insert_desc [] rows.

Section Endpoints.

Variable json_loads : string -> option pyval.
Variable STREAM_BASE_URL : string.
Variable STREAM_BASE_PORT : Z.
Variable str_as_float : string -> bool.

(** Get details about a specific session.  Building the answer raises when
    the score is not one the model takes, and the handler ends in 500. *)
Definition get_session (w : World) (st : State) (sid : string)
    : http_error + SessionInfo :=
  match session_by_id st sid with
  | None => inl E404
  | Some session =>
      let current_score :=
        if is_active session
        then sd_score (get_slot_score json_loads w (s_slot session))
        else PInt (default 0%Z (final_score session)) in
      if float_field str_as_float current_score
      then inr (mkSessionInfo (session_id session) (s_username session)
                  (s_slot session) (started_at session)
                  (started_at session + Config.SESSION_TIMEOUT_HOURS * 3600)%Z
                  current_score (status session))
      else inl E500
  end.

(** Get detailed score breakdown for a session. *)
Definition get_session_score (w : World) (st : State) (sid : string)
    : http_error + ScoreReport :=
  match session_by_id st sid with
  | None => inl E404
  | Some session =>
      let '(score, playtime_seconds) :=
        if is_active session
        then (ds_score (_sync_get_detailed_score w (s_slot session)),
              (now w - started_at session)%Z)
        else (default 0%Z (final_score session), 0%Z) in
      inr (mkScoreReport sid (s_username session) (status session) score
             playtime_seconds (playtime_formatted playtime_seconds))
  end.

(** The four endpoints that are live or from the snapshot.  A stored column
    is JSON text, never empty, so the test on it passes whenever the row is
    there. *)
Definition serve {A : Type} (live : nat -> A) (column : Snapshot -> pyval)
    (st : State) (sid : string) : http_error + served A :=
  match session_by_id st sid with
  | None => inl E404
  | Some session =>
      if is_active session then inr (Live (live (s_slot session)))
      else
        match session_snapshots st !! sid with
        | Some snapshot => inr (Stored (column snapshot))
        | None => inr NoSnapshot
        end
  end.

Definition get_session_inventory (w : World) (st : State) (sid : string)
    : http_error + served inventory_result :=
  serve (fun slot => inventory_of_reply json_loads (rcon w slot CmdInventory))
    inventory_data st sid.

Definition get_session_research (w : World) (st : State) (sid : string)
    : http_error + served pyval :=
  serve (get_research w) research_data st sid.

Definition get_session_production (w : World) (st : State) (sid : string)
    : http_error + served pyval :=
  serve (get_production w) production_data st sid.

Definition get_session_factory (w : World) (st : State) (sid : string)
    (radius : Z) : http_error + served factory_result :=
  serve (fun slot => factory_of_reply json_loads (rcon w slot (CmdRender radius)))
    factory_data st sid.

(** Get overall system status. *)
Definition get_status (st : State) : SystemStatus :=
  let active := active_sessions st in
  mkSystemStatus Config.TOTAL_SLOTS
    (Z.of_nat Config.TOTAL_SLOTS - Z.of_nat (length active))%Z
    (map (fun s => mkActiveEntry (session_id s) (s_username s) (s_slot s)
                     (started_at s)
                     (get_stream_url STREAM_BASE_URL STREAM_BASE_PORT (s_slot s)))
       active)
    (size (users st)) (length (sessions st)).

(** Get user profile and stats. *)
Definition get_user (st : State) (username : string) : http_error + UserProfile :=
  let username := py_lower username in
  match users st !! username with
  | None => inl E404
  | Some user =>
      let rows := List.filter (fun s => String.eqb (s_username s) username)
                    (sessions st) in
      let rank := S (size (higher_scores (best_score user) (users st))) in
      inr (mkUserProfile username (u_created_at user) (best_score user)
             (Fraction (total_playtime_seconds user) 3600)
             (length rows) (max_started_at rows)
             (if (0 <? best_score user)%Z then Some rank else None))
  end.

(** Get all saves for a specific user. *)
Definition get_user_saves (st : State) (username : string)
    : http_error + list UserSave :=
  let username := py_lower username in
  match users st !! username with
  | None => inl E404
  | Some _ =>
      let rows := order_by_last_played_desc
                    (List.filter (fun r => String.eqb (sv_username r) username)
                       (saves st)) in
      match user_saves_of rows with
      | Some models => inr models
      | None => inl E500
      end
  end.

End Endpoints.

(** ** What the tables must satisfy

    The constraints of the schema and of the life cycle, as predicates on
    a state. *)

(** The key of a save: [UNIQUE(username, save_name)]. *)
Definition save_key (r : Save) : string * string := (sv_username r, sv_save_name r).

(** An active session has no end time, no final score and no save of its
    own yet; an ended one has an end time. *)
Definition lifecycle_ok (s : Session) : Prop :=
  match status s with
  | Active => ended_at s = None /\ final_score s = None /\ save_created s = None
  | _ => ended_at s <> None
  end.

Record well_formed (st : State) : Prop := WellFormed {
  wf_ids : List.NoDup (map session_id (sessions st));
  wf_slots : forall s, In s (sessions st) -> (s_slot s < Config.TOTAL_SLOTS)%nat;
  wf_users : forall s, In s (sessions st) -> users st !! s_username s <> None;
  wf_save_users : forall r, In r (saves st) -> users st !! sv_username r <> None;
  wf_save_keys : List.NoDup (map save_key (saves st));
  wf_lifecycle : forall s, In s (sessions st) -> lifecycle_ok s
}.

(** The tables of a state that the handlers write to. *)
Definition same_tables (st st' : State) : Prop :=
  sessions st' = sessions st /\ users st' = users st /\ saves st' = saves st.

(** The session [session] of [st] is ended in [st']: its row is updated,
    the record of its user too, and there may be one save more. *)
Definition session_ended (w : World) (st st' : State) (sid username : string)
    (how : session_status) : Prop :=
  exists score created playtime,
    how <> Active /\
    sessions st' =
      update_session sid (terminate how (now w) score created) (sessions st) /\
    users st' = update_user_stats score playtime username (users st) /\
    (saves st' = saves st \/
     exists f new,
       saves st' = upsert_save f new (saves st) /\
       sv_username new = username /\
       (forall old, save_key (f old) = save_key old)).

(** Every lock key belongs to a slot that an active session is on. *)
Definition locks_follow_sessions (st : State) : Prop :=
  forall slot entry,
    slot_locks st !! slot = Some entry ->
    exists s, In s (sessions st) /\ is_active s = true /\ s_slot s = slot.

(** The records of the users only grow: no row goes away, no best score
    goes down, no creation time changes. *)
Definition users_grow (us us' : gmap string User) : Prop :=
  forall name u,
    us !! name = Some u ->
    exists u', us' !! name = Some u' /\
               (best_score u <= best_score u')%Z /\
               u_created_at u' = u_created_at u.

(** [counts.get(name, 0)] *)
Fixpoint count_for (name : string) (counts : list (string * nat)) : nat :=
  match counts with
  | [] => 0%nat
  | (k, n) :: counts' => if String.eqb k name then n else count_for name counts'
  end.

(** The entities of a list that carry the name [name]. *)
Definition named (name : string) (es : list pyval) : list pyval :=
  List.filter (fun e => match entity_name e with
                        | Some n => String.eqb n name
                        | None => false
                        end) es.

(** [d.get(item, 0)] read as a number, 0 when it is none. *)
Definition count_of (d : list (string * pyval)) (item : string) : Z :=
  default 0%Z (py_num (default (PInt 0) (dict_get item d))).

(** ** A reader of JSON for the production counts

    Two replies are known: the text [produced] stands for the counts of
    what was made, the text [consumed] for the counts of what was used
    up. *)

Definition json_of_counts : string -> option pyval :=
  fun s =>
    if String.eqb s "produced"
    then Some (PDict [("iron-plate", PInt 10); ("coal", PInt 5)])
    else if String.eqb s "consumed"
    then Some (PDict [("coal", PInt 5); ("iron-plate", PInt 4); ("wood", PInt 2)])
    else None.

(** Two users with their records, nothing else. *)
Definition two_records : State :=
  set_users (fun _ => <["bob" := mkUser 5 300 50]> {["alice" := mkUser 0 120 100]})
    init_state.

(** * Properties *)

Section Properties.

Variable json_loads : string -> option pyval.

(** ** Slot allocation *)

Lemma find_seq_Some (p : nat -> bool) (n a x : nat) :
  List.find p (seq a n) = Some x <->
  (a <= x < a + n)%nat /\ p x = true /\
  forall s, (a <= s < x)%nat -> p s = false.
Proof.
  revert a. induction n as [|n IH]; intros a; simpl.
  - split; [discriminate | lia].
  - destruct (p a) eqn:Hpa.
    + split.
      * intros [= <-]. repeat split; [lia | lia | assumption | lia].
      * intros [Hr [Hp Hlt]].
        destruct (Nat.eq_dec a x) as [->|Hne]; [reflexivity|].
        rewrite (Hlt a) in Hpa by lia. discriminate.
    + rewrite IH. split.
      * intros [Hr [Hp Hlt]]. repeat split; [lia | lia | assumption |].
        intros s Hs. destruct (Nat.eq_dec s a) as [->|Hne]; [assumption|].
        apply Hlt. lia.
      * intros [Hr [Hp Hlt]].
        assert (a <> x) by (intros ->; congruence).
        repeat split; [lia | lia | assumption |].
        intros s Hs. apply Hlt. lia.
Qed.

Lemma find_seq_None (p : nat -> bool) (n a : nat) :
  List.find p (seq a n) = None <->
  forall s, (a <= s < a + n)%nat -> p s = false.
Proof.
  split.
  - intros H s Hs. apply (find_none _ _ H). apply in_seq. lia.
  - intros H. destruct (List.find p (seq a n)) as [x|] eqn:Hf; [|reflexivity].
    apply find_some in Hf as [Hin Hp]. apply in_seq in Hin.
    rewrite H in Hp by lia. discriminate.
Qed.

Lemma existsb_eqb_In (x : nat) (l : list nat) :
  existsb (Nat.eqb x) l = true <-> In x l.
Proof.
  rewrite existsb_exists. split.
  - intros [y [Hin Heq]]. apply Nat.eqb_eq in Heq. now subst.
  - intros Hin. exists x. split; [assumption | apply Nat.eqb_refl].
Qed.

Lemma free_test (st : State) (s : nat) :
  negb (existsb (Nat.eqb s) (active_set st)) = false <-> In s (active_set st).
Proof. rewrite negb_false_iff. apply existsb_eqb_In. Qed.

Lemma get_free_slot_Some (st : State) (slot : nat) :
  get_free_slot st = Some slot <->
  (slot < Config.TOTAL_SLOTS)%nat /\ ~ In slot (active_set st) /\
  forall s, (s < slot)%nat -> In s (active_set st).
Proof.
  unfold get_free_slot. rewrite find_seq_Some. split.
  - intros [Hr [Hp Hlt]]. repeat split; [lia | |].
    + intros Hin. apply existsb_eqb_In in Hin. rewrite Hin in Hp. discriminate.
    + intros s Hs. apply free_test. apply Hlt. lia.
  - intros [Hr [Hp Hlt]]. repeat split; [lia | lia | |].
    + apply negb_true_iff. destruct (existsb _ _) eqn:He; [|reflexivity].
      apply existsb_eqb_In in He. contradiction.
    + intros s Hs. apply free_test. apply Hlt. lia.
Qed.

Lemma get_free_slot_None (st : State) :
  get_free_slot st = None <->
  forall s, (s < Config.TOTAL_SLOTS)%nat -> In s (active_set st).
Proof.
  unfold get_free_slot. rewrite find_seq_None. split.
  - intros H s Hs. apply free_test. apply H. lia.
  - intros H s Hs. apply free_test. apply H. lia.
Qed.

Lemma claim_session_slot (w : World) (st st' : State) (request : ClaimRequest)
    (resp : ClaimResponse) :
  claim_session w st request = (st', inr resp) ->
  get_free_slot st = Some (c_slot resp).
Proof.
  unfold claim_session.
  destruct (active_session_of_user _ _); [discriminate|].
  destruct (get_free_slot st) as [slot|]; [|discriminate].
  destruct (claim_slot_lock _ _ _ _); [|discriminate].
  destruct (insert_session _ _); [|discriminate].
  destruct (truthy _).
  - destruct (bool_decide _); [|discriminate].
    intros [= _ <-]. reflexivity.
  - intros [= _ <-]. reflexivity.
Qed.

(** C9: the slot a claim gets is the smallest slot of [0, N) that no active
    session refers to (slot 0 when there is no active session), and when
    every slot is referred to by an active session there is no free slot:
    the claim is answered with 503 and changes nothing. *)
Theorem get_free_slot_first_free (st : State) :
  (forall slot,
     get_free_slot st = Some slot <->
     (slot < Config.TOTAL_SLOTS)%nat /\ ~ In slot (active_set st) /\
     forall s, (s < slot)%nat -> In s (active_set st)) /\
  (get_free_slot st = None <->
   forall s, (s < Config.TOTAL_SLOTS)%nat -> In s (active_set st)) /\
  (active_sessions st = [] -> get_free_slot st = Some 0%nat) /\
  (forall w request st' resp,
     claim_session w st request = (st', inr resp) ->
     get_free_slot st = Some (c_slot resp)) /\
  (forall w request,
     get_free_slot st = None ->
     active_session_of_user st (py_strip (py_lower (cr_username request))) = None ->
     claim_session w st request = (st, inl E503)).
Proof.
  split; [apply get_free_slot_Some|].
  split; [apply get_free_slot_None|].
  split.
  - intros Hnil. apply get_free_slot_Some. unfold active_set. rewrite Hnil.
    simpl. unfold Config.TOTAL_SLOTS. repeat split; [lia | tauto | lia].
  - split.
    + intros w request st' resp. apply claim_session_slot.
    + intros w request Hnone Huser. unfold claim_session.
      rewrite Huser, Hnone. reflexivity.
Qed.

(** ** Entity list *)

Lemma clean_all_Forall2 (l : list pyval) (cs : list clean_entity) :
  clean_all l = Some cs <-> Forall2 (fun e c => clean_one e = Some c) l cs.
Proof.
  revert cs. induction l as [|e l IH]; intros cs; simpl.
  - split.
    + intros [= <-]. constructor.
    + intros H. inversion H. reflexivity.
  - split.
    + destruct (clean_one e) as [c|] eqn:Hc; [|discriminate].
      destruct (clean_all l) as [cs'|]; [|discriminate].
      intros [= <-]. constructor; [assumption | now apply IH].
    + intros H. inversion H as [|e' c l' cs' Hc Hrest]; subst.
      rewrite Hc. apply IH in Hrest. rewrite Hrest. reflexivity.
Qed.

Lemma clean_all_length (l : list pyval) (cs : list clean_entity) :
  clean_all l = Some cs -> length cs = length l.
Proof.
  intros H. apply clean_all_Forall2 in H.
  symmetry. eapply Forall2_length. exact H.
Qed.

Lemma slice_200_length (v : pyval) (firsts : list pyval) :
  slice_200 v = Some firsts -> (length firsts <= 200)%nat.
Proof.
  destruct v; simpl; try discriminate; intros [= <-];
    rewrite length_take; lia.
Qed.

Lemma entities_of_reply_bound (r : rcon_result) :
  (length (er_entities (entities_of_reply json_loads r)) <= 200)%nat.
Proof.
  unfold entities_of_reply.
  destruct r as [|response]; [simpl; lia|].
  destruct (_ || _); [simpl; lia|].
  destruct (json_loads response) as [[| | | | |data]|]; try (simpl; lia).
  destruct (slice_200 _) as [firsts|] eqn:Hs; [|simpl; lia].
  destruct (clean_all firsts) as [cs|] eqn:Hc; [|simpl; lia].
  simpl. rewrite (clean_all_length _ _ Hc).
  eapply slice_200_length. exact Hs.
Qed.

Lemma entities_of_bad_reply (response : string) :
  bad_reply json_loads response ->
  er_entities (entities_of_reply json_loads (RconReply response)) = [] /\
  er_total (entities_of_reply json_loads (RconReply response)) = 0%nat.
Proof.
  unfold entities_of_reply. intros [-> | [He | Hj]].
  - simpl. split; reflexivity.
  - rewrite He, orb_true_r. split; reflexivity.
  - destruct (_ || _); [split; reflexivity|].
    rewrite Hj. split; reflexivity.
Qed.

Lemma entities_of_good_reply (response : string) (data : list (string * pyval))
    (l : list pyval) (cs : list clean_entity) :
  response <> "" ->
  str_contains "Error" response = false ->
  json_loads response = Some (PDict data) ->
  dict_get "entities" data = Some (PList l) ->
  clean_all (take 200 l) = Some cs ->
  entities_of_reply json_loads (RconReply response) =
  EntitiesResult cs (length l) None false.
Proof.
  intros Hne He Hj Hd Hc. unfold entities_of_reply.
  apply String.eqb_neq in Hne. rewrite Hne, He, Hj, Hd. simpl.
  rewrite Hc. reflexivity.
Qed.

(** C10: for an active session the entities query answers with at most 200
    records, each made of the name, position and direction of an entity of
    the reply, and [total] is the number of entities in the reply; when the
    call fails or the reply is empty, carries an error mark or is not JSON,
    the answer is the empty list with total 0.  The query is a total
    function: it answers in every case. *)
Theorem entities_list_bounded (w : World) (st : State) (sid : string)
    (radius : Z) (session : Session) :
  let answer := _sync_get_entities_list json_loads w (s_slot session) radius in
  (session_by_id st sid = Some session /\ is_active session = true ->
   get_session_entities json_loads w st sid radius = inr answer) /\
  (length (er_entities answer) <= 200)%nat /\
  (forall response data l,
     rcon w (s_slot session) (CmdRender radius) = RconReply response ->
     ~ bad_reply json_loads response ->
     json_loads response = Some (PDict data) ->
     dict_get "entities" data = Some (PList l) ->
     (forall e, In e (take 200 l) -> clean_one e <> None) ->
     er_total answer = length l /\
     length (er_entities answer) = Nat.min 200 (length l) /\
     Forall2 (fun e c => clean_one e = Some c) (take 200 l) (er_entities answer)) /\
  (forall response,
     rcon w (s_slot session) (CmdRender radius) = RconReply response ->
     bad_reply json_loads response ->
     er_entities answer = [] /\ er_total answer = 0%nat) /\
  (rcon w (s_slot session) (CmdRender radius) = RconRaised ->
   er_entities answer = [] /\ er_total answer = 0%nat).
Proof.
  cbv zeta. unfold _sync_get_entities_list.
  split; [|split; [|split; [|split]]].
  - intros [Hs Ha]. unfold get_session_entities, _sync_get_entities_list.
    rewrite Hs, Ha. reflexivity.
  - apply entities_of_reply_bound.
  - intros response data l Hr Hgood Hj Hd Hall. rewrite Hr.
    assert (Hcs : exists cs, clean_all (take 200 l) = Some cs).
    { clear -Hall. induction (take 200 l) as [|e k IH]; simpl.
      - eexists. reflexivity.
      - destruct (clean_one e) as [c|] eqn:Hc.
        + destruct IH as [cs Hcs].
          { intros e' He'. apply Hall. now right. }
          rewrite Hcs. eexists. reflexivity.
        + exfalso. apply (Hall e); [now left | assumption]. }
    destruct Hcs as [cs Hcs].
    assert (Hne : response <> "") by (intros ->; apply Hgood; now left).
    assert (He : str_contains "Error" response = false).
    { destruct (str_contains "Error" response) eqn:E; [|reflexivity].
      exfalso. apply Hgood. right. now left. }
    rewrite (entities_of_good_reply _ _ _ _ Hne He Hj Hd Hcs). simpl.
    split; [reflexivity|]. split.
    + rewrite (clean_all_length _ _ Hcs), length_take. reflexivity.
    + now apply clean_all_Forall2.
  - intros response Hr Hbad. rewrite Hr. now apply entities_of_bad_reply.
  - intros Hr. rewrite Hr. simpl. split; reflexivity.
Qed.

(** ** Release of a session that is not active *)

Lemma active_session_by_id_None (st : State) (sid : string) :
  (forall s, In s (sessions st) -> session_id s = sid -> status s <> Active) ->
  active_session_by_id st sid = None.
Proof.
  intros H. unfold active_session_by_id.
  destruct (List.find _ _) as [s|] eqn:Hf; [|reflexivity].
  apply find_some in Hf as [Hin Hp].
  apply andb_true_iff in Hp as [Hid Hact].
  apply String.eqb_eq in Hid. unfold is_active in Hact.
  apply bool_decide_eq_true in Hact.
  exfalso. exact (H s Hin Hid Hact).
Qed.

(** C8: releasing a session id that no session has, or whose session is
    completed or expired, is answered with 404 and leaves the whole state
    as it was. *)
Theorem release_not_active_404 (w : World) (st : State) (sid : string)
    (request : ReleaseRequest) :
  (forall s, In s (sessions st) -> session_id s = sid -> status s <> Active) ->
  release_session json_loads w st sid request = (st, inl E404).
Proof.
  intros H. unfold release_session.
  rewrite (active_session_by_id_None _ _ H). reflexivity.
Qed.

(** ** Claim with a save that does not exist *)

Lemma delete_session_fresh (sid : string) (ss : list Session) :
  existsb (fun s => String.eqb (session_id s) sid) ss = false ->
  delete_session sid ss = ss.
Proof.
  unfold delete_session. induction ss as [|s ss IH]; simpl; [reflexivity|].
  intros H. apply orb_false_iff in H as [Hs Hrest].
  rewrite Hs. simpl. rewrite IH by assumption. reflexivity.
Qed.

Lemma insert_then_delete (row : Session) (ss ss' : list Session) :
  insert_session row ss = Some ss' ->
  delete_session (session_id row) ss' = ss.
Proof.
  unfold insert_session.
  destruct (existsb _ ss) eqn:He; [discriminate|].
  intros [= <-]. unfold delete_session. rewrite List.filter_app. simpl.
  rewrite String.eqb_refl. simpl. rewrite app_nil_r.
  now apply delete_session_fresh.
Qed.

Lemma insert_session_fresh (row : Session) (ss : list Session) :
  (forall s, In s ss -> session_id s <> session_id row) ->
  insert_session row ss = Some (ss ++ [row])%list.
Proof.
  intros H. unfold insert_session.
  destruct (existsb _ ss) eqn:He; [|reflexivity].
  apply existsb_exists in He as [s [Hin Heq]].
  apply String.eqb_eq in Heq. exfalso. exact (H s Hin Heq).
Qed.

(** C4: a claim that names a save that does not exist ends in an error and
    leaves the sessions table as it was, with no lock that was not there
    before; when the claim got as far as creating its session (the user
    had no active session, a slot was free and its lock could be taken,
    the new id was not in use), the answer is 404, the session row is gone
    again and the lock of the slot is deleted. *)
Theorem claim_missing_save_rolled_back (w : World) (st : State)
    (request : ClaimRequest) (name : string) :
  truthy (cr_save_name request) = Some name ->
  ~ save_path_of (normalized request) name ∈ files st ->
  (exists e, snd (claim_session w st request) = inl e) /\
  sessions (fst (claim_session w st request)) = sessions st /\
  (forall slot,
     slot_locks (fst (claim_session w st request)) !! slot = slot_locks st !! slot \/
     slot_locks (fst (claim_session w st request)) !! slot = None) /\
  (forall slot,
     active_session_of_user st (normalized request) = None ->
     get_free_slot st = Some slot ->
     lock_held (now w) st slot = false ->
     (forall s, In s (sessions st) -> session_id s <> uuid8 w) ->
     snd (claim_session w st request) = inl E404 /\
     slot_locks (fst (claim_session w st request)) = delete slot (slot_locks st) /\
     lock_held (now w) (fst (claim_session w st request)) slot = false).
Proof.
  intros Hname Hmissing. unfold normalized in *.
  assert (Hgen :
    (exists e, snd (claim_session w st request) = inl e) /\
    sessions (fst (claim_session w st request)) = sessions st /\
    (forall slot,
       slot_locks (fst (claim_session w st request)) !! slot = slot_locks st !! slot \/
       slot_locks (fst (claim_session w st request)) !! slot = None)).
  { unfold claim_session.
    destruct (active_session_of_user _ _); [simpl; eauto|].
    destruct (get_free_slot st) as [slot|]; [|simpl; eauto].
    unfold claim_slot_lock.
    destruct (lock_held _ _ _); [simpl; eauto|].
    cbn [sessions set_users set_slot_locks].
    destruct (insert_session _ _) as [ss|] eqn:Hins.
    - rewrite Hname. cbn [files set_sessions set_users set_slot_locks].
      rewrite bool_decide_eq_false_2 by assumption.
      cbn [fst snd sessions set_sessions release_slot_lock set_slot_locks
           set_users slot_locks].
      split; [eauto|]. split.
      + exact (insert_then_delete _ _ _ Hins).
      + intros k. destruct (decide (k = slot)) as [->|Hne].
        * right. apply lookup_delete_eq.
        * left. rewrite lookup_delete_ne, lookup_insert_ne by congruence.
          reflexivity.
    - cbn [fst snd sessions set_sessions release_slot_lock set_slot_locks
           set_users slot_locks].
      split; [eauto|]. split; [reflexivity|].
      intros k. destruct (decide (k = slot)) as [->|Hne].
      + right. apply lookup_delete_eq.
      + left. rewrite lookup_delete_ne, lookup_insert_ne by congruence.
        reflexivity. }
  destruct Hgen as [He [Hs Hl]].
  split; [exact He|]. split; [exact Hs|]. split; [exact Hl|].
  intros slot Huser Hfree Hlock Hfresh.
  unfold claim_session. rewrite Huser, Hfree.
  unfold claim_slot_lock. rewrite Hlock.
  cbn [sessions set_users set_slot_locks].
  rewrite insert_session_fresh by exact Hfresh.
  rewrite Hname. cbn [files set_sessions set_users set_slot_locks].
  rewrite bool_decide_eq_false_2 by assumption.
  cbn [fst snd sessions set_sessions release_slot_lock set_slot_locks
       set_users slot_locks].
  split; [reflexivity|]. split.
  - apply delete_insert_eq.
  - unfold lock_held.
    cbn [fst snd sessions set_sessions release_slot_lock set_slot_locks
         set_users slot_locks].
    rewrite lookup_delete_eq. reflexivity.
Qed.

(** ** One active session per slot and per user *)

Lemma NoDup_map_filter {A B : Type} (f : A -> B) (p : A -> bool) (l : list A) :
  List.NoDup (map f l) -> List.NoDup (map f (List.filter p l)).
Proof.
  induction l as [|a l IH]; simpl; [trivial|].
  intros H. apply List.NoDup_cons_iff in H as [Hnin Hnd].
  destruct (p a); simpl; [|now apply IH].
  apply List.NoDup_cons; [|now apply IH].
  intros Hin. apply Hnin.
  apply in_map_iff in Hin as [x [Hx Hin]].
  apply filter_In in Hin as [Hin _].
  apply in_map_iff. now exists x.
Qed.

Lemma NoDup_snoc {A : Type} (l : list A) (x : A) :
  List.NoDup l -> ~ In x l -> List.NoDup (l ++ [x]).
Proof.
  induction l as [|a l IH]; simpl; intros Hnd Hnin.
  - apply List.NoDup_cons; [tauto | constructor].
  - apply List.NoDup_cons_iff in Hnd as [Ha Hnd].
    apply List.NoDup_cons.
    + rewrite in_app_iff. simpl. intros [H | [H | []]]; [tauto|].
      apply Hnin. now left.
    + apply IH; [assumption | tauto].
Qed.

Lemma narrows_refl (ss : list Session) : narrows ss ss.
Proof.
  exists (fun _ => true). induction (List.filter is_active ss) as [|a l IH];
    simpl; [reflexivity | now rewrite <- IH].
Qed.

Lemma filter_filter {A : Type} (p q : A -> bool) (l : list A) :
  List.filter q (List.filter p l) = List.filter (fun x => p x && q x) l.
Proof.
  induction l as [|a l IH]; simpl; [reflexivity|].
  destruct (p a); simpl; [destruct (q a)|]; now rewrite IH.
Qed.

Lemma narrows_trans (ss1 ss2 ss3 : list Session) :
  narrows ss1 ss2 -> narrows ss2 ss3 -> narrows ss1 ss3.
Proof.
  intros [q1 H1] [q2 H2]. exists (fun s => q1 s && q2 s).
  rewrite H2, H1. apply filter_filter.
Qed.

Lemma narrows_NoDup {B : Type} (f : Session -> B) (ss ss' : list Session) :
  narrows ss ss' ->
  List.NoDup (map f (List.filter is_active ss)) ->
  List.NoDup (map f (List.filter is_active ss')).
Proof. intros [q ->]. apply NoDup_map_filter. Qed.

Lemma terminate_not_active (t : Z) (score : option Z)
    (created : option (option string)) (s : Session) (st' : session_status) :
  st' <> Active -> is_active (terminate st' t score created s) = false.
Proof.
  intros H. unfold is_active. simpl. now apply bool_decide_eq_false_2.
Qed.

Lemma narrows_update (sid : string) (f : Session -> Session) (ss : list Session) :
  (forall s, is_active (f s) = false) ->
  narrows ss (update_session sid f ss).
Proof.
  intros Hf. exists (fun s => negb (String.eqb (session_id s) sid)).
  unfold update_session. induction ss as [|s ss IH]; simpl; [reflexivity|].
  destruct (String.eqb (session_id s) sid) eqn:He.
  - rewrite Hf. destruct (is_active s); simpl; [rewrite He; simpl|]; exact IH.
  - destruct (is_active s); simpl; [rewrite He; simpl; now rewrite IH | exact IH].
Qed.

Lemma narrows_delete (sid : string) (ss : list Session) :
  narrows ss (delete_session sid ss).
Proof.
  exists (fun s => negb (String.eqb (session_id s) sid)).
  unfold delete_session. rewrite !filter_filter.
  apply List.filter_ext. intros s. apply andb_comm.
Qed.

Lemma save_slot_state_sessions (w : World) (slot : nat) (path : string)
    (st : State) :
  match save_slot_state w slot path st with
  | Done st' | Raise st' => sessions st' = sessions st
  end.
Proof.
  unfold save_slot_state.
  destruct (negb _); [reflexivity|].
  destruct (rcon _ _ _); [reflexivity|].
  destruct (fle_copy _ _); reflexivity.
Qed.

Lemma expire_one_narrows (w : World) (session : Session) (st : State) :
  match expire_one json_loads w session st with
  | Done st' | Raise st' => narrows (sessions st) (sessions st')
  end.
Proof.
  unfold expire_one.
  destruct (session_by_id st _); [|apply narrows_refl].
  pose proof (save_slot_state_sessions w (s_slot session)
                (save_path_of (s_username session) (autosave_name (now w))) st) as Hs.
  destruct (save_slot_state _ _ _ _) as [st'|st'];
    destruct (as_real _) as [score|]; simpl; rewrite ?Hs;
    try apply narrows_refl;
    apply narrows_update; intros ?; now apply terminate_not_active.
Qed.

Lemma poll_one_sessions (w : World) (session : Session) (st : State) :
  match poll_one json_loads w session st with
  | Done st' | Raise st' => sessions st' = sessions st
  end.
Proof.
  unfold poll_one. destruct (as_real _); [|reflexivity].
  unfold broadcast. simpl. destruct (_ !! _); reflexivity.
Qed.

Lemma for_each_narrows (body : Session -> State -> outcome) :
  (forall r st, match body r st with
                | Done st' | Raise st' => narrows (sessions st) (sessions st')
                end) ->
  forall rows st, narrows (sessions st) (sessions (for_each body rows st)).
Proof.
  intros Hbody rows. induction rows as [|r rows IH]; intros st; simpl.
  - apply narrows_refl.
  - pose proof (Hbody r st) as H. destruct (body r st) as [st'|st'].
    + eapply narrows_trans; [exact H | apply IH].
    + exact H.
Qed.

Lemma capture_snapshot_sessions (w : World) (sid : string) (slot : nat)
    (score : pyval) (playtime : Z) (st : State) :
  sessions (capture_snapshot w sid slot score playtime st) = sessions st.
Proof. unfold capture_snapshot. destruct (as_real score); reflexivity. Qed.

Lemma save_if_requested_sessions (w : World) (slot : nat) (username : string)
    (score : pyval) (playtime : Z) (save_name : option string) (st : State) :
  match save_if_requested w slot username score playtime save_name st with
  | Done st' | Raise st' => sessions st' = sessions st
  end.
Proof.
  unfold save_if_requested. destruct (truthy save_name) as [name|]; [|reflexivity].
  pose proof (save_slot_state_sessions w slot (save_path_of username name) st) as Hs.
  destruct (save_slot_state _ _ _ _) as [st'|st']; [|exact Hs].
  destruct (as_real score); [|exact Hs]. exact Hs.
Qed.

Lemma release_session_narrows (w : World) (st : State) (sid : string)
    (request : ReleaseRequest) :
  narrows (sessions st) (sessions (fst (release_session json_loads w st sid request))).
Proof.
  unfold release_session.
  destruct (active_session_by_id st sid) as [session|]; [|apply narrows_refl].
  set (score := sd_score _). set (playtime := (now w - _)%Z).
  pose proof (save_if_requested_sessions w (s_slot session) (s_username session)
                score playtime (rr_save_name request)
                (capture_snapshot w sid (s_slot session) score playtime st)) as Hs.
  rewrite capture_snapshot_sessions in Hs.
  destruct (save_if_requested _ _ _ _ _ _ _) as [st2|st2]; simpl.
  - destruct (as_real score); simpl; rewrite Hs; [|apply narrows_refl].
    apply narrows_update; intros ?; now apply terminate_not_active.
  - rewrite Hs. apply narrows_refl.
Qed.

Lemma active_session_of_user_None (st : State) (username : string) :
  active_session_of_user st username = None ->
  ~ In username (map s_username (active_sessions st)).
Proof.
  intros Hnone Hin. apply in_map_iff in Hin as [s [Hu Hin]].
  apply filter_In in Hin as [Hin Hact].
  pose proof (find_none _ _ Hnone s Hin) as H. simpl in H.
  rewrite Hact, Hu, String.eqb_refl in H. discriminate.
Qed.

Lemma active_session_of_user_Some (st : State) (s : Session) :
  In s (active_sessions st) ->
  exists s', active_session_of_user st (s_username s) = Some s'.
Proof.
  intros Hin. apply filter_In in Hin as [Hin Hact].
  unfold active_session_of_user.
  destruct (List.find _ _) as [s'|] eqn:Hf; [now exists s'|].
  pose proof (find_none _ _ Hf s Hin) as H. simpl in H.
  rewrite Hact, String.eqb_refl in H. discriminate.
Qed.

Lemma insert_session_Some (row : Session) (ss ss' : list Session) :
  insert_session row ss = Some ss' -> ss' = (ss ++ [row])%list.
Proof.
  unfold insert_session. destruct (existsb _ _); [discriminate|].
  now intros [= <-].
Qed.

(** What a claim does to the sessions table: nothing, or one more active
    row, on a slot and for a user that no active row has. *)
Lemma claim_session_sessions (w : World) (st : State) (request : ClaimRequest) :
  sessions (fst (claim_session w st request)) = sessions st \/
  exists row,
    sessions (fst (claim_session w st request)) = (sessions st ++ [row])%list /\
    is_active row = true /\
    ~ In (s_slot row) (active_set st) /\
    ~ In (s_username row) (map s_username (active_sessions st)).
Proof.
  unfold claim_session.
  destruct (active_session_of_user _ _) eqn:Huser; [now left|].
  destruct (get_free_slot st) as [slot|] eqn:Hfree; [|now left].
  unfold claim_slot_lock. destruct (lock_held _ _ _); [now left|].
  cbn [sessions set_users set_slot_locks].
  destruct (insert_session _ _) as [ss|] eqn:Hins; [|now left].
  pose proof (insert_then_delete _ _ _ Hins) as Hdel.
  apply insert_session_Some in Hins. simpl in Hdel.
  assert (Hnew : ~ In slot (active_set st) /\
                 ~ In (py_strip (py_lower (cr_username request)))
                      (map s_username (active_sessions st))).
  { split.
    - apply get_free_slot_Some in Hfree. tauto.
    - now apply active_session_of_user_None. }
  destruct (truthy _) as [name|].
  - destruct (bool_decide _).
    + right. eexists. split; [exact Hins|]. split; [reflexivity|]. exact Hnew.
    + left. exact Hdel.
  - right. eexists. split; [exact Hins|]. split; [reflexivity|]. exact Hnew.
Qed.

Lemma claim_session_keeps (w : World) (st : State) (request : ClaimRequest) :
  one_active_per_slot st /\ one_active_per_user st ->
  one_active_per_slot (fst (claim_session w st request)) /\
  one_active_per_user (fst (claim_session w st request)).
Proof.
  unfold one_active_per_slot, one_active_per_user, active_sessions.
  intros [Hslot Huser].
  destruct (claim_session_sessions w st request) as [-> | [row [-> [Hact [Hs Hu]]]]];
    [tauto|].
  rewrite List.filter_app. simpl. rewrite Hact, !map_app. simpl.
  split; apply NoDup_snoc; assumption.
Qed.

Lemma narrows_keeps (st st' : State) :
  narrows (sessions st) (sessions st') ->
  one_active_per_slot st /\ one_active_per_user st ->
  one_active_per_slot st' /\ one_active_per_user st'.
Proof.
  unfold one_active_per_slot, one_active_per_user, active_sessions.
  intros Hn [Hslot Huser]. split; eapply narrows_NoDup; eassumption.
Qed.

Lemma step_keeps (st st' : State) :
  step json_loads st st' ->
  one_active_per_slot st /\ one_active_per_user st ->
  one_active_per_slot st' /\ one_active_per_user st'.
Proof.
  intros Hstep. destruct Hstep as [w st request | w st sid request | w st | w st
                                  | st sid ws | st sid ws].
  - apply claim_session_keeps.
  - apply narrows_keeps, release_session_narrows.
  - apply narrows_keeps. unfold session_timeout_checker.
    apply for_each_narrows. intros r st0. apply expire_one_narrows.
  - apply narrows_keeps. unfold score_polling_loop.
    apply for_each_narrows. intros r st0.
    pose proof (poll_one_sessions w r st0) as H.
    destruct (poll_one _ _ _ _); rewrite H; apply narrows_refl.
  - apply narrows_keeps. unfold session_stream_open.
    destruct (session_by_id _ _) as [s|]; [|apply narrows_refl].
    destruct (is_active s); apply narrows_refl.
  - apply narrows_keeps. unfold session_stream_close.
    destruct (_ !! _); apply narrows_refl.
Qed.

(** C3: in every state the system reaches, no slot has two active sessions
    and no user has two active sessions; each operation (claim, release,
    timeout sweep, score poll, stream open and close) keeps it so; and a
    claim of a user who has an active session is answered with 409 and
    changes nothing. *)
Theorem one_active_session_per_slot_and_user :
  (forall st, reachable json_loads st ->
     one_active_per_slot st /\ one_active_per_user st) /\
  (forall st st', step json_loads st st' ->
     one_active_per_slot st /\ one_active_per_user st ->
     one_active_per_slot st' /\ one_active_per_user st') /\
  (forall w st request s,
     In s (active_sessions st) ->
     s_username s = normalized request ->
     claim_session w st request = (st, inl E409)).
Proof.
  split; [|split].
  - intros st Hreach. induction Hreach as [|st st' _ IH Hstep].
    + split; constructor.
    + exact (step_keeps _ _ Hstep IH).
  - exact step_keeps.
  - intros w st request s Hin Hname. unfold claim_session.
    destruct (active_session_of_user_Some _ _ Hin) as [s' Hs'].
    unfold normalized in Hname. rewrite <- Hname, Hs'. reflexivity.
Qed.

(** ** Score polling *)

Lemma score_of_failed_call (w : World) (slot : nat) :
  call_failed json_loads w slot ->
  sd_score (get_slot_score json_loads w slot) = PInt 0 /\
  sd_items (get_slot_score json_loads w slot) = PDict [].
Proof.
  unfold call_failed, get_slot_score, _sync_get_slot_score, score_of_reply.
  destruct (rcon w slot CmdScore) as [|response]; [now split|].
  intros [-> | [Hs Hj]]; [now split|].
  destruct (String.eqb response ""); [now split|].
  rewrite Hs, Hj. now split.
Qed.

Lemma poll_one_numeric (w : World) (s : Session) (st : State) :
  numeric_score json_loads w s ->
  exists st',
    poll_one json_loads w s st = Done st' /\
    score_history st' = (score_history st ++ [sample_of json_loads w s])%list /\
    delivered st' =
      (delivered st ++ deliveries_of json_loads w (active_websockets st) s)%list /\
    active_websockets st' = active_websockets st /\
    sessions st' = sessions st.
Proof.
  unfold numeric_score, poll_one, sample_of, deliveries_of, broadcast.
  intros Hnum. destruct (as_real _) as [sc|]; [|congruence].
  cbn [active_websockets set_score_history].
  destruct (active_websockets st !! session_id s) as [wss|]; eexists;
    (split; [reflexivity|]); simpl; rewrite ?app_nil_r; auto.
Qed.

Lemma poll_all_numeric (w : World) (rows : list Session) :
  forall st,
    (forall r, In r rows -> numeric_score json_loads w r) ->
    score_history (for_each (poll_one json_loads w) rows st) =
      (score_history st ++ map (sample_of json_loads w) rows)%list /\
    delivered (for_each (poll_one json_loads w) rows st) =
      (delivered st ++
       flat_map (deliveries_of json_loads w (active_websockets st)) rows)%list /\
    active_websockets (for_each (poll_one json_loads w) rows st) =
      active_websockets st.
Proof.
  induction rows as [|r rows IH]; intros st Hnum; simpl.
  - rewrite !app_nil_r. auto.
  - destruct (poll_one_numeric w r st) as [st' [Hp [Hh [Hd [Hw _]]]]].
    { apply Hnum. now left. }
    rewrite Hp. destruct (IH st') as [IHh [IHd IHw]].
    { intros r' Hr'. apply Hnum. now right. }
    rewrite IHh, IHd, IHw, Hh, Hd, Hw, <- !app_assoc. auto.
Qed.

(** C5: when the call to the game fails for an active session (it raises,
    or the reply is empty or cannot be read), the iteration of the polling
    loop for that session does not raise: it
    appends a sample with score 0 for that session, sends the update to
    its subscribers and goes on with the remaining sessions.  In a tick in
    which every session yields a score that can be stored (a failed call
    always does), each active session gets exactly one sample and its
    subscribers one update, in order. *)
Theorem failed_poll_scores_zero (w : World) (st : State) :
  (forall s rest,
     call_failed json_loads w (s_slot s) ->
     let st' :=
       broadcast w (session_id s) (mkScoreUpdate (PInt 0) (now w))
         (set_score_history
            (fun h => h ++ [mkScoreSample (s_username s) (session_id s) (now w)
                              (Some 0%Z) (PDict [])])%list st) in
     poll_one json_loads w s st = Done st' /\
     for_each (poll_one json_loads w) (s :: rest) st =
       for_each (poll_one json_loads w) rest st' /\
     numeric_score json_loads w s /\
     h_score (sample_of json_loads w s) = Some 0%Z) /\
  ((forall r, In r (active_sessions st) -> numeric_score json_loads w r) ->
   score_history (score_polling_loop json_loads w st) =
     (score_history st ++ map (sample_of json_loads w) (active_sessions st))%list /\
   delivered (score_polling_loop json_loads w st) =
     (delivered st ++
      flat_map (deliveries_of json_loads w (active_websockets st))
        (active_sessions st))%list).
Proof.
  split.
  - intros s rest Hfail. cbv zeta.
    destruct (score_of_failed_call _ _ Hfail) as [Hscore Hitems].
    assert (Hp : poll_one json_loads w s st =
                 Done (broadcast w (session_id s) (mkScoreUpdate (PInt 0) (now w))
                         (set_score_history
                            (fun h => h ++ [mkScoreSample (s_username s) (session_id s)
                                              (now w) (Some 0%Z) (PDict [])])%list st))).
    { unfold poll_one. cbv zeta. rewrite Hscore, Hitems. reflexivity. }
    split; [exact Hp|]. split; [simpl; now rewrite Hp|].
    unfold numeric_score, sample_of. cbv zeta. rewrite Hscore. simpl.
    split; [discriminate | reflexivity].
  - intros Hnum. unfold score_polling_loop.
    destruct (poll_all_numeric w (active_sessions st) st Hnum) as [Hh [Hd _]].
    split; assumption.
Qed.

(** ** What a loop leaves untouched *)

Lemma for_each_keeps {X : Type} (proj : State -> X)
    (body : Session -> State -> outcome) :
  (forall r st, match body r st with
                | Done st' | Raise st' => proj st' = proj st
                end) ->
  forall rows st, proj (for_each body rows st) = proj st.
Proof.
  intros Hbody rows. induction rows as [|r rows IH]; intros st; simpl.
  - reflexivity.
  - pose proof (Hbody r st) as H. destruct (body r st) as [st'|st'].
    + now rewrite IH.
    + exact H.
Qed.

Lemma broadcast_keeps (w : World) (sid : string) (message : ScoreUpdate)
    (st : State) :
  active_websockets (broadcast w sid message st) = active_websockets st /\
  delivered (broadcast w sid message st) =
    (delivered st ++
     map (fun ws => (ws, message))
       (List.filter (ws_send_ok w) (default [] (active_websockets st !! sid))))%list.
Proof.
  unfold broadcast. destruct (active_websockets st !! sid) as [wss|]; simpl.
  - split; reflexivity.
  - rewrite app_nil_r. split; reflexivity.
Qed.

Lemma poll_one_websockets (w : World) (session : Session) (st : State) :
  match poll_one json_loads w session st with
  | Done st' | Raise st' => active_websockets st' = active_websockets st
  end.
Proof.
  unfold poll_one. destruct (as_real _); [|reflexivity].
  now rewrite (proj1 (broadcast_keeps _ _ _ _)).
Qed.

Lemma save_slot_state_keeps (w : World) (slot : nat) (path : string) (st : State) :
  match save_slot_state w slot path st with
  | Done st' | Raise st' =>
      session_snapshots st' = session_snapshots st /\
      active_websockets st' = active_websockets st /\
      slot_locks st' = slot_locks st
  end.
Proof.
  unfold save_slot_state.
  destruct (negb _); [auto|].
  destruct (rcon _ _ _); [auto|].
  destruct (fle_copy _ _); simpl; auto.
Qed.

Lemma expire_one_keeps (w : World) (session : Session) (st : State) :
  match expire_one json_loads w session st with
  | Done st' | Raise st' =>
      session_snapshots st' = session_snapshots st /\
      active_websockets st' = active_websockets st
  end.
Proof.
  unfold expire_one.
  destruct (session_by_id st _); [|auto].
  pose proof (save_slot_state_keeps w (s_slot session)
                (save_path_of (s_username session) (autosave_name (now w))) st) as Hs.
  destruct (save_slot_state _ _ _ _) as [st'|st'];
    destruct (as_real _) as [score|]; simpl; tauto.
Qed.

(** In every state, the timeout sweep writes no snapshot and drops no
    subscriber. *)
Lemma sweep_keeps_snapshots_and_subscribers (w : World) (st : State) :
  session_snapshots (session_timeout_checker json_loads w st) = session_snapshots st /\
  active_websockets (session_timeout_checker json_loads w st) = active_websockets st.
Proof.
  unfold session_timeout_checker. split.
  - apply (for_each_keeps session_snapshots). intros r st0.
    pose proof (expire_one_keeps w r st0) as H.
    destruct (expire_one _ _ _ _); tauto.
  - apply (for_each_keeps active_websockets). intros r st0.
    pose proof (expire_one_keeps w r st0) as H.
    destruct (expire_one _ _ _ _); tauto.
Qed.

(** When saving raises, a release with a save name ends in 500: the
    session stays active and the lock stays where it is. *)
Lemma release_blocked_by_save (w : World) (st : State) (sid name : string)
    (request : ReleaseRequest) (session : Session) :
  active_session_by_id st sid = Some session ->
  truthy (rr_save_name request) = Some name ->
  (mkdir_ok w (save_path_of (s_username session) name) = false \/
   rcon w (s_slot session)
     (CmdServerSave ("claudetorio_save_" +:+ pretty (s_slot session))) = RconRaised \/
   fle_copy w (s_slot session) = CopyRaised) ->
  snd (release_session json_loads w st sid request) = inl E500 /\
  sessions (fst (release_session json_loads w st sid request)) = sessions st /\
  slot_locks (fst (release_session json_loads w st sid request)) = slot_locks st.
Proof.
  intros Hs Hname Hfail. unfold release_session. rewrite Hs.
  unfold save_if_requested. rewrite Hname.
  set (st1 := capture_snapshot _ _ _ _ _ _).
  assert (H1 : sessions st1 = sessions st /\ slot_locks st1 = slot_locks st).
  { subst st1. unfold capture_snapshot. destruct (as_real _); auto. }
  assert (Hraise : save_slot_state w (s_slot session)
                     (save_path_of (s_username session) name) st1 = Raise st1).
  { unfold save_slot_state. destruct Hfail as [Hm | [Hr | Hc]].
    - now rewrite Hm.
    - destruct (negb _); [reflexivity|]. now rewrite Hr.
    - destruct (negb _); [reflexivity|].
      destruct (rcon _ _ _); [reflexivity|]. now rewrite Hc. }
  rewrite Hraise. simpl. tauto.
Qed.

(** ** Saving under a name *)

Lemma upsert_save_absent (f : Save -> Save) (new : Save) (l : list Save) :
  (forall r, In r l -> same_save r new = false) ->
  upsert_save f new l = (l ++ [new])%list.
Proof.
  induction l as [|r l IH]; simpl; intros H; [reflexivity|].
  rewrite (H r) by now left. rewrite IH; [reflexivity|].
  intros r' Hr'. apply H. now right.
Qed.

Lemma upsert_save_present (f : Save -> Save) (new old : Save) (l1 l2 : list Save) :
  (forall r, In r l1 -> same_save r new = false) ->
  same_save old new = true ->
  upsert_save f new (l1 ++ old :: l2) = (l1 ++ f old :: l2)%list.
Proof.
  induction l1 as [|r l1 IH]; simpl; intros H Hold.
  - now rewrite Hold.
  - rewrite (H r) by now left. rewrite IH; [reflexivity | | assumption].
    intros r' Hr'. apply H. now right.
Qed.

Lemma upsert_save_length (f : Save -> Save) (new : Save) (l : list Save) :
  length (upsert_save f new l) =
  if existsb (fun r => same_save r new) l then length l else S (length l).
Proof.
  induction l as [|r l IH]; simpl; [reflexivity|].
  destruct (same_save r new); simpl; [reflexivity|].
  rewrite IH. destruct (existsb _ l); reflexivity.
Qed.

(** ** Publishing to subscribers *)

(** C7, as the code has it: a publish passes over an observer that cannot
    be reached and still delivers to the others, but it never changes the
    set of subscribers, neither for one message nor over a whole polling
    tick; an observer leaves the set when its own stream handler ends, and
    the whole set goes when the session is released. *)
Theorem publish_keeps_subscribers (w : World) (st : State) :
  (forall sid message,
     active_websockets (broadcast w sid message st) = active_websockets st /\
     delivered (broadcast w sid message st) =
       (delivered st ++
        map (fun ws => (ws, message))
          (List.filter (ws_send_ok w)
             (default [] (active_websockets st !! sid))))%list) /\
  active_websockets (score_polling_loop json_loads w st) = active_websockets st /\
  (forall sid ws,
     active_websockets (session_stream_close st sid ws) !! sid =
     list_remove ws <$> active_websockets st !! sid) /\
  (forall sid request st' resp,
     release_session json_loads w st sid request = (st', inr resp) ->
     active_websockets st' !! sid = None).
Proof.
  split; [intros; apply broadcast_keeps|]. split; [|split].
  - unfold score_polling_loop. apply (for_each_keeps active_websockets).
    intros r st0. apply poll_one_websockets.
  - intros sid ws. unfold session_stream_close.
    destruct (active_websockets st !! sid) as [wss|] eqn:E; simpl.
    + now rewrite lookup_insert_eq.
    + now rewrite E.
  - intros sid request st' resp. unfold release_session.
    destruct (active_session_by_id st sid); [|discriminate].
    destruct (save_if_requested _ _ _ _ _ _ _); [|discriminate].
    destruct (as_real _); [|discriminate].
    intros [= <- _]. simpl. apply lookup_delete_eq.
Qed.

(** ** The timeout sweep ends sessions whatever the autosave does *)

Lemma session_by_id_In (st : State) (r : Session) :
  In r (sessions st) -> session_by_id st (session_id r) <> None.
Proof.
  intros Hin Hnone. pose proof (find_none _ _ Hnone r Hin) as H. simpl in H.
  rewrite String.eqb_refl in H. discriminate.
Qed.

Lemma session_by_id_ids (st st' : State) (sid : string) :
  map session_id (sessions st') = map session_id (sessions st) ->
  session_by_id st sid <> None -> session_by_id st' sid <> None.
Proof.
  unfold session_by_id. intros Hids Hsome Hnone. apply Hsome.
  destruct (List.find _ (sessions st)) as [s|] eqn:Hf; [|reflexivity].
  apply find_some in Hf as [Hin Heq].
  assert (Hid : In (session_id s) (map session_id (sessions st')))
    by (rewrite Hids; now apply in_map).
  apply in_map_iff in Hid as [s' [Hs' Hin']].
  pose proof (find_none _ _ Hnone s' Hin') as H. simpl in H.
  rewrite Hs', Heq in H. discriminate.
Qed.

Lemma update_session_ids (sid : string) (f : Session -> Session) (ss : list Session) :
  (forall s, session_id (f s) = session_id s) ->
  map session_id (update_session sid f ss) = map session_id ss.
Proof.
  intros Hf. unfold update_session. induction ss as [|s ss IH]; simpl; [reflexivity|].
  rewrite IH. destruct (String.eqb _ _); [now rewrite Hf | reflexivity].
Qed.

Lemma expire_one_effect (w : World) (r : Session) (st : State) (score : option Z) :
  as_real (sd_score (get_slot_score json_loads w (s_slot r))) = Some score ->
  session_by_id st (session_id r) <> None ->
  exists st',
    expire_one json_loads w r st = Done st' /\
    sessions st' =
      update_session (session_id r) (terminate Expired (now w) score None)
        (sessions st) /\
    slot_locks st' = delete (s_slot r) (slot_locks st).
Proof.
  intros Hscore Hrow. unfold expire_one.
  destruct (session_by_id st (session_id r)); [|congruence].
  rewrite Hscore.
  pose proof (save_slot_state_sessions w (s_slot r)
                (save_path_of (s_username r) (autosave_name (now w))) st) as Hs.
  pose proof (save_slot_state_keeps w (s_slot r)
                (save_path_of (s_username r) (autosave_name (now w))) st) as Hk.
  destruct (save_slot_state _ _ _ _) as [st'|st']; eexists;
    (split; [reflexivity|]); simpl; rewrite Hs; destruct Hk as [_ [_ ->]];
    split; reflexivity.
Qed.

Lemma update_session_expired (t : Z) (sid sid' : string) (score : option Z)
    (ss : list Session) :
  (forall s, In s ss -> session_id s = sid -> expired_at t s) ->
  forall s, In s (update_session sid' (terminate Expired t score None) ss) ->
            session_id s = sid -> expired_at t s.
Proof.
  intros H s Hin Hid. unfold update_session in Hin.
  apply in_map_iff in Hin as [s0 [Hs0 Hin0]].
  destruct (String.eqb (session_id s0) sid').
  - subst s. split; reflexivity.
  - subst s. now apply H.
Qed.

Lemma update_session_expires (t : Z) (sid : string) (score : option Z)
    (ss : list Session) :
  forall s, In s (update_session sid (terminate Expired t score None) ss) ->
            session_id s = sid -> expired_at t s.
Proof.
  intros s Hin Hid. unfold update_session in Hin.
  apply in_map_iff in Hin as [s0 [Hs0 Hin0]].
  destruct (String.eqb (session_id s0) sid) eqn:He.
  - subst s. split; reflexivity.
  - subst s. apply String.eqb_neq in He. contradiction.
Qed.

Lemma sweep_loop_expires (w : World) (rows : list Session) :
  forall st,
    (forall r, In r rows -> numeric_score json_loads w r) ->
    (forall r, In r rows -> session_by_id st (session_id r) <> None) ->
    let st' := for_each (expire_one json_loads w) rows st in
    map session_id (sessions st') = map session_id (sessions st) /\
    (forall sid, (forall s, In s (sessions st) -> session_id s = sid ->
                            expired_at (now w) s) ->
                 forall s, In s (sessions st') -> session_id s = sid ->
                           expired_at (now w) s) /\
    (forall slot, slot_locks st !! slot = None -> slot_locks st' !! slot = None) /\
    (forall r, In r rows ->
       (forall s, In s (sessions st') -> session_id s = session_id r ->
                  expired_at (now w) s) /\
       slot_locks st' !! s_slot r = None).
Proof.
  induction rows as [|r rows IH]; intros st Hnum Hrow; cbv zeta.
  - simpl. split; [reflexivity|]. split; [auto|]. split; [auto|]. intros r [].
  - assert (Hr : numeric_score json_loads w r) by (apply Hnum; now left).
    unfold numeric_score in Hr.
    destruct (as_real (sd_score (get_slot_score json_loads w (s_slot r))))
      as [score|] eqn:Hscore; [|congruence].
    destruct (expire_one_effect w r st score Hscore) as [st1 [Hone [Hss Hlk]]].
    { apply Hrow. now left. }
    assert (Hids1 : map session_id (sessions st1) = map session_id (sessions st)).
    { rewrite Hss. now apply update_session_ids. }
    destruct (IH st1) as [Hids [Hkeep [Hlocks Hrest]]].
    { intros r' Hr'. apply Hnum. now right. }
    { intros r' Hr'. apply (session_by_id_ids st); [exact Hids1|].
      apply Hrow. now right. }
    simpl. rewrite Hone. split; [congruence|]. split; [|split].
    + intros sid Hsid. apply Hkeep. rewrite Hss.
      now apply update_session_expired.
    + intros slot Hnone. apply Hlocks. rewrite Hlk.
      destruct (decide (s_slot r = slot)) as [->|Hne].
      * apply lookup_delete_eq.
      * now rewrite lookup_delete_ne.
    + intros r' [<- | Hr'].
      * split.
        -- apply Hkeep. rewrite Hss. apply update_session_expires.
        -- apply Hlocks. rewrite Hlk. apply lookup_delete_eq.
      * now apply Hrest.
Qed.

(** X1: every session that is past its time when the sweep runs ends the
    sweep as expired, with its end time set, and the lock of its slot deleted,
    whether the automatic save went through or not (as long as the scores
    read can be stored). *)
Theorem sweep_expires_and_unlocks (w : World) (st : State) :
  (forall r, In r (sessions st) -> is_expired w r = true ->
             numeric_score json_loads w r) ->
  forall r, In r (sessions st) -> is_expired w r = true ->
    (exists s, In s (sessions (session_timeout_checker json_loads w st)) /\
               session_id s = session_id r) /\
    (forall s, In s (sessions (session_timeout_checker json_loads w st)) ->
               session_id s = session_id r -> expired_at (now w) s) /\
    slot_locks (session_timeout_checker json_loads w st) !! s_slot r = None.
Proof.
  intros Hnum r Hin Hexp. unfold session_timeout_checker.
  destruct (sweep_loop_expires w (List.filter (is_expired w) (sessions st)) st)
    as [Hids [_ [_ Hrows]]].
  - intros r' Hr'. apply filter_In in Hr' as [Hin' Hexp']. now apply Hnum.
  - intros r' Hr'. apply filter_In in Hr' as [Hin' _]. now apply session_by_id_In.
  - destruct (Hrows r) as [Hall Hlock]; [apply filter_In; now split|].
    split; [|split; assumption].
    assert (Hid : In (session_id r)
                    (map session_id
                       (sessions (for_each (expire_one json_loads w)
                                    (List.filter (is_expired w) (sessions st)) st))))
      by (rewrite Hids; now apply in_map).
    apply in_map_iff in Hid as [s [Hs Hin']]. now exists s.
Qed.

(** ** A release that goes through *)

Lemma save_slot_state_Done (w : World) (slot : nat) (path : string) (st : State) :
  save_goes_through w slot path ->
  exists st',
    save_slot_state w slot path st = Done st' /\
    users st' = users st /\ sessions st' = sessions st /\ saves st' = saves st /\
    session_snapshots st' = session_snapshots st /\
    slot_locks st' = slot_locks st /\
    active_websockets st' = active_websockets st.
Proof.
  intros [Hm [Hr Hc]]. unfold save_slot_state. rewrite Hm. simpl.
  destruct (rcon _ _ _); [congruence|].
  destruct (fle_copy w slot); [| |congruence]; eexists;
    (split; [reflexivity|]); simpl; auto 10.
Qed.

Lemma upsert_save_In (f : Save -> Save) (new : Save) (l : list Save) :
  (forall old, same_save old new = true ->
     sv_username (f old) = sv_username new /\
     sv_save_name (f old) = sv_save_name new /\
     score_at_save (f old) = score_at_save new /\
     last_played (f old) = last_played new) ->
  exists row,
    In row (upsert_save f new l) /\
    sv_username row = sv_username new /\ sv_save_name row = sv_save_name new /\
    score_at_save row = score_at_save new /\ last_played row = last_played new.
Proof.
  intros Hf. induction l as [|r l IH]; simpl.
  - exists new. split; [now left | auto].
  - destruct (same_save r new) eqn:Hsame.
    + exists (f r). split; [now left | now apply Hf].
    + destruct IH as [row [Hin Hrow]]. exists row. split; [now right | exact Hrow].
Qed.

Lemma on_conflict_release_key (t : Z) (score : option Z) (playtime : Z)
    (new old : Save) :
  score_at_save new = score -> last_played new = t ->
  same_save old new = true ->
  sv_username (on_conflict_release t score playtime old) = sv_username new /\
  sv_save_name (on_conflict_release t score playtime old) = sv_save_name new /\
  score_at_save (on_conflict_release t score playtime old) = score_at_save new /\
  last_played (on_conflict_release t score playtime old) = last_played new.
Proof.
  intros Hs Ht Hsame. unfold same_save in Hsame.
  apply andb_true_iff in Hsame as [Hu Hn].
  apply String.eqb_eq in Hu, Hn. simpl. auto.
Qed.

(** X2: the transition to completed, when nothing fails: the answer carries the
    score, the minutes played and the save name; the session row is ended
    as completed with that score; the user's best score and playtime are
    updated; the lock of the slot and the subscribers of the session are
    deleted; a snapshot row is there; and with a save name, a save row of
    that name with the score. *)
Theorem release_completes (w : World) (st : State) (sid : string)
    (request : ReleaseRequest) (session : Session) (score : option Z) :
  active_session_by_id st sid = Some session ->
  as_real (sd_score (get_slot_score json_loads w (s_slot session))) = Some score ->
  (forall name, truthy (rr_save_name request) = Some name ->
     save_goes_through w (s_slot session) (save_path_of (s_username session) name)) ->
  let playtime := (now w - started_at session)%Z in
  let r := release_session json_loads w st sid request in
  snd r = inr (mkReleaseResponse
                 (sd_score (get_slot_score json_loads w (s_slot session)))
                 (playtime / 60)%Z (rr_save_name request)) /\
  sessions (fst r) =
    update_session sid
      (terminate Completed (now w) score (Some (rr_save_name request)))
      (sessions st) /\
  users (fst r) = update_user_stats score playtime (s_username session) (users st) /\
  slot_locks (fst r) = delete (s_slot session) (slot_locks st) /\
  active_websockets (fst r) = delete sid (active_websockets st) /\
  (exists snap, session_snapshots (fst r) !! sid = Some snap /\
                sn_final_score snap = score /\
                sn_playtime_seconds snap = playtime) /\
  (forall name, truthy (rr_save_name request) = Some name ->
     exists row, In row (saves (fst r)) /\
                 sv_username row = s_username session /\ sv_save_name row = name /\
                 score_at_save row = score /\ last_played row = now w).
Proof.
  intros Hs Hscore Hsave. cbv zeta. unfold release_session. rewrite Hs.
  unfold capture_snapshot, save_if_requested. rewrite Hscore.
  set (playtime := (now w - started_at session)%Z).
  set (st1 := set_session_snapshots _ st).
  assert (Hsnap : exists snap, session_snapshots st1 !! sid = Some snap /\
                               sn_final_score snap = score /\
                               sn_playtime_seconds snap = playtime).
  { subst st1. simpl. unfold upsert_snapshot.
    destruct (session_snapshots st !! sid); rewrite lookup_insert_eq;
      eexists; (split; [reflexivity|]); simpl; auto. }
  destruct (truthy (rr_save_name request)) as [name|] eqn:Hname.
  - destruct (save_slot_state_Done w (s_slot session)
                (save_path_of (s_username session) name) st1 (Hsave name eq_refl))
      as [st' [Hdone [Hu [Hss [Hsv [Hsn [Hlk Hws]]]]]]].
    rewrite Hdone. simpl. rewrite Hu, Hss, Hsn, Hlk, Hws.
    repeat (split; [reflexivity || exact Hsnap|]).
    intros name' [= <-].
    destruct (upsert_save_In
                (on_conflict_release (now w) score playtime)
                (new_save (now w) (s_username session) name
                   (save_path_of (s_username session) name) score playtime)
                (saves st')) as [row Hrow].
    { intros old. now apply on_conflict_release_key. }
    exists row. exact Hrow.
  - simpl. repeat (split; [reflexivity || exact Hsnap|]). intros name' [=].
Qed.

(** X3: the update of the user's record at the end of a session: the best
    score is the greater of the old one and the final score, so it never
    goes down, and the playtime grows by the time played. *)
Theorem update_user_stats_lookup (score : option Z) (playtime : Z)
    (username : string) (us : gmap string User) (u : User) :
  us !! username = Some u ->
  exists u',
    update_user_stats score playtime username us !! username = Some u' /\
    best_score u' = greatest (best_score u) score /\
    (best_score u <= best_score u')%Z /\
    total_playtime_seconds u' = (total_playtime_seconds u + playtime)%Z.
Proof.
  intros Hu. unfold update_user_stats. eexists. split.
  - rewrite lookup_alter_eq, Hu. reflexivity.
  - simpl. split; [reflexivity|]. split; [|reflexivity].
    destruct score; simpl; lia.
Qed.

End Properties.

(** * The scenario, step by step *)

Import Scenario.

Example score_reply_parsed :
  sd_score (score_of_reply no_json (RconReply (score_reply "12345"))) = PInt 12345.
Proof. reflexivity. Qed.

Example autosave_name_example :
  autosave_name stamp = "autosave_20231114_221320".
Proof. reflexivity. Qed.

Example first_claim_gets_slot_0 :
  get_free_slot init_state = Some 0%nat /\
  map s_slot (sessions claimed) = [0%nat] /\
  get_free_slot claimed = Some 1%nat /\
  map (fun s => (s_username s, s_slot s)) (sessions two_players) =
    [("alice", 0%nat); ("bob", 1%nat)].
Proof. vm_compute. repeat split. Qed.

(** C3, at work: the state with alice on slot 0 and bob on slot 1 is
    reached by two claims; it has one active session per slot and per user,
    and a further claim of alice is answered with 409. *)
Lemma one_active_session_witness :
  reachable no_json two_players /\
  one_active_per_slot two_players /\ one_active_per_user two_players /\
  claim_session (world 1600 "0" "99999999") two_players alice =
    (two_players, inl E409).
Proof.
  assert (Hreach : reachable no_json two_players).
  { apply reachable_step with (st := claimed).
    - apply reachable_step with (st := init_state).
      + apply reachable_init.
      + apply (step_claim no_json (world 1000 "0" "a1b2c3d4") init_state alice).
    - apply (step_claim no_json (world 1500 "0" "0f0f0f0f") claimed bob). }
  destruct (one_active_session_per_slot_and_user no_json) as [Hinv [_ Hreject]].
  split; [exact Hreach|].
  destruct (Hinv two_players Hreach) as [Hslot Huser].
  split; [exact Hslot|]. split; [exact Huser|].
  apply Hreject
    with (s := mkSession "a1b2c3d4" "alice" 0 1000 None None Active None None).
  - vm_compute. now left.
  - reflexivity.
Defined.

(** C9, at work: with alice on slot 0, slot 1 is the first free slot, and
    it is the slot that bob gets. *)
Lemma get_free_slot_witness :
  get_free_slot claimed = Some 1%nat /\
  get_free_slot claimed =
    Some (c_slot (claim_response (world 1500 "0" "0f0f0f0f") "0f0f0f0f" "bob" 1
                    (ResetSlot 1))).
Proof.
  destruct (get_free_slot_first_free claimed) as [Hsome [_ [_ [Hclaim _]]]].
  split.
  - apply Hsome. split; [vm_compute; lia|]. split.
    + vm_compute. intros [H | []]. discriminate.
    + intros s Hs. assert (s = 0%nat) as -> by lia. vm_compute. now left.
  - apply (Hclaim (world 1500 "0" "0f0f0f0f") bob two_players).
    vm_compute. reflexivity.
Defined.

(** C10, at work: a reply with 250 furnaces is answered with the first 200,
    cleaned, and total 250; a game that cannot be reached, with the empty
    list and total 0. *)
Lemma entities_list_witness :
  let answer := _sync_get_entities_list (json_of_render 250) (world_render 0) 0 50 in
  er_total answer = 250%nat /\
  length (er_entities answer) = 200%nat /\
  head (er_entities answer) =
    Some (CleanEntity "stone-furnace" (PDict [("x", PInt 3); ("y", PInt (-4))])
            (PInt 2)) /\
  er_entities (_sync_get_entities_list no_json (world_down 0 "") 0 50) = [] /\
  er_total (_sync_get_entities_list no_json (world_down 0 "") 0 50) = 0%nat.
Proof.
  cbv zeta.
  pose (session := mkSession "a1b2c3d4" "alice" 0 1000 None None Active None None).
  destruct (entities_list_bounded (json_of_render 250) (world_render 0) claimed
              "a1b2c3d4" 50 session) as [_ [_ [Hgood _]]].
  destruct (Hgood "render" [("entities", PList (repeat furnace 250))]
              (repeat furnace 250)) as [Htotal [Hlen _]].
  - reflexivity.
  - intros [H | [H | H]]; vm_compute in H; discriminate.
  - reflexivity.
  - reflexivity.
  - intros e He. apply list_elem_of_In, elem_of_take in He as [i [He _]].
    apply list_elem_of_lookup_2, list_elem_of_In, repeat_spec in He. subst e.
    discriminate.
  - destruct (entities_list_bounded no_json (world_down 0 "") claimed
                "a1b2c3d4" 50 session) as [_ [_ [_ [_ Hdown]]]].
    destruct (Hdown eq_refl) as [Hnil Hzero].
    split; [exact Htotal|]. split; [exact Hlen|].
    split; [vm_compute; reflexivity|]. split; [exact Hnil | exact Hzero].
Defined.

(** C5, at work: alice and bob are playing and the game cannot be reached;
    the tick appends a sample with score 0 for each of them. *)
Lemma failed_poll_witness :
  let st := score_polling_loop no_json (world_down 1030 "") two_players in
  map (fun h => (h_session_id h, h_score h)) (score_history st) =
    [("a1b2c3d4", Some 0%Z); ("0f0f0f0f", Some 0%Z)].
Proof.
  cbv zeta.
  destruct (failed_poll_scores_zero no_json (world_down 1030 "") two_players)
    as [Hstep Htick].
  destruct Htick as [Hhistory _].
  - intros r _. apply (Hstep r []). exact I.
  - rewrite Hhistory. vm_compute. reflexivity.
Defined.

(** C7 as amended, at work: the tick in which web socket 7 cannot be
    reached leaves the subscribers of the session as they were; closing
    the stream of web socket 7 removes it. *)
Lemma publish_keeps_subscribers_witness :
  active_websockets (score_polling_loop no_json (world_deaf 1030 "10" "") watched) =
    active_websockets watched /\
  active_websockets (session_stream_close watched "a1b2c3d4" 7) !! "a1b2c3d4" =
    Some [].
Proof.
  destruct (publish_keeps_subscribers no_json (world_deaf 1030 "10" "") watched)
    as [_ [Htick [Hclose _]]].
  split; [exact Htick|].
  rewrite Hclose. vm_compute. reflexivity.
Defined.

(** C8, at work: releasing the expired session of alice, or a session id
    that was never given out, is answered with 404 and changes nothing. *)
Lemma release_not_active_404_witness :
  let gone := session_timeout_checker no_json (world late "55" "") watched in
  release_session no_json (world 9100 "60" "") gone "a1b2c3d4" (mkReleaseRequest None)
    = (gone, inl E404) /\
  release_session no_json (world 9100 "60" "") watched "nosuch" (mkReleaseRequest None)
    = (watched, inl E404).
Proof.
  split.
  - apply (release_not_active_404 no_json (world 9100 "60" "")
             (session_timeout_checker no_json (world late "55" "") watched)
             "a1b2c3d4" (mkReleaseRequest None)).
    intros s Hin _. vm_compute in Hin. destruct Hin as [<- | []]. discriminate.
  - apply (release_not_active_404 no_json (world 9100 "60" "") watched
             "nosuch" (mkReleaseRequest None)).
    intros s Hin Hid. vm_compute in Hin. destruct Hin as [<- | []]. discriminate.
Defined.

(** C4, at work: alice, who has one save, claims with the name of a save
    she does not have. *)
Lemma claim_missing_save_witness :
  let w := world 1699992000 "120" "e5f6a7b8" in
  let request := mkClaimRequest "alice" (Some "no_such_save") in
  snd (claim_session w saved_once request) = inl E404 /\
  sessions (fst (claim_session w saved_once request)) = sessions saved_once /\
  lock_held (now w) (fst (claim_session w saved_once request)) 0 = false.
Proof.
  cbv zeta.
  assert (Hmissing :
    ~ save_path_of (normalized (mkClaimRequest "alice" (Some "no_such_save")))
        "no_such_save" ∈ files saved_once).
  { apply (bool_decide_eq_false_1 _). vm_compute. reflexivity. }
  destruct (claim_missing_save_rolled_back (world 1699992000 "120" "e5f6a7b8")
              saved_once (mkClaimRequest "alice" (Some "no_such_save"))
              "no_such_save" eq_refl Hmissing) as [_ [Hsessions [_ Hslot]]].
  destruct (Hslot 0%nat) as [H404 [_ Hlock]].
  - vm_compute. reflexivity.
  - vm_compute. reflexivity.
  - vm_compute. reflexivity.
  - intros s Hin. vm_compute in Hin. destruct Hin as [<- | []]. discriminate.
  - split; [exact H404|]. split; [exact Hsessions | exact Hlock].
Defined.

(** C7 fails as stated: after a polling tick in which web socket 7 could
    not be reached, it is still subscribed to the session, and the next
    tick sends to it again. *)
Lemma unreachable_observer_stays_subscribed :
  let tick1 := score_polling_loop no_json (world_deaf 1030 "10" "") watched in
  let tick2 := score_polling_loop no_json (world 1060 "20" "") tick1 in
  ws_send_ok (world_deaf 1030 "10" "") 7 = false /\
  delivered tick1 = [] /\
  active_websockets tick1 !! "a1b2c3d4" = Some [7%nat] /\
  delivered tick2 = [(7%nat, mkScoreUpdate (PInt 20) 1060)].
Proof. vm_compute. repeat split. Qed.

(** C1, on the code: the timeout sweep ends the session of alice as expired
    but writes no snapshot for it and leaves its subscriber in place; a
    release of the same session at the same moment writes the snapshot and
    drops the subscribers. *)
Theorem expiry_skips_snapshot_and_subscribers :
  let expired := session_timeout_checker no_json (world late "55" "") watched in
  let released :=
    fst (release_session no_json (world late "55" "") watched "a1b2c3d4"
           (mkReleaseRequest None)) in
  map status (sessions expired) = [Expired] /\
  session_snapshots expired !! "a1b2c3d4" = None /\
  active_websockets expired !! "a1b2c3d4" = Some [7%nat] /\
  map status (sessions released) = [Completed] /\
  sn_final_score <$> session_snapshots released !! "a1b2c3d4" = Some (Some 55%Z) /\
  active_websockets released !! "a1b2c3d4" = None.
Proof. vm_compute. repeat split. Qed.

(** C2, on the code: when the save command raises, the release of alice
    with a save name ends in 500, her session is still active and the lock
    of slot 0 is still held; the timeout sweep under the same failure ends
    the session and deletes the lock. *)
Theorem release_with_failing_save_is_blocked :
  let r := release_session no_json (world_no_save 2000 "77" "") watched "a1b2c3d4"
             (mkReleaseRequest (Some "mysave")) in
  let swept := session_timeout_checker no_json (world_no_save late "77" "") watched in
  snd r = inl E500 /\
  map status (sessions (fst r)) = [Active] /\
  lock_held 2000 (fst r) 0 = true /\
  get_free_slot (fst r) = Some 1%nat /\
  map status (sessions swept) = [Expired] /\
  slot_locks swept !! 0%nat = None.
Proof. vm_compute. repeat split. Qed.

(** C6, on the code: alice has a save of 100 seconds under the name that
    the automatic save of [stamp] will take; her next session runs for 7230
    seconds and expires at [stamp].  The row is updated, not duplicated,
    its score and last-played time are the new ones, but its playtime is
    still 100; the same save made by a release counts 7330. *)
Theorem autosave_does_not_add_playtime :
  let swept := session_timeout_checker no_json (world stamp "500" "") claimed_again in
  let released :=
    fst (release_session no_json (world stamp "500" "") claimed_again "e5f6a7b8"
           (mkReleaseRequest (Some (autosave_name stamp)))) in
  let row s := (sv_save_name s, score_at_save s, last_played s, playtime_seconds s) in
  map row (saves claimed_again) =
    [("autosave_20231114_221320", Some 120%Z, 1699990100%Z, 100%Z)] /\
  map row (saves swept) =
    [("autosave_20231114_221320", Some 500%Z, 1700000000%Z, 100%Z)] /\
  map row (saves released) =
    [("autosave_20231114_221320", Some 500%Z, 1700000000%Z, 7330%Z)].
Proof. vm_compute. repeat split. Qed.

(** The release of alice with a save name while the save command raises. *)
Example release_blocked_by_save_example :
  let r := release_session no_json (world_no_save 2000 "77" "") watched "a1b2c3d4"
             (mkReleaseRequest (Some "mysave")) in
  snd r = inl E500 /\ sessions (fst r) = sessions watched /\
  slot_locks (fst r) = slot_locks watched.
Proof.
  cbv zeta.
  apply (release_blocked_by_save no_json (world_no_save 2000 "77" "") watched
           "a1b2c3d4" "mysave" (mkReleaseRequest (Some "mysave"))
           (mkSession "a1b2c3d4" "alice" 0 1000 None None Active None None)).
  - vm_compute. reflexivity.
  - reflexivity.
  - right. left. reflexivity.
Qed.

(** X1, at work: the sweep over the session of alice while the save command
    raises. *)
Lemma sweep_expires_and_unlocks_witness :
  let swept := session_timeout_checker no_json (world_no_save late "77" "") watched in
  (exists s, In s (sessions swept) /\ session_id s = "a1b2c3d4") /\
  (forall s, In s (sessions swept) -> session_id s = "a1b2c3d4" ->
             expired_at late s) /\
  slot_locks swept !! 0%nat = None.
Proof.
  cbv zeta.
  apply (sweep_expires_and_unlocks no_json (world_no_save late "77" "") watched)
    with (r := mkSession "a1b2c3d4" "alice" 0 1000 None None Active None None).
  - intros r Hin _. vm_compute in Hin. destruct Hin as [<- | []].
    unfold numeric_score. vm_compute. discriminate.
  - vm_compute. now left.
  - vm_compute. reflexivity.
Defined.

(** X2, at work: the release of alice with a save name, everything going
    well. *)
Lemma release_completes_witness :
  let r := release_session no_json (world late "55" "") watched "a1b2c3d4"
             (mkReleaseRequest (Some "mysave")) in
  snd r = inr (mkReleaseResponse (PInt 55) 120 (Some "mysave")) /\
  slot_locks (fst r) = delete 0%nat (slot_locks watched) /\
  active_websockets (fst r) = delete "a1b2c3d4" (active_websockets watched).
Proof.
  cbv zeta.
  destruct (release_completes no_json (world late "55" "") watched "a1b2c3d4"
              (mkReleaseRequest (Some "mysave"))
              (mkSession "a1b2c3d4" "alice" 0 1000 None None Active None None)
              (Some 55%Z))
    as [Hanswer [_ [_ [Hlock [Hws _]]]]].
  - vm_compute. reflexivity.
  - vm_compute. reflexivity.
  - intros name _. split; [reflexivity|]. split; discriminate.
  - split; [|split; assumption].
    rewrite Hanswer. vm_compute. reflexivity.
Defined.

(** X3, at work: a user with best score 120 ends a session with score 55
    after 8000 seconds. *)
Lemma update_user_stats_witness :
  exists u,
    update_user_stats (Some 55%Z) 8000 "alice" {["alice" := mkUser 0 120 100]}
      !! "alice" = Some u /\
    best_score u = 120%Z /\ total_playtime_seconds u = 8100%Z.
Proof.
  destruct (update_user_stats_lookup (Some 55%Z) 8000 "alice"
              {["alice" := mkUser 0 120 100]} (mkUser 0 120 100))
    as [u [Hu [Hbest [_ Htime]]]].
  - apply lookup_singleton_eq.
  - exists u. split; [exact Hu|]. split; [exact Hbest | exact Htime].
Defined.

(** * The tables in every reachable state *)

Section Tables.

Variable json_loads : string -> option pyval.

Lemma same_tables_refl (st : State) : same_tables st st.
Proof. repeat split. Qed.

Lemma same_tables_trans (st1 st2 st3 : State) :
  same_tables st1 st2 -> same_tables st2 st3 -> same_tables st1 st3.
Proof.
  intros [H1 [H2 H3]] [H4 [H5 H6]]. repeat split; congruence.
Qed.

Lemma save_slot_state_tables (w : World) (slot : nat) (path : string) (st : State) :
  match save_slot_state w slot path st with
  | Done st' | Raise st' => same_tables st st'
  end.
Proof.
  unfold save_slot_state.
  destruct (negb _); [apply same_tables_refl|].
  destruct (rcon _ _ _); [apply same_tables_refl|].
  destruct (fle_copy _ _); repeat split.
Qed.

Lemma capture_snapshot_tables (w : World) (sid : string) (slot : nat)
    (score : pyval) (playtime : Z) (st : State) :
  same_tables st (capture_snapshot w sid slot score playtime st).
Proof. unfold capture_snapshot. destruct (as_real score); repeat split. Qed.

Lemma on_conflict_release_save_key (t : Z) (score : option Z) (playtime : Z)
    (old : Save) :
  save_key (on_conflict_release t score playtime old) = save_key old.
Proof. reflexivity. Qed.

Lemma on_conflict_autosave_save_key (t : Z) (score : option Z) (old : Save) :
  save_key (on_conflict_autosave t score old) = save_key old.
Proof. reflexivity. Qed.

(** What a release does to the tables: nothing, or it ends the session. *)
Lemma release_session_shape (w : World) (st : State) (sid : string)
    (request : ReleaseRequest) :
  same_tables st (fst (release_session json_loads w st sid request)) \/
  exists session,
    active_session_by_id st sid = Some session /\
    session_ended w st (fst (release_session json_loads w st sid request))
      sid (s_username session) Completed.
Proof.
  unfold release_session.
  destruct (active_session_by_id st sid) as [session|] eqn:Hs;
    [|left; apply same_tables_refl].
  set (score := sd_score _). set (playtime := (now w - _)%Z).
  pose proof (capture_snapshot_tables w sid (s_slot session) score playtime st)
    as Hsnap.
  set (st1 := capture_snapshot _ _ _ _ _ _) in *.
  unfold save_if_requested.
  destruct (truthy (rr_save_name request)) as [name|].
  - pose proof (save_slot_state_tables w (s_slot session)
                  (save_path_of (s_username session) name) st1) as Hsave.
    destruct (save_slot_state _ _ _ _) as [st2|st2].
    + destruct (as_real score) as [sc|] eqn:Hscore.
      * right. exists session. split; [reflexivity|].
        exists sc, (Some (rr_save_name request)), playtime.
        destruct Hsnap as [H1 [H2 H3]], Hsave as [H4 [H5 H6]].
        simpl. split; [discriminate|]. split; [congruence|]. split; [congruence|].
        right. eexists _, _. split; [rewrite H6, H3; reflexivity|].
        split; [reflexivity|]. intros old. reflexivity.
      * left. simpl. now apply (same_tables_trans st st1 st2).
    + left. simpl. now apply (same_tables_trans st st1 st2).
  - destruct (as_real score) as [sc|] eqn:Hscore.
    + right. exists session. split; [reflexivity|].
      exists sc, (Some (rr_save_name request)), playtime.
      destruct Hsnap as [H1 [H2 H3]].
      simpl. split; [discriminate|]. split; [congruence|]. split; [congruence|].
      left. exact H3.
    + left. simpl. exact Hsnap.
Qed.

(** What one turn of the sweep does to the tables: nothing, or it ends the
    session. *)
Lemma expire_one_shape (w : World) (r : Session) (st : State) :
  match expire_one json_loads w r st with
  | Done st' | Raise st' =>
      same_tables st st' \/
      session_ended w st st' (session_id r) (s_username r) Expired
  end.
Proof.
  unfold expire_one.
  destruct (session_by_id st (session_id r)) as [row|];
    [|left; apply same_tables_refl].
  set (score := sd_score _). set (playtime := (now w - _)%Z).
  pose proof (save_slot_state_tables w (s_slot r)
                (save_path_of (s_username r) (autosave_name (now w))) st) as Hsave.
  destruct (save_slot_state _ _ _ _) as [st1|st1];
    destruct (as_real score) as [sc|] eqn:Hscore; try (left; exact Hsave);
    destruct Hsave as [H1 [H2 H3]]; right;
    exists sc, None, playtime; simpl;
    (split; [discriminate|]); (split; [congruence|]); (split; [congruence|]).
  - right. eexists _, _. split; [rewrite H3; reflexivity|].
    split; [reflexivity|]. intros old. reflexivity.
  - left. exact H3.
Qed.

Lemma poll_one_tables (w : World) (r : Session) (st : State) :
  match poll_one json_loads w r st with
  | Done st' | Raise st' => same_tables st st'
  end.
Proof.
  unfold poll_one. destruct (as_real _); [|apply same_tables_refl].
  unfold broadcast. simpl. destruct (_ !! _); repeat split.
Qed.

(** What a claim does to the tables: at most the user is created, or the
    user is created and one active row is appended, with a new id, on the
    first free slot. *)
Lemma claim_session_shape (w : World) (st : State) (request : ClaimRequest) :
  let st' := fst (claim_session w st request) in
  saves st' = saves st /\
  (users st' = users st \/
   users st' = ensure_user (now w) (normalized request) (users st)) /\
  (sessions st' = sessions st \/
   exists slot,
     get_free_slot st = Some slot /\
     active_session_of_user st (normalized request) = None /\
     ~ In (uuid8 w) (map session_id (sessions st)) /\
     users st' = ensure_user (now w) (normalized request) (users st) /\
     sessions st' =
       (sessions st ++
        [mkSession (uuid8 w) (normalized request) slot (now w) None None Active
           (cr_save_name request) None])%list).
Proof.
  cbv zeta. unfold claim_session, normalized.
  destruct (active_session_of_user _ _) eqn:Huser; [simpl; auto|].
  destruct (get_free_slot st) as [slot|] eqn:Hfree; [|simpl; auto].
  unfold claim_slot_lock. destruct (lock_held _ _ _); [simpl; auto|].
  cbn [sessions set_users set_slot_locks].
  destruct (insert_session _ _) as [ss|] eqn:Hins; [|simpl; auto].
  pose proof (insert_then_delete _ _ _ Hins) as Hdel. simpl in Hdel.
  assert (Hfresh : ~ In (uuid8 w) (map session_id (sessions st))).
  { unfold insert_session in Hins.
    destruct (existsb _ (sessions st)) eqn:He; [discriminate|].
    intros Hin. apply in_map_iff in Hin as [s [Hid Hin]].
    assert (Ht : existsb (fun s0 => String.eqb (session_id s0) (uuid8 w))
                   (sessions st) = true).
    { apply existsb_exists. exists s. split; [assumption|].
      now apply String.eqb_eq. }
    simpl in He. congruence. }
  apply insert_session_Some in Hins.
  destruct (truthy _) as [name|].
  - destruct (bool_decide _); simpl.
    + split; [reflexivity|]. split; [auto|]. right. exists slot. rewrite Hins. auto 10.
    + rewrite Hdel. auto.
  - simpl. split; [reflexivity|]. split; [auto|]. right. exists slot.
    rewrite Hins. auto 10.
Qed.


(** ** The schema's constraints are kept *)

Lemma for_each_inv (P : State -> Prop) (body : Session -> State -> outcome)
    (rows : list Session) :
  (forall r st, In r rows -> P st ->
     match body r st with Done st' | Raise st' => P st' end) ->
  forall st, P st -> P (for_each body rows st).
Proof.
  induction rows as [|r rows IH]; intros Hbody st HP; simpl; [exact HP|].
  pose proof (Hbody r st (or_introl eq_refl) HP) as H.
  destruct (body r st) as [st'|st']; [|exact H].
  apply IH; [|exact H]. intros r' st0 Hr'. apply Hbody. now right.
Qed.

Lemma In_update_session (sid : string) (f : Session -> Session)
    (ss : list Session) (s : Session) :
  In s (update_session sid f ss) <->
  exists s0, In s0 ss /\
             s = (if String.eqb (session_id s0) sid then f s0 else s0).
Proof.
  unfold update_session. rewrite in_map_iff. split.
  - intros [s0 [Heq Hin]]. exists s0. split; [assumption | now symmetry].
  - intros [s0 [Hin Heq]]. exists s0. split; [now symmetry | assumption].
Qed.

Lemma In_upsert_save (f : Save -> Save) (new : Save) (l : list Save) (r : Save) :
  In r (upsert_save f new l) ->
  r = new \/ exists old, In old l /\ (r = old \/ r = f old).
Proof.
  induction l as [|x l IH]; simpl.
  - intros [<- | []]. now left.
  - destruct (same_save x new).
    + intros [<- | Hin]; right.
      * exists x. split; [now left | now right].
      * exists r. split; [now right | now left].
    + intros [<- | Hin].
      * right. exists x. split; [now left | now left].
      * destruct (IH Hin) as [-> | [old [Hold Hr]]]; [now left|].
        right. exists old. split; [now right | exact Hr].
Qed.

Lemma same_save_key (a b : Save) :
  same_save a b = true <-> save_key a = save_key b.
Proof.
  unfold same_save, save_key. rewrite andb_true_iff, !String.eqb_eq. split.
  - intros [-> ->]. reflexivity.
  - intros [= -> ->]. split; reflexivity.
Qed.

Lemma upsert_save_keys (f : Save -> Save) (new : Save) (l : list Save) :
  (forall old, save_key (f old) = save_key old) ->
  List.NoDup (map save_key l) ->
  List.NoDup (map save_key (upsert_save f new l)).
Proof.
  intros Hf. induction l as [|x l IH]; simpl; intros Hnd.
  - constructor; [tauto | constructor].
  - apply List.NoDup_cons_iff in Hnd as [Hx Hnd].
    destruct (same_save x new) eqn:Hsame; simpl.
    + rewrite Hf. now constructor.
    + constructor; [|now apply IH].
      intros Hin. apply in_map_iff in Hin as [r [Hkey Hin]].
      apply In_upsert_save in Hin as [-> | [old [Hold [-> | ->]]]].
      * symmetry in Hkey. apply same_save_key in Hkey. congruence.
      * apply Hx. apply in_map_iff. now exists old.
      * rewrite Hf in Hkey. apply Hx. apply in_map_iff. now exists old.
Qed.

Lemma update_user_stats_dom (score : option Z) (playtime : Z)
    (username name : string) (us : gmap string User) :
  update_user_stats score playtime username us !! name <> None <->
  us !! name <> None.
Proof.
  unfold update_user_stats. rewrite lookup_alter.
  destruct (decide (username = name)) as [->|Hne]; [|reflexivity].
  destruct (us !! name); simpl; split; congruence.
Qed.

Lemma ensure_user_dom (t : Z) (username name : string) (us : gmap string User) :
  ensure_user t username us !! name <> None <->
  name = username \/ us !! name <> None.
Proof.
  unfold ensure_user. destruct (us !! username) eqn:Hu.
  - split; [now right|]. intros [-> | H]; congruence.
  - destruct (decide (name = username)) as [->|Hne].
    + rewrite lookup_insert_eq. split; [now left | congruence].
    + rewrite lookup_insert_ne by congruence. split; [now right|].
      intros [-> | H]; congruence.
Qed.

Lemma well_formed_same_tables (st st' : State) :
  same_tables st st' -> well_formed st -> well_formed st'.
Proof.
  intros [Hs [Hu Hv]] [H1 H2 H3 H4 H5 H6].
  constructor; rewrite ?Hs, ?Hu, ?Hv; assumption.
Qed.

Lemma well_formed_session_ended (w : World) (st st' : State)
    (sid username : string) (how : session_status) :
  session_ended w st st' sid username how ->
  users st !! username <> None ->
  well_formed st -> well_formed st'.
Proof.
  intros [score [created [playtime [Hhow [Hs [Hu Hv]]]]]] Huser [H1 H2 H3 H4 H5 H6].
  constructor.
  - rewrite Hs, update_session_ids; [assumption | reflexivity].
  - intros s Hin. rewrite Hs in Hin.
    apply In_update_session in Hin as [s0 [Hin ->]].
    destruct (String.eqb _ _); simpl; now apply H2.
  - intros s Hin. rewrite Hs in Hin. rewrite Hu.
    apply In_update_session in Hin as [s0 [Hin ->]].
    apply update_user_stats_dom.
    destruct (String.eqb _ _); simpl; now apply H3.
  - intros r Hin. rewrite Hu. apply update_user_stats_dom.
    destruct Hv as [Hv | [f [new [Hv [Hnew Hf]]]]]; rewrite Hv in Hin.
    + now apply H4.
    + apply In_upsert_save in Hin as [-> | [old [Hold [-> | ->]]]].
      * now rewrite Hnew.
      * now apply H4.
      * pose proof (Hf old) as Hk. injection Hk as Hk _. rewrite Hk.
        now apply H4.
  - destruct Hv as [Hv | [f [new [Hv [Hnew Hf]]]]]; rewrite Hv.
    + assumption.
    + now apply upsert_save_keys.
  - intros s Hin. rewrite Hs in Hin.
    apply In_update_session in Hin as [s0 [Hin ->]].
    destruct (String.eqb _ _); [|now apply H6].
    unfold lifecycle_ok. simpl. destruct how; [congruence | discriminate..].
Qed.

Lemma well_formed_claim (w : World) (st : State) (request : ClaimRequest) :
  well_formed st -> well_formed (fst (claim_session w st request)).
Proof.
  intros [H1 H2 H3 H4 H5 H6].
  destruct (claim_session_shape w st request) as [Hv [Hu Hs]].
  assert (Hkept : forall name, users st !! name <> None ->
                    users (fst (claim_session w st request)) !! name <> None).
  { intros name Hname. destruct Hu as [-> | ->]; [assumption|].
    apply ensure_user_dom. now right. }
  destruct Hs as [Hs | [slot [Hfree [_ [Hfresh [Hu' Hs]]]]]].
  - constructor; rewrite ?Hs, ?Hv; auto.
  - constructor; rewrite ?Hs, ?Hv; auto.
    + rewrite map_app. simpl. now apply NoDup_snoc.
    + intros s Hin. apply in_app_iff in Hin as [Hin | [<- | []]]; [auto|].
      simpl. apply get_free_slot_Some in Hfree. tauto.
    + intros s Hin. apply in_app_iff in Hin as [Hin | [<- | []]]; [auto|].
      simpl. rewrite Hu'. apply ensure_user_dom. now left.
    + intros s Hin. apply in_app_iff in Hin as [Hin | [<- | []]]; [auto|].
      unfold lifecycle_ok. simpl. auto.
Qed.

Lemma active_session_by_id_In (st : State) (sid : string) (session : Session) :
  active_session_by_id st sid = Some session ->
  In session (sessions st) /\ session_id session = sid /\
  is_active session = true.
Proof.
  intros H. apply find_some in H as [Hin Hp].
  apply andb_true_iff in Hp as [Hid Hact]. apply String.eqb_eq in Hid. auto.
Qed.

Lemma well_formed_step (st st' : State) :
  step json_loads st st' -> well_formed st -> well_formed st'.
Proof.
  intros Hstep Hwf.
  destruct Hstep as [w st request | w st sid request | w st | w st
                    | st sid ws | st sid ws].
  - now apply well_formed_claim.
  - destruct (release_session_shape w st sid request) as [H | [session [Hs H]]].
    + now apply (well_formed_same_tables st).
    + apply (well_formed_session_ended w st _ _ _ _ H); [|assumption].
      apply active_session_by_id_In in Hs as [Hin _]. now apply (wf_users st).
  - unfold session_timeout_checker.
    set (rows := List.filter (is_expired w) (sessions st)).
    apply (for_each_inv
             (fun st0 => well_formed st0 /\
                         forall r, In r rows -> users st0 !! s_username r <> None)).
    + intros r st0 Hr [Hwf0 Hrows].
      pose proof (expire_one_shape w r st0) as H.
      destruct (expire_one _ _ _ _) as [st1|st1];
        (destruct H as [H | H];
         [split; [now apply (well_formed_same_tables st0)|];
          destruct H as [_ [-> _]]; assumption
         |split; [apply (well_formed_session_ended w st0 _ _ _ _ H); auto|];
          destruct H as [score [created [playtime [_ [_ [-> _]]]]]];
          intros r' Hr'; apply update_user_stats_dom; auto]).
    + split; [assumption|]. intros r Hr. apply filter_In in Hr as [Hin _].
      now apply (wf_users st).
  - unfold score_polling_loop.
    apply (for_each_inv well_formed); [|assumption].
    intros r st0 _ Hwf0. pose proof (poll_one_tables w r st0) as H.
    destruct (poll_one _ _ _ _); now apply (well_formed_same_tables st0).
  - apply (well_formed_same_tables st); [|assumption].
    unfold session_stream_open. destruct (session_by_id _ _) as [s|];
      [destruct (is_active s)|]; repeat split.
  - apply (well_formed_same_tables st); [|assumption].
    unfold session_stream_close. destruct (_ !! _); repeat split.
Qed.

Lemma well_formed_init : well_formed init_state.
Proof.
  constructor; simpl; try apply List.NoDup_nil; intros ? [].
Qed.

Lemma well_formed_reachable (st : State) :
  reachable json_loads st -> well_formed st.
Proof.
  induction 1 as [|st st' _ IH Hstep]; [apply well_formed_init|].
  now apply (well_formed_step st).
Qed.


(** X4: in every state the system reaches, the tables satisfy the schema
    without the database having to refuse anything but a repeated session
    id: session ids are unique, the pair of user name and save name is
    unique among the saves, and every session and every save belongs to a
    user that has a row. *)
Theorem schema_constraints_hold (st : State) :
  reachable json_loads st ->
  List.NoDup (map session_id (sessions st)) /\
  List.NoDup (map save_key (saves st)) /\
  (forall s, In s (sessions st) -> users st !! s_username s <> None) /\
  (forall r, In r (saves st) -> users st !! sv_username r <> None).
Proof.
  intros Hreach. destruct (well_formed_reachable st Hreach) as [H1 H2 H3 H4 H5 H6].
  auto.
Qed.

(** X5: in every state the system reaches, every session sits on a slot of
    the pool, an active session has no end time, no final score and no
    save of its own, and an ended session has an end time. *)
Theorem sessions_follow_life_cycle (st : State) :
  reachable json_loads st ->
  forall s, In s (sessions st) ->
    (s_slot s < Config.TOTAL_SLOTS)%nat /\
    (status s = Active ->
     ended_at s = None /\ final_score s = None /\ save_created s = None) /\
    (status s <> Active -> ended_at s <> None).
Proof.
  intros Hreach s Hin.
  destruct (well_formed_reachable st Hreach) as [H1 H2 H3 H4 H5 H6].
  split; [now apply H2|].
  pose proof (H6 s Hin) as Hl. unfold lifecycle_ok in Hl.
  destruct (status s); split; try congruence; intros _; assumption.
Qed.

(** ** Ended sessions are never touched again *)

Lemma session_id_unique (ss : list Session) (a b : Session) :
  List.NoDup (map session_id ss) -> In a ss -> In b ss ->
  session_id a = session_id b -> a = b.
Proof.
  induction ss as [|x ss IH]; simpl; [tauto|].
  intros Hnd Ha Hb Hid. apply List.NoDup_cons_iff in Hnd as [Hx Hnd].
  destruct Ha as [-> | Ha], Hb as [-> | Hb]; [reflexivity | | |now apply IH].
  - exfalso. apply Hx. rewrite Hid. now apply in_map.
  - exfalso. apply Hx. rewrite <- Hid. now apply in_map.
Qed.

Lemma update_session_other (sid : string) (f : Session -> Session)
    (ss : list Session) (s : Session) :
  In s ss -> session_id s <> sid -> In s (update_session sid f ss).
Proof.
  intros Hin Hne. apply In_update_session. exists s. split; [assumption|].
  apply String.eqb_neq in Hne. now rewrite Hne.
Qed.

Lemma session_ended_keeps_row (w : World) (st st' : State) (sid username : string)
    (how : session_status) (s : Session) :
  session_ended w st st' sid username how ->
  In s (sessions st) -> session_id s <> sid -> In s (sessions st').
Proof.
  intros [score [created [playtime [_ [-> _]]]]]. apply update_session_other.
Qed.

Lemma ended_row_kept (st st' : State) (s : Session) :
  well_formed st -> step json_loads st st' ->
  In s (sessions st) -> status s <> Active -> In s (sessions st').
Proof.
  intros Hwf Hstep Hin Hended.
  assert (Hother : forall a, In a (sessions st) -> is_active a = true ->
                             session_id s <> session_id a).
  { intros a Ha Hact Hid.
    assert (s = a)
      by exact (session_id_unique (sessions st) s a (wf_ids st Hwf) Hin Ha Hid).
    subst a. unfold is_active in Hact. apply bool_decide_eq_true in Hact.
    contradiction. }
  destruct Hstep as [w st request | w st sid request | w st | w st
                    | st sid ws | st sid ws].
  - destruct (claim_session_shape w st request) as [_ [_ [-> | [slot [_ [_ [_ [_ ->]]]]]]]];
      [assumption | apply in_app_iff; now left].
  - destruct (release_session_shape w st sid request)
      as [[-> _] | [session [Hs H]]]; [assumption|].
    apply active_session_by_id_In in Hs as [Ha [Hid Hact]].
    apply (session_ended_keeps_row w st _ _ _ _ s H Hin).
    rewrite <- Hid. now apply Hother.
  - unfold session_timeout_checker.
    apply (for_each_inv (fun st0 => In s (sessions st0))); [|assumption].
    intros r st0 Hr Hin0. apply filter_In in Hr as [Hr Hexp].
    apply andb_true_iff in Hexp as [Hact _].
    pose proof (expire_one_shape w r st0) as H.
    destruct (expire_one _ _ _ _) as [st1|st1];
      (destruct H as [[-> _] | H]; [assumption|];
       apply (session_ended_keeps_row w st0 _ _ _ _ s H Hin0); now apply Hother).
  - unfold score_polling_loop.
    apply (for_each_inv (fun st0 => In s (sessions st0))); [|assumption].
    intros r st0 _ Hin0. pose proof (poll_one_tables w r st0) as H.
    destruct (poll_one _ _ _ _); destruct H as [-> _]; assumption.
  - unfold session_stream_open. destruct (session_by_id _ _) as [a|];
      [destruct (is_active a)|]; assumption.
  - unfold session_stream_close. destruct (_ !! _); assumption.
Qed.

(** X6: an ended session is final.  From a state the system reaches, no
    operation changes or removes the row of a session that is completed or
    expired: status, end time, final score and save name stay as they were
    set. *)
Theorem ended_sessions_are_final (st st' : State) (s : Session) :
  reachable json_loads st -> step json_loads st st' ->
  In s (sessions st) -> status s <> Active -> In s (sessions st').
Proof.
  intros Hreach. apply ended_row_kept. now apply well_formed_reachable.
Qed.


(** ** Locks follow sessions *)

Lemma save_slot_state_locks (w : World) (slot : nat) (path : string) (st : State) :
  match save_slot_state w slot path st with
  | Done st' | Raise st' =>
      sessions st' = sessions st /\ slot_locks st' = slot_locks st
  end.
Proof.
  unfold save_slot_state.
  destruct (negb _); [auto|].
  destruct (rcon _ _ _); [auto|].
  destruct (fle_copy _ _); simpl; auto.
Qed.

(** What a release does to sessions and locks: nothing, or the rows of the
    session id are ended and the lock of the session's slot is deleted. *)
Lemma release_session_locks (w : World) (st : State) (sid : string)
    (request : ReleaseRequest) :
  let st' := fst (release_session json_loads w st sid request) in
  (sessions st' = sessions st /\ slot_locks st' = slot_locks st) \/
  exists session score,
    active_session_by_id st sid = Some session /\
    sessions st' =
      update_session sid
        (terminate Completed (now w) score (Some (rr_save_name request)))
        (sessions st) /\
    slot_locks st' = delete (s_slot session) (slot_locks st).
Proof.
  cbv zeta. unfold release_session.
  destruct (active_session_by_id st sid) as [session|] eqn:Hs; [|now left].
  set (score := sd_score _). set (playtime := (now w - _)%Z).
  assert (H1 : sessions (capture_snapshot w sid (s_slot session) score playtime st)
               = sessions st /\
               slot_locks (capture_snapshot w sid (s_slot session) score playtime st)
               = slot_locks st).
  { unfold capture_snapshot. destruct (as_real score); auto. }
  set (st1 := capture_snapshot _ _ _ _ _ _) in *.
  assert (H2 : match save_if_requested w (s_slot session) (s_username session)
                       score playtime (rr_save_name request) st1 with
               | Done st2 | Raise st2 =>
                   sessions st2 = sessions st /\ slot_locks st2 = slot_locks st
               end).
  { unfold save_if_requested. destruct (truthy _) as [name|]; [|exact H1].
    pose proof (save_slot_state_locks w (s_slot session)
                  (save_path_of (s_username session) name) st1) as Hsave.
    destruct (save_slot_state _ _ _ _) as [st2|st2];
      [destruct (as_real score)|]; simpl;
      destruct Hsave as [-> ->]; exact H1. }
  destruct (save_if_requested _ _ _ _ _ _ _) as [st2|st2]; [|now left].
  destruct (as_real score) as [sc|]; [|now left].
  right. exists session, sc. simpl. destruct H2 as [-> ->]. auto.
Qed.

Lemma expire_one_locks (w : World) (r : Session) (st : State) :
  match expire_one json_loads w r st with
  | Done st' | Raise st' =>
      (sessions st' = sessions st /\ slot_locks st' = slot_locks st) \/
      exists score,
        sessions st' =
          update_session (session_id r) (terminate Expired (now w) score None)
            (sessions st) /\
        slot_locks st' = delete (s_slot r) (slot_locks st)
  end.
Proof.
  unfold expire_one.
  destruct (session_by_id st (session_id r)) as [row|]; [|now left].
  set (score := sd_score _).
  pose proof (save_slot_state_locks w (s_slot r)
                (save_path_of (s_username r) (autosave_name (now w))) st) as Hsave.
  destruct (save_slot_state _ _ _ _) as [st1|st1];
    destruct (as_real score) as [sc|]; simpl; destruct Hsave as [-> ->];
    try (now left); right; exists sc; auto.
Qed.

Lemma claim_session_locks (w : World) (st : State) (request : ClaimRequest) :
  let st' := fst (claim_session w st request) in
  (sessions st' = sessions st /\
   (slot_locks st' = slot_locks st \/
    exists slot, slot_locks st' = delete slot (slot_locks st))) \/
  exists slot row entry,
    sessions st' = (sessions st ++ [row])%list /\
    is_active row = true /\ s_slot row = slot /\
    slot_locks st' = <[slot := entry]> (slot_locks st).
Proof.
  cbv zeta. unfold claim_session.
  destruct (active_session_of_user _ _); [left; auto|].
  destruct (get_free_slot st) as [slot|]; [|left; auto].
  unfold claim_slot_lock. destruct (lock_held _ _ _); [left; auto|].
  cbn [sessions set_users set_slot_locks].
  destruct (insert_session _ _) as [ss|] eqn:Hins.
  - pose proof (insert_then_delete _ _ _ Hins) as Hdel. simpl in Hdel.
    apply insert_session_Some in Hins.
    destruct (truthy _) as [name|].
    + destruct (bool_decide _); simpl.
      * right. eexists slot, _, _. rewrite Hins. auto.
      * left. split; [exact Hdel|]. right. exists slot. apply delete_insert_eq.
    + simpl. right. eexists slot, _, _. rewrite Hins. auto.
  - left. simpl. split; [reflexivity|]. right. exists slot. apply delete_insert_eq.
Qed.

Lemma locks_follow_same (st st' : State) :
  sessions st' = sessions st -> slot_locks st' = slot_locks st ->
  locks_follow_sessions st -> locks_follow_sessions st'.
Proof. unfold locks_follow_sessions. intros -> ->. auto. Qed.

Lemma locks_follow_ended (st st' : State) (sid : string) (slot0 : nat)
    (f : Session -> Session) :
  (forall s, In s (sessions st) -> session_id s = sid -> s_slot s = slot0) ->
  sessions st' = update_session sid f (sessions st) ->
  slot_locks st' = delete slot0 (slot_locks st) ->
  locks_follow_sessions st -> locks_follow_sessions st'.
Proof.
  intros Hslot Hs Hl Hinv slot entry. rewrite Hl, Hs.
  destruct (decide (slot0 = slot)) as [->|Hne].
  - rewrite lookup_delete_eq. discriminate.
  - rewrite lookup_delete_ne by assumption. intros Hentry.
    destruct (Hinv slot entry Hentry) as [s [Hin [Hact Hon]]].
    exists s. split; [|auto]. apply update_session_other; [assumption|].
    intros Hid. apply Hne. rewrite <- Hon. symmetry. now apply Hslot.
Qed.

Lemma locks_follow_step (st st' : State) :
  well_formed st -> step json_loads st st' ->
  locks_follow_sessions st -> locks_follow_sessions st'.
Proof.
  intros Hwf Hstep Hinv.
  destruct Hstep as [w st request | w st sid request | w st | w st
                    | st sid ws | st sid ws].
  - destruct (claim_session_locks w st request)
      as [[Hs [Hl | [slot Hl]]] | [slot [row [entry [Hs [Hact [Hon Hl]]]]]]].
    + now apply (locks_follow_same st).
    + intros k entry. rewrite Hl, Hs.
      destruct (decide (slot = k)) as [->|Hne].
      * rewrite lookup_delete_eq. discriminate.
      * rewrite lookup_delete_ne by assumption. apply Hinv.
    + intros k e. rewrite Hl, Hs.
      destruct (decide (slot = k)) as [->|Hne].
      * intros _. exists row. split; [apply in_app_iff; right; now left | auto].
      * rewrite lookup_insert_ne by assumption. intros He.
        destruct (Hinv k e He) as [s [Hin H]]. exists s.
        split; [apply in_app_iff; now left | exact H].
  - destruct (release_session_locks w st sid request)
      as [[Hs Hl] | [session [score [Hfound [Hs Hl]]]]].
    + now apply (locks_follow_same st).
    + apply active_session_by_id_In in Hfound as [Hin [Hid _]].
      apply (locks_follow_ended st _ sid (s_slot session) _ ltac:(
               intros s Hs' Hid';
               assert (s = session)
                 by (apply (session_id_unique (sessions st));
                     auto using wf_ids; congruence);
               now subst s) Hs Hl Hinv).
  - unfold session_timeout_checker.
    set (rows := List.filter (is_expired w) (sessions st)).
    apply (for_each_inv
             (fun st0 => locks_follow_sessions st0 /\
                forall r s, In r rows -> In s (sessions st0) ->
                            session_id s = session_id r -> s_slot s = s_slot r)).
    + intros r st0 Hr [Hinv0 Hslots].
      pose proof (expire_one_locks w r st0) as H.
      destruct (expire_one _ _ _ _) as [st1|st1];
        (destruct H as [[Hs Hl] | [score [Hs Hl]]];
         [split; [now apply (locks_follow_same st0) | rewrite Hs; exact Hslots]
         |split;
          [apply (locks_follow_ended st0 _ (session_id r) (s_slot r) _
                    (fun s Hs' Hid => Hslots r s Hr Hs' Hid) Hs Hl Hinv0)
          |intros r' s Hr' Hin' Hid'; rewrite Hs in Hin';
           apply In_update_session in Hin' as [s0 [Hin0 ->]];
           destruct (String.eqb (session_id s0) (session_id r));
           simpl in *; now apply Hslots]]).
    + split; [assumption|]. intros r s Hr Hin Hid.
      apply filter_In in Hr as [Hr _].
      assert (s = r)
        by (apply (session_id_unique (sessions st)); auto using wf_ids).
      now subst s.
  - unfold score_polling_loop.
    apply (for_each_inv locks_follow_sessions); [|assumption].
    intros r st0 _ Hinv0. pose proof (poll_one_sessions json_loads w r st0) as Hs.
    unfold poll_one in *. destruct (as_real _); [|assumption].
    apply (locks_follow_same st0); [exact Hs | | assumption].
    unfold broadcast. simpl. destruct (_ !! _); reflexivity.
  - apply (locks_follow_same st); [| |assumption];
      unfold session_stream_open; destruct (session_by_id _ _) as [s|];
      try destruct (is_active s); reflexivity.
  - apply (locks_follow_same st); [| |assumption];
      unfold session_stream_close; destruct (_ !! _); reflexivity.
Qed.

Lemma locks_follow_reachable (st : State) :
  reachable json_loads st -> locks_follow_sessions st.
Proof.
  induction 1 as [|st st' Hreach IH Hstep].
  - intros slot entry. simpl. rewrite lookup_empty. discriminate.
  - apply (locks_follow_step st); auto. now apply well_formed_reachable.
Qed.

(** X7: handlers running one after the other, a claim is turned away with 503
    only when the pool is full.  In every state the system reaches, the
    first free slot has no lock key, so for a user without an active
    session the answer is 503 exactly when every slot has an active
    session. *)
Theorem claim_unavailable_only_when_full (w : World) (st : State)
    (request : ClaimRequest) :
  reachable json_loads st ->
  active_session_of_user st (normalized request) = None ->
  (snd (claim_session w st request) = inl E503 <-> get_free_slot st = None).
Proof.
  intros Hreach Huser. unfold claim_session. unfold normalized in Huser.
  rewrite Huser. destruct (get_free_slot st) as [slot|] eqn:Hfree.
  - split; [|discriminate]. unfold claim_slot_lock.
    assert (Hlock : lock_held (now w) st slot = false).
    { unfold lock_held. destruct (slot_locks st !! slot) as [entry|] eqn:He;
        [|reflexivity].
      destruct (locks_follow_reachable st Hreach slot entry He)
        as [s [Hin [Hact Hon]]].
      apply get_free_slot_Some in Hfree as [_ [Hfree _]]. exfalso. apply Hfree.
      unfold active_set, active_sessions. apply in_map_iff. exists s.
      split; [assumption|]. apply filter_In. auto. }
    rewrite Hlock. cbn [sessions set_users set_slot_locks].
    destruct (insert_session _ _); [|discriminate].
    destruct (truthy _); [destruct (bool_decide _)|]; discriminate.
  - split; reflexivity.
Qed.

End Tables.

(** * The read-only endpoints *)

Section Answers.

Variable json_loads : string -> option pyval.
Variable STREAM_BASE_URL : string.
Variable STREAM_BASE_PORT : Z.
Variable str_as_float : string -> bool.

Lemma one_active_reachable (st : State) :
  reachable json_loads st -> one_active_per_slot st /\ one_active_per_user st.
Proof.
  induction 1 as [|st st' _ IH Hstep]; [split; constructor|].
  exact (step_keeps json_loads _ _ Hstep IH).
Qed.

Lemma active_set_in_range (st : State) :
  well_formed st -> incl (active_set st) (seq 0 Config.TOTAL_SLOTS).
Proof.
  intros Hwf slot Hin. unfold active_set, active_sessions in Hin.
  apply in_map_iff in Hin as [s [<- Hin]]. apply filter_In in Hin as [Hin _].
  apply in_seq. pose proof (wf_slots st Hwf s Hin). lia.
Qed.

(** X8: in every state the system reaches, the status endpoint counts the
    free slots: the number it reports lies between 0 and the size of the
    pool, adds up with the active sessions it lists to the size of the
    pool, and is 0 exactly when the allocator finds no free slot. *)
Theorem status_counts_free_slots (st : State) :
  reachable json_loads st ->
  let status := get_status STREAM_BASE_URL STREAM_BASE_PORT st in
  (0 <= available_slots status <= Z.of_nat (total_slots status))%Z /\
  (available_slots status + Z.of_nat (length (st_active_sessions status)) =
   Z.of_nat (total_slots status))%Z /\
  (available_slots status = 0%Z <-> get_free_slot st = None).
Proof.
  intros Hreach. cbv zeta. unfold get_status. simpl.
  rewrite length_map.
  pose proof (well_formed_reachable json_loads st Hreach) as Hwf.
  destruct (one_active_reachable st Hreach) as [Hslot _].
  unfold one_active_per_slot in Hslot. fold (active_set st) in Hslot.
  pose proof (active_set_in_range st Hwf) as Hincl.
  pose proof (NoDup_incl_length Hslot Hincl) as Hlen.
  rewrite length_seq in Hlen. unfold active_set in Hlen. rewrite length_map in Hlen.
  split; [lia|]. split; [lia|]. rewrite get_free_slot_None. split.
  - intros Hzero slot Hlt.
    apply (NoDup_length_incl Hslot (l' := seq 0 Config.TOTAL_SLOTS)).
    + rewrite length_seq. unfold active_set. rewrite length_map. lia.
    + exact Hincl.
    + apply in_seq. lia.
  - intros Hall.
    assert (Hge : (length (seq 0 Config.TOTAL_SLOTS) <= length (active_set st))%nat).
    { apply NoDup_incl_length; [apply seq_NoDup|].
      intros slot Hin. apply in_seq in Hin. apply Hall. lia. }
    rewrite length_seq in Hge. unfold active_set in Hge.
    rewrite length_map in Hge. lia.
Qed.


(** ** A claim that goes through *)

Lemma session_by_id_fresh (ss : list Session) (sid : string) :
  ~ In sid (map session_id ss) ->
  List.find (fun s => String.eqb (session_id s) sid) ss = None.
Proof.
  intros Hfresh. destruct (List.find _ ss) as [s|] eqn:Hf; [|reflexivity].
  apply find_some in Hf as [Hin Hid]. apply String.eqb_eq in Hid.
  exfalso. apply Hfresh. rewrite <- Hid. now apply in_map.
Qed.

Lemma find_app_None {A : Type} (p : A -> bool) (l1 l2 : list A) :
  List.find p l1 = None -> List.find p (l1 ++ l2) = List.find p l2.
Proof.
  induction l1 as [|a l1 IH]; simpl; [reflexivity|].
  destruct (p a); [discriminate | exact IH].
Qed.

(** X9: a claim of a user without an active session, in a state where a slot
    is free, its lock can be taken, the new id is not in use and the named
    save (if any) exists, is answered with the new session on the first
    free slot; the lock of the slot is then held in the user's name until
    the time of expiry that the answer gives, and the session endpoint
    shows the session as active on that slot with the same expiry, whenever
    the score it reads from the game is one that its answer can carry. *)
Theorem claim_goes_through (w w' : World) (st : State) (request : ClaimRequest)
    (slot : nat) :
  active_session_of_user st (normalized request) = None ->
  get_free_slot st = Some slot ->
  lock_held (now w) st slot = false ->
  ~ In (uuid8 w) (map session_id (sessions st)) ->
  (forall name, truthy (cr_save_name request) = Some name ->
     save_path_of (normalized request) name ∈ files st) ->
  let r := claim_session w st request in
  let username := normalized request in
  let expiry := (now w + Config.SESSION_TIMEOUT_HOURS * 3600)%Z in
  let task :=
    match truthy (cr_save_name request) with
    | Some name => LoadSaveToSlot slot (save_path_of username name)
    | None => ResetSlot slot
    end in
  snd r = inr (mkClaimResponse (uuid8 w) username slot
                 (Config.BASE_RCON_PORT + Z.of_nat slot)%Z
                 (Config.BASE_UDP_PORT + Z.of_nat slot)%Z expiry task) /\
  sessions (fst r) =
    (sessions st ++
     [mkSession (uuid8 w) username slot (now w) None None Active
        (cr_save_name request) None])%list /\
  slot_locks (fst r) !! slot = Some (username, expiry) /\
  users (fst r) !! username <> None /\
  (float_field str_as_float (sd_score (get_slot_score json_loads w' slot)) = true ->
   get_session json_loads str_as_float w' (fst r) (uuid8 w) =
     inr (mkSessionInfo (uuid8 w) username slot (now w) expiry
            (sd_score (get_slot_score json_loads w' slot)) Active)).
Proof.
  intros Huser Hfree Hlock Hfresh Hsave. cbv zeta.
  assert (Hclaim :
    claim_session w st request =
    (set_sessions
       (fun _ => (sessions st ++
                  [mkSession (uuid8 w) (normalized request) slot (now w) None None
                     Active (cr_save_name request) None])%list)
       (set_users (ensure_user (now w) (normalized request))
          (set_slot_locks
             <[slot := (normalized request,
                        (now w + Config.SESSION_TIMEOUT_HOURS * 3600)%Z)]> st)),
     inr (claim_response w (uuid8 w) (normalized request) slot
            match truthy (cr_save_name request) with
            | Some name => LoadSaveToSlot slot (save_path_of (normalized request) name)
            | None => ResetSlot slot
            end))).
  { unfold claim_session, normalized in *. rewrite Huser, Hfree.
    unfold claim_slot_lock. rewrite Hlock.
    cbn [sessions set_users set_slot_locks].
    rewrite insert_session_fresh.
    - destruct (truthy (cr_save_name request)) as [name|] eqn:Hname;
        [|reflexivity].
      cbn [files set_sessions set_users set_slot_locks].
      rewrite bool_decide_eq_true_2 by (now apply Hsave). reflexivity.
    - intros s Hin Hid. apply Hfresh. simpl in Hid. rewrite <- Hid.
      now apply in_map. }
  rewrite Hclaim. cbn [fst snd]. split; [reflexivity|].
  split; [reflexivity|]. split; [apply lookup_insert_eq|]. split.
  - cbn [users set_sessions set_users set_slot_locks].
    apply ensure_user_dom. now left.
  - intros Hfloat. unfold get_session, session_by_id.
    cbn [sessions set_sessions].
    rewrite find_app_None by (now apply session_by_id_fresh).
    simpl. rewrite String.eqb_refl. simpl. rewrite Hfloat. reflexivity.
Qed.

(** ** After a release *)

Lemma find_update_session (sid sid' : string) (f : Session -> Session)
    (ss : list Session) :
  (forall s, session_id (f s) = session_id s) ->
  List.find (fun s => String.eqb (session_id s) sid') (update_session sid f ss) =
  option_map (fun s => if String.eqb (session_id s) sid then f s else s)
    (List.find (fun s => String.eqb (session_id s) sid') ss).
Proof.
  intros Hf. unfold update_session. induction ss as [|s ss IH]; simpl; [reflexivity|].
  assert (Hid : session_id (if String.eqb (session_id s) sid then f s else s)
                = session_id s)
    by (destruct (String.eqb _ _); [apply Hf | reflexivity]).
  rewrite Hid. destruct (String.eqb (session_id s) sid'); [reflexivity | exact IH].
Qed.

Lemma session_by_id_unique (st : State) (session : Session) :
  List.NoDup (map session_id (sessions st)) ->
  In session (sessions st) ->
  session_by_id st (session_id session) = Some session.
Proof.
  intros Hnd Hin. unfold session_by_id.
  destruct (List.find _ _) as [s|] eqn:Hf.
  - apply find_some in Hf as [Hs Hid]. apply String.eqb_eq in Hid.
    f_equal. now apply (session_id_unique (sessions st)).
  - pose proof (find_none _ _ Hf session Hin) as H. simpl in H.
    rewrite String.eqb_refl in H. discriminate.
Qed.

(** The state after a release that goes through: the row and the
    snapshot. *)
Lemma release_done_state (w : World) (st : State) (sid : string)
    (request : ReleaseRequest) (session : Session) (score : option Z) :
  active_session_by_id st sid = Some session ->
  as_real (sd_score (get_slot_score json_loads w (s_slot session))) = Some score ->
  (forall name, truthy (rr_save_name request) = Some name ->
     save_goes_through w (s_slot session) (save_path_of (s_username session) name)) ->
  let st' := fst (release_session json_loads w st sid request) in
  sessions st' =
    update_session sid
      (terminate Completed (now w) score (Some (rr_save_name request)))
      (sessions st) /\
  exists created,
    session_snapshots st' !! sid =
    Some (mkSnapshot created score (now w - started_at session)
            (get_research w (s_slot session)) (get_production w (s_slot session))
            (get_inventory w (s_slot session))
            (get_factory_data w (s_slot session))).
Proof.
  intros Hs Hscore Hsave. cbv zeta. unfold release_session. rewrite Hs.
  unfold capture_snapshot, save_if_requested. rewrite Hscore.
  set (playtime := (now w - started_at session)%Z).
  set (st1 := set_session_snapshots _ st).
  assert (Hsnap : exists created,
            session_snapshots st1 !! sid =
            Some (mkSnapshot created score playtime
                    (get_research w (s_slot session))
                    (get_production w (s_slot session))
                    (get_inventory w (s_slot session))
                    (get_factory_data w (s_slot session)))).
  { subst st1. simpl. unfold upsert_snapshot.
    destruct (session_snapshots st !! sid); rewrite lookup_insert_eq;
      eexists; reflexivity. }
  destruct (truthy (rr_save_name request)) as [name|] eqn:Hname.
  - destruct (save_slot_state_Done w (s_slot session)
                (save_path_of (s_username session) name) st1 (Hsave name eq_refl))
      as [st' [Hdone [Hu [Hss [Hsv [Hsn [Hlk Hws]]]]]]].
    rewrite Hdone. simpl. rewrite Hss, Hsn. split; [reflexivity | exact Hsnap].
  - simpl. split; [reflexivity | exact Hsnap].
Qed.

(** X10: after a release that goes through, in a state the system reaches,
    the read endpoints show the end of the session: the session endpoint
    reports it completed with the final score (0 when the score is NULL),
    the score endpoint reports that score and no playtime, and the
    inventory, research, production and factory endpoints serve what the
    snapshot queries returned at the moment of the release. *)
Theorem endpoints_after_release (w w' : World) (st : State) (sid : string)
    (request : ReleaseRequest) (session : Session) (score : option Z) :
  reachable json_loads st ->
  active_session_by_id st sid = Some session ->
  as_real (sd_score (get_slot_score json_loads w (s_slot session))) = Some score ->
  (forall name, truthy (rr_save_name request) = Some name ->
     save_goes_through w (s_slot session) (save_path_of (s_username session) name)) ->
  let st' := fst (release_session json_loads w st sid request) in
  get_session json_loads str_as_float w' st' sid =
    inr (mkSessionInfo sid (s_username session) (s_slot session)
           (started_at session)
           (started_at session + Config.SESSION_TIMEOUT_HOURS * 3600)%Z
           (PInt (default 0%Z score)) Completed) /\
  get_session_score w' st' sid =
    inr (mkScoreReport sid (s_username session) Completed (default 0%Z score) 0
           (playtime_formatted 0)) /\
  get_session_inventory json_loads w' st' sid =
    inr (Stored (get_inventory w (s_slot session))) /\
  get_session_research w' st' sid =
    inr (Stored (get_research w (s_slot session))) /\
  get_session_production w' st' sid =
    inr (Stored (get_production w (s_slot session))) /\
  get_session_factory json_loads w' st' sid 50 =
    inr (Stored (get_factory_data w (s_slot session))).
Proof.
  intros Hreach Hs Hscore Hsave. cbv zeta.
  destruct (release_done_state w st sid request session score Hs Hscore Hsave)
    as [Hsessions [created Hsnap]].
  pose proof (well_formed_reachable json_loads st Hreach) as Hwf.
  apply active_session_by_id_In in Hs as [Hin [Hid Hact]].
  assert (Hrow : session_by_id (fst (release_session json_loads w st sid request)) sid
                 = Some (terminate Completed (now w) score
                           (Some (rr_save_name request)) session)).
  { unfold session_by_id. rewrite Hsessions, find_update_session by reflexivity.
    fold (session_by_id st sid). rewrite <- Hid at 1.
    rewrite (session_by_id_unique st session (wf_ids st Hwf) Hin). simpl.
    rewrite Hid, String.eqb_refl. reflexivity. }
  unfold get_session, get_session_score, get_session_inventory,
    get_session_research, get_session_production, get_session_factory, serve.
  rewrite Hrow, Hsnap. simpl. rewrite Hid. repeat split.
Qed.


(** ** Saved games stay *)

Lemma save_slot_state_files (w : World) (slot : nat) (path : string) (st : State) :
  match save_slot_state w slot path st with
  | Done st' | Raise st' => files st ⊆ files st'
  end.
Proof.
  clear json_loads STREAM_BASE_URL STREAM_BASE_PORT str_as_float.
  unfold save_slot_state.
  destruct (negb _); [done|].
  destruct (rcon _ _ _); [done|].
  destruct (fle_copy _ _); simpl; set_solver.
Qed.

Lemma claim_session_files (w : World) (st : State) (request : ClaimRequest) :
  files (fst (claim_session w st request)) = files st.
Proof.
  unfold claim_session.
  destruct (active_session_of_user _ _); [reflexivity|].
  destruct (get_free_slot st); [|reflexivity].
  unfold claim_slot_lock. destruct (lock_held _ _ _); [reflexivity|].
  destruct (insert_session _ _); [|reflexivity].
  destruct (truthy _); [destruct (bool_decide _)|]; reflexivity.
Qed.

Lemma release_session_files (w : World) (st : State) (sid : string)
    (request : ReleaseRequest) :
  files st ⊆ files (fst (release_session json_loads w st sid request)).
Proof.
  unfold release_session.
  destruct (active_session_by_id st sid) as [session|]; [|done].
  set (score := sd_score _). set (playtime := (now w - _)%Z).
  assert (H1 : files (capture_snapshot w sid (s_slot session) score playtime st)
               = files st)
    by (unfold capture_snapshot; destruct (as_real score); reflexivity).
  set (st1 := capture_snapshot _ _ _ _ _ _) in *.
  unfold save_if_requested. destruct (truthy _) as [name|].
  - pose proof (save_slot_state_files w (s_slot session)
                  (save_path_of (s_username session) name) st1) as Hsave.
    rewrite H1 in Hsave.
    destruct (save_slot_state _ _ _ _) as [st2|st2];
      destruct (as_real score); simpl; exact Hsave.
  - destruct (as_real score); simpl; rewrite H1; done.
Qed.

Lemma expire_one_files (w : World) (r : Session) (st : State) :
  match expire_one json_loads w r st with
  | Done st' | Raise st' => files st ⊆ files st'
  end.
Proof.
  unfold expire_one.
  destruct (session_by_id st (session_id r)); [|done].
  pose proof (save_slot_state_files w (s_slot r)
                (save_path_of (s_username r) (autosave_name (now w))) st) as Hsave.
  destruct (save_slot_state _ _ _ _) as [st1|st1];
    destruct (as_real _); simpl; exact Hsave.
Qed.

Lemma step_files (st st' : State) (path : string) :
  step json_loads st st' -> path ∈ files st -> path ∈ files st'.
Proof.
  intros Hstep Hin.
  destruct Hstep as [w st request | w st sid request | w st | w st
                    | st sid ws | st sid ws].
  - now rewrite claim_session_files.
  - now apply release_session_files.
  - unfold session_timeout_checker.
    apply (for_each_inv (fun st0 => path ∈ files st0)); [|assumption].
    intros r st0 _ Hin0. pose proof (expire_one_files w r st0) as H.
    destruct (expire_one _ _ _ _); now apply H.
  - unfold score_polling_loop.
    apply (for_each_inv (fun st0 => path ∈ files st0)); [|assumption].
    intros r st0 _ Hin0. unfold poll_one. destruct (as_real _); [|assumption].
    unfold broadcast. simpl. destruct (_ !! _); assumption.
  - unfold session_stream_open. destruct (session_by_id _ _) as [s|];
      [destruct (is_active s)|]; assumption.
  - unfold session_stream_close. destruct (_ !! _); assumption.
Qed.

Lemma release_copies_file (w : World) (st st1 : State) (sid name : string)
    (request : ReleaseRequest) (session : Session) (resp : ReleaseResponse) :
  active_session_by_id st sid = Some session ->
  truthy (rr_save_name request) = Some name ->
  fle_copy w (s_slot session) = Copied ->
  release_session json_loads w st sid request = (st1, inr resp) ->
  save_path_of (s_username session) name ∈ files st1.
Proof.
  clear STREAM_BASE_URL STREAM_BASE_PORT str_as_float.
  intros Hs Hname Hcopy. unfold release_session. rewrite Hs.
  unfold save_if_requested. rewrite Hname. unfold save_slot_state.
  destruct (negb _); [discriminate|].
  destruct (rcon _ _ _); [discriminate|]. rewrite Hcopy.
  destruct (as_real _); [|discriminate].
  intros [= <- _]. simpl. set_solver.
Qed.

(** X11: a game saved at release can be claimed again.  After a release
    that saved the game under a name and whose file was copied, the file
    stays whatever happens next, and no later claim of that user naming
    that save is answered with 404. *)
Theorem saved_game_can_be_claimed (w w2 : World) (st st1 st2 : State)
    (sid name : string) (request : ReleaseRequest) (session : Session)
    (resp : ReleaseResponse) (again : ClaimRequest) :
  active_session_by_id st sid = Some session ->
  truthy (rr_save_name request) = Some name ->
  fle_copy w (s_slot session) = Copied ->
  release_session json_loads w st sid request = (st1, inr resp) ->
  rtc (step json_loads) st1 st2 ->
  normalized again = s_username session ->
  truthy (cr_save_name again) = Some name ->
  save_path_of (s_username session) name ∈ files st2 /\
  snd (claim_session w2 st2 again) <> inl E404.
Proof.
  intros Hs Hname Hcopy Hrel Hsteps Huser Hagain.
  assert (Hfile : save_path_of (s_username session) name ∈ files st2).
  { pose proof (release_copies_file w st st1 sid name request session resp
                  Hs Hname Hcopy Hrel) as H1.
    clear Hrel. induction Hsteps as [|a b c Hstep _ IH]; [assumption|].
    apply IH. now apply (step_files a). }
  split; [exact Hfile|].
  unfold claim_session. unfold normalized in Huser. rewrite Huser.
  destruct (active_session_of_user _ _); [discriminate|].
  destruct (get_free_slot st2); [|discriminate].
  unfold claim_slot_lock. destruct (lock_held _ _ _); [discriminate|].
  cbn [sessions set_users set_slot_locks].
  destruct (insert_session _ _); [|discriminate].
  rewrite Hagain. cbn [files set_sessions set_users set_slot_locks].
  rewrite bool_decide_eq_true_2 by assumption. discriminate.
Qed.


(** ** Subscribers *)

Lemma list_remove_last (ws : nat) (l : list nat) :
  ~ In ws l -> list_remove ws (l ++ [ws]) = l.
Proof.
  clear json_loads STREAM_BASE_URL STREAM_BASE_PORT str_as_float.
  induction l as [|x l IH]; simpl; intros Hnin.
  - now rewrite Nat.eqb_refl.
  - destruct (Nat.eqb x ws) eqn:He.
    + apply Nat.eqb_eq in He. tauto.
    + rewrite IH; [reflexivity | tauto].
Qed.

Lemma session_by_id_active (st : State) (sid : string) (session : Session) :
  session_by_id st sid = Some session -> is_active session = true ->
  In session (active_sessions st) /\ session_id session = sid.
Proof.
  intros Hs Hact. apply find_some in Hs as [Hin Hid].
  apply String.eqb_eq in Hid. split; [|assumption].
  apply filter_In. auto.
Qed.

(** X12: an observer that opens the stream of an active session is
    subscribed, and the next polling tick in which the scores can be stored
    and the observer can be reached sends it the score of that session;
    when it was not subscribed before, closing the stream leaves the
    subscribers of the session as they were before it came.  The stream of
    a session that is unknown or ended is refused and changes nothing. *)
Theorem subscriber_gets_updates (st : State) (sid : string) (ws : nat) :
  let opened := session_stream_open st sid ws in
  (forall session,
     session_by_id st sid = Some session -> is_active session = true ->
     snd opened = true /\
     (forall w,
        (forall r, In r (active_sessions st) -> numeric_score json_loads w r) ->
        ws_send_ok w ws = true ->
        In (ws, mkScoreUpdate (sd_score (get_slot_score json_loads w (s_slot session)))
                  (now w))
           (delivered (score_polling_loop json_loads w (fst opened)))) /\
     (~ In ws (default [] (active_websockets st !! sid)) ->
      active_websockets (session_stream_close (fst opened) sid ws) !! sid =
      Some (default [] (active_websockets st !! sid)))) /\
  ((session_by_id st sid = None \/
    exists session, session_by_id st sid = Some session /\
                    is_active session = false) ->
   opened = (st, false)).
Proof.
  cbv zeta. split.
  - intros session Hs Hact. unfold session_stream_open. rewrite Hs, Hact.
    cbn [fst snd]. split; [reflexivity|]. split.
    + intros w Hnum Hok.
      set (st1 := set_active_websockets _ st).
      destruct (poll_all_numeric json_loads w (active_sessions st1) st1)
        as [_ [Hd _]]; [exact Hnum|].
      unfold score_polling_loop. rewrite Hd. apply in_app_iff. right.
      apply in_flat_map. exists session.
      destruct (session_by_id_active st sid session Hs Hact) as [Hin Hid].
      split; [exact Hin|].
      unfold deliveries_of. apply in_map_iff. exists ws. split; [reflexivity|].
      apply filter_In. split; [|exact Hok].
      subst st1. cbn [active_websockets set_active_websockets].
      rewrite Hid, lookup_insert_eq. simpl. apply in_app_iff. right. now left.
    + intros Hnew. unfold session_stream_close.
      cbn [active_websockets set_active_websockets].
      rewrite lookup_insert_eq. cbn [active_websockets set_active_websockets].
      rewrite lookup_insert_eq. f_equal. now apply list_remove_last.
  - intros [Hnone | [session [Hs Hact]]]; unfold session_stream_open.
    + now rewrite Hnone.
    + now rewrite Hs, Hact.
Qed.

(** ** What only grows *)

Lemma users_grow_refl (us : gmap string User) : users_grow us us.
Proof. intros name u Hu. exists u. split; [assumption|]. split; [lia | reflexivity]. Qed.

Lemma users_grow_trans (us1 us2 us3 : gmap string User) :
  users_grow us1 us2 -> users_grow us2 us3 -> users_grow us1 us3.
Proof.
  intros H12 H23 name u Hu.
  destruct (H12 name u Hu) as [u2 [Hu2 [Hb2 Hc2]]].
  destruct (H23 name u2 Hu2) as [u3 [Hu3 [Hb3 Hc3]]].
  exists u3. split; [assumption|]. split; [lia | congruence].
Qed.

Lemma users_grow_ensure (t : Z) (username : string) (us : gmap string User) :
  users_grow us (ensure_user t username us).
Proof.
  intros name u Hu. unfold ensure_user. destruct (us !! username) eqn:Hn.
  - exists u. split; [assumption|]. split; [lia | reflexivity].
  - exists u. split; [|split; [lia | reflexivity]].
    rewrite lookup_insert_ne; [assumption|]. intros ->. congruence.
Qed.

Lemma users_grow_stats (score : option Z) (playtime : Z) (username : string)
    (us : gmap string User) :
  users_grow us (update_user_stats score playtime username us).
Proof.
  intros name u Hu. unfold update_user_stats. rewrite lookup_alter.
  destruct (decide (username = name)) as [->|Hne].
  - rewrite Hu. simpl. eexists. split; [reflexivity|]. simpl.
    split; [destruct score; simpl; lia | reflexivity].
  - exists u. split; [assumption|]. split; [lia | reflexivity].
Qed.

Lemma session_ended_users (w : World) (st st' : State) (sid username : string)
    (how : session_status) :
  session_ended w st st' sid username how -> users_grow (users st) (users st').
Proof.
  intros [score [created [playtime [_ [_ [-> _]]]]]]. apply users_grow_stats.
Qed.

Lemma step_history (st st' : State) :
  step json_loads st st' ->
  exists more, score_history st' = (score_history st ++ more)%list.
Proof.
  intros Hstep.
  destruct Hstep as [w st request | w st sid request | w st | w st
                    | st sid ws | st sid ws].
  - exists []. rewrite app_nil_r. unfold claim_session, claim_slot_lock.
    repeat case_match; simplify_eq; reflexivity.
  - exists []. rewrite app_nil_r.
    unfold release_session, save_if_requested, capture_snapshot, save_slot_state.
    repeat case_match; simplify_eq; reflexivity.
  - exists []. rewrite app_nil_r. unfold session_timeout_checker.
    apply (for_each_keeps score_history). intros r st0.
    unfold expire_one, save_slot_state. repeat case_match; simplify_eq; reflexivity.
  - unfold score_polling_loop.
    apply (for_each_inv
             (fun st0 => exists more,
                score_history st0 = (score_history st ++ more)%list)).
    + intros r st0 _ [more Hmore]. unfold poll_one.
      destruct (as_real _); [|now exists more].
      exists (more ++ [mkScoreSample (s_username r) (session_id r) (now w) o
                         (sd_items (get_slot_score json_loads w (s_slot r)))])%list.
      unfold broadcast. simpl. destruct (_ !! _); simpl;
        rewrite Hmore, app_assoc; reflexivity.
    + exists []. now rewrite app_nil_r.
  - exists []. rewrite app_nil_r. unfold session_stream_open.
    repeat case_match; reflexivity.
  - exists []. rewrite app_nil_r. unfold session_stream_close.
    repeat case_match; reflexivity.
Qed.

Lemma step_users (st st' : State) :
  step json_loads st st' -> users_grow (users st) (users st').
Proof.
  intros Hstep.
  destruct Hstep as [w st request | w st sid request | w st | w st
                    | st sid ws | st sid ws].
  - destruct (claim_session_shape w st request) as [_ [[-> | ->] _]].
    + apply users_grow_refl.
    + apply users_grow_ensure.
  - destruct (release_session_shape json_loads w st sid request)
      as [[_ [-> _]] | [session [_ H]]].
    + apply users_grow_refl.
    + now apply (session_ended_users w st _ sid (s_username session) Completed).
  - unfold session_timeout_checker.
    apply (for_each_inv (fun st0 => users_grow (users st) (users st0)));
      [|apply users_grow_refl].
    intros r st0 _ Hgrow. pose proof (expire_one_shape json_loads w r st0) as H.
    destruct (expire_one _ _ _ _) as [st1|st1];
      (destruct H as [[_ [-> _]] | H]; [assumption|];
       apply (users_grow_trans _ (users st0)); [assumption|];
       now apply (session_ended_users w st0 _ (session_id r) (s_username r) Expired)).
  - unfold score_polling_loop.
    apply (for_each_inv (fun st0 => users_grow (users st) (users st0)));
      [|apply users_grow_refl].
    intros r st0 _ Hgrow. pose proof (poll_one_tables json_loads w r st0) as H.
    destruct (poll_one _ _ _ _); destruct H as [_ [-> _]]; assumption.
  - unfold session_stream_open. repeat case_match; apply users_grow_refl.
  - unfold session_stream_close. repeat case_match; apply users_grow_refl.
Qed.

(** X13: the score history is append-only and the records of the users only
    grow.  Whatever operation runs, the samples written so far stay as
    they are, in their order, and new ones come after them; no user row
    goes away, no best score goes down and no creation time changes. *)
Theorem history_and_users_only_grow (st st' : State) :
  rtc (step json_loads) st st' ->
  (exists more, score_history st' = (score_history st ++ more)%list) /\
  users_grow (users st) (users st').
Proof.
  induction 1 as [st|st1 st2 st3 Hstep _ [[more2 Hh] Hu]].
  - split; [exists []; now rewrite app_nil_r | apply users_grow_refl].
  - destruct (step_history st1 st2 Hstep) as [more1 Hh1]. split.
    + exists (more1 ++ more2)%list. now rewrite Hh, Hh1, app_assoc.
    + apply (users_grow_trans _ (users st2)); [now apply step_users | exact Hu].
Qed.

End Answers.

(** * The replies of the game *)

Section Replies.

Variable json_loads : string -> option pyval.

(** ** Factory summary *)

Lemma bump_sum (name : string) (counts : list (string * nat)) :
  list_sum (map snd (bump name counts)) = S (list_sum (map snd counts)).
Proof.
  induction counts as [|[k n] counts IH]; simpl; [reflexivity|].
  destruct (String.eqb k name); simpl; [reflexivity | rewrite IH; lia].
Qed.

Lemma bump_keys (name k : string) (counts : list (string * nat)) :
  In k (map fst (bump name counts)) <-> k = name \/ In k (map fst counts).
Proof.
  induction counts as [|[k' n] counts IH]; simpl; [intuition congruence|].
  destruct (String.eqb k' name) eqn:He; simpl.
  - apply String.eqb_eq in He. subst. intuition congruence.
  - rewrite IH. tauto.
Qed.

Lemma bump_NoDup (name : string) (counts : list (string * nat)) :
  List.NoDup (map fst counts) -> List.NoDup (map fst (bump name counts)).
Proof.
  induction counts as [|[k n] counts IH]; simpl; intros Hnd.
  - constructor; [tauto | constructor].
  - apply List.NoDup_cons_iff in Hnd as [Hk Hnd].
    destruct (String.eqb k name) eqn:He; simpl.
    + now constructor.
    + constructor; [|now apply IH]. rewrite bump_keys.
      apply String.eqb_neq in He. tauto.
Qed.

Lemma bump_positive (name : string) (counts : list (string * nat)) :
  (forall k n, In (k, n) counts -> (0 < n)%nat) ->
  forall k n, In (k, n) (bump name counts) -> (0 < n)%nat.
Proof.
  induction counts as [|[k' n'] counts IH]; simpl; intros Hpos k n.
  - intros [[= <- <-] | []]. lia.
  - destruct (String.eqb k' name); simpl.
    + intros [[= <- <-] | Hin]; [lia | eauto].
    + intros [[= <- <-] | Hin]; [eauto|].
      apply (IH (fun k0 n0 H => Hpos k0 n0 (or_intror H)) k n Hin).
Qed.

Lemma bump_count_for (name k : string) (counts : list (string * nat)) :
  count_for k (bump name counts) =
  (count_for k counts + if String.eqb name k then 1 else 0)%nat.
Proof.
  induction counts as [|[k' n] counts IH]; simpl.
  - destruct (String.eqb name k); reflexivity.
  - destruct (String.eqb k' name) eqn:He; simpl.
    + apply String.eqb_eq in He. subst k'.
      destruct (String.eqb name k); lia.
    + destruct (String.eqb k' k) eqn:Hk; [|exact IH].
      apply String.eqb_eq in Hk. subst k'. rewrite String.eqb_sym, He. lia.
Qed.

Lemma count_entities_spec (es : list pyval) :
  forall counts counts',
    count_entities es counts = Some counts' ->
    list_sum (map snd counts') = (list_sum (map snd counts) + length es)%nat /\
    (List.NoDup (map fst counts) -> List.NoDup (map fst counts')) /\
    ((forall k n, In (k, n) counts -> (0 < n)%nat) ->
     forall k n, In (k, n) counts' -> (0 < n)%nat) /\
    (forall k, count_for k counts' =
               (count_for k counts + length (named k es))%nat) /\
    (forall e, In e es -> entity_name e <> None).
Proof.
  induction es as [|e es IH]; intros counts counts';
    cbn [count_entities length].
  - intros [= <-]. cbn. repeat split; auto; try lia; intros e [].
  - destruct (entity_name e) as [name|] eqn:Hname; [|discriminate].
    intros Hrest. destruct (IH _ _ Hrest) as [Hsum [Hnd [Hpos [Hcount Hall]]]].
    split; [rewrite Hsum, bump_sum; lia|].
    split; [intros H; now apply Hnd, bump_NoDup|].
    split; [intros H; apply Hpos; now apply bump_positive|].
    split.
    + intros k. rewrite Hcount, bump_count_for. unfold named.
      cbn [List.filter]. rewrite Hname.
      destruct (String.eqb name k); cbn [length]; lia.
    + intros e' [<- | Hin]; [congruence | now apply Hall].
Qed.

(** A reply that the factory summary accepts: what was parsed and the
    entities that were counted. *)
Lemma factory_of_reply_data (r : rcon_result) (total : nat)
    (counts : list (string * nat)) (water : bool) :
  factory_of_reply json_loads r = FactoryData total counts water ->
  exists response d es,
    r = RconReply response /\ response <> "" /\
    str_contains "Error" response = false /\
    json_loads response = Some (PDict d) /\
    py_iter (default (PList []) (dict_get "entities" d)) = Some es /\
    count_entities es [] = Some counts /\
    py_len_opt (default (PList []) (dict_get "entities" d)) = Some total.
Proof.
  unfold factory_of_reply. destruct r as [|response]; [discriminate|].
  destruct (String.eqb response "") eqn:Hempty; [discriminate|].
  destruct (str_contains "Error" response) eqn:Herr; [discriminate|].
  destruct (json_loads response) as [data|] eqn:Hj; [|discriminate].
  unfold factory_of_data. destruct data as [| | | | |d]; try discriminate.
  intros H. exists response, d.
  apply String.eqb_neq in Hempty.
  destruct (dict_get "entities" d) as [entities|] eqn:Hent; simpl in *.
  - destruct (py_iter entities) as [es|] eqn:Hiter; [|discriminate].
    destruct (count_entities es []) as [cs|] eqn:Hcount; [|discriminate].
    destruct (py_len_opt entities) as [n|] eqn:Hlen; [|discriminate].
    exists es.
    destruct (dict_get "water_runs" d) as [v|];
      [destruct (py_len_opt v); [|discriminate]|];
      injection H as <- <- _; auto 10.
  - exists [].
    destruct (dict_get "water_runs" d) as [v|];
      [destruct (py_len_opt v); [|discriminate]|];
      injection H as <- <- _; auto 10.
Qed.

Lemma py_iter_length (v : pyval) (es : list pyval) (n : nat) :
  py_iter v = Some es -> py_len_opt v = Some n -> length es = n.
Proof.
  destruct v; simpl; try discriminate; intros [= <-] [= <-].
  - unfold chars_of. rewrite length_map. clear. induction s; simpl; congruence.
  - reflexivity.
  - apply length_map.
Qed.

(** X14: whenever the factory summary is not an error, its counts add up: the
    counts per name sum to the number of entities it reports, no name
    appears twice, no count is 0, and the count under a name is the number
    of entities of the reply that carry that name (quotes stripped). *)
Theorem factory_counts_add_up (r : rcon_result) (total : nat)
    (counts : list (string * nat)) (water : bool) :
  factory_of_reply json_loads r = FactoryData total counts water ->
  list_sum (map snd counts) = total /\
  List.NoDup (map fst counts) /\
  (forall name n, In (name, n) counts -> (0 < n)%nat) /\
  (forall response d es,
     r = RconReply response -> json_loads response = Some (PDict d) ->
     dict_get "entities" d = Some (PList es) ->
     forall name, count_for name counts = length (named name es)).
Proof.
  intros H.
  destruct (factory_of_reply_data r total counts water H)
    as [response [d [es [Hr [Hne [Herr [Hj [Hiter [Hcount Hlen]]]]]]]]].
  destruct (count_entities_spec es [] counts Hcount)
    as [Hsum [Hnd [Hpos [Hfor _]]]].
  split; [rewrite Hsum; simpl; now apply (py_iter_length _ _ _ Hiter)|].
  split; [apply Hnd; constructor|].
  split; [apply Hpos; intros k n []|].
  intros response' d' es' Hr' Hj' Hent name.
  rewrite Hr in Hr'. injection Hr' as <-. rewrite Hj in Hj'. injection Hj' as <-.
  rewrite Hent in Hiter. simpl in Hiter. injection Hiter as <-.
  rewrite Hfor. reflexivity.
Qed.

(** ** Factory summary and entity list *)

Lemma clean_one_entity_name (e : pyval) :
  clean_one e <> None <-> entity_name e <> None.
Proof.
  unfold clean_one, entity_name. destruct e; try tauto.
  destruct (default _ _); split; congruence.
Qed.

Lemma clean_one_name (e : pyval) (c : clean_entity) :
  clean_one e = Some c -> entity_name e = Some (ce_name c).
Proof.
  unfold clean_one, entity_name. destruct e; try discriminate.
  destruct (default _ _); try discriminate. now intros [= <-].
Qed.

Lemma clean_all_total (l : list pyval) :
  (forall e, In e l -> entity_name e <> None) ->
  exists cs, clean_all l = Some cs.
Proof.
  induction l as [|e l IH]; simpl; intros Hall; [now eexists|].
  destruct (clean_one e) as [c|] eqn:Hc.
  - destruct IH as [cs ->]; [intros e' He'; apply Hall; now right|]. now eexists.
  - exfalso. apply (proj2 (clean_one_entity_name e)); [|exact Hc].
    apply Hall. now left.
Qed.

Lemma In_take {A : Type} (n : nat) (l : list A) (x : A) :
  In x (take n l) -> In x l.
Proof.
  revert l. induction n as [|n IH]; intros [|y l]; simpl; try tauto.
  intros [-> | H]; [now left | right; now apply IH].
Qed.

Lemma clean_all_In (l : list pyval) (cs : list clean_entity) (c : clean_entity) :
  clean_all l = Some cs -> In c cs -> exists e, In e l /\ clean_one e = Some c.
Proof.
  revert cs. induction l as [|e l IH]; simpl; intros cs.
  - intros [= <-] [].
  - destruct (clean_one e) as [c'|] eqn:Hc; [|discriminate].
    destruct (clean_all l) as [cs'|]; [|discriminate].
    intros [= <-] [<- | Hin]; [now exists e; auto|].
    destruct (IH cs' eq_refl Hin) as [e' [He' Hc']]. exists e'. auto.
Qed.

Lemma named_In (name : string) (es : list pyval) (e : pyval) :
  In e es -> entity_name e = Some name -> (0 < length (named name es))%nat.
Proof.
  intros Hin Hname.
  assert (H : In e (named name es)).
  { unfold named. apply filter_In. split; [assumption|].
    rewrite Hname. apply String.eqb_refl. }
  destruct (named name es); [destruct H | simpl; lia].
Qed.

(** X15: the factory summary and the entity list read the same reply alike.
    Whenever the factory summary of a reply is not an error, the entity
    list of the same reply reports the same total, lists the first 200 of
    them (all of them when there are fewer), and every entity it lists is
    counted under its name in the summary. *)
Theorem factory_agrees_with_entities (r : rcon_result) (total : nat)
    (counts : list (string * nat)) (water : bool) :
  factory_of_reply json_loads r = FactoryData total counts water ->
  er_total (entities_of_reply json_loads r) = total /\
  length (er_entities (entities_of_reply json_loads r)) = Nat.min 200 total /\
  forall c, In c (er_entities (entities_of_reply json_loads r)) ->
            (0 < count_for (ce_name c) counts)%nat.
Proof.
  intros H.
  destruct (factory_of_reply_data r total counts water H)
    as [response [d [es [-> [Hne [Herr [Hj [Hiter [Hcount Hlen]]]]]]]]].
  destruct (count_entities_spec es [] counts Hcount) as [_ [_ [_ [Hfor Hall]]]].
  unfold entities_of_reply.
  apply String.eqb_neq in Hne. rewrite Hne, Herr, Hj. simpl.
  destruct (default (PList []) (dict_get "entities" d)) as [| | |s|l|d'] eqn:Hent;
    simpl in Hiter, Hlen; try discriminate.
  - injection Hiter as <-. injection Hlen as <-.
    destruct s as [|a s].
    + simpl. repeat split. intros c [].
    + exfalso. apply (Hall (PStr (String a EmptyString))); [now left | reflexivity].
  - injection Hiter as <-. injection Hlen as <-. simpl.
    destruct (clean_all_total (take 200 l)) as [cs Hcs].
    { intros e He. apply Hall. now apply In_take in He. }
    rewrite Hcs. simpl. split; [reflexivity|]. split.
    + rewrite (clean_all_length _ _ Hcs), length_take. reflexivity.
    + intros c Hc.
      destruct (clean_all_In _ _ c Hcs Hc) as [e [He Hclean]].
      apply clean_one_name in Hclean. rewrite Hfor. simpl.
      apply (named_In _ _ e); [|assumption]. now apply In_take in He.
  - injection Hiter as <-. injection Hlen as <-.
    destruct d' as [|[k v] d'].
    + simpl. repeat split. intros c [].
    + exfalso. apply (Hall (PStr k)); [now left | reflexivity].
Qed.

(** ** Production *)

Lemma dict_get_None (k : string) (d : list (string * pyval)) :
  ~ In k (map fst d) -> dict_get k d = None.
Proof.
  induction d as [|[k' v] d IH]; simpl; [reflexivity|]. intros Hnot.
  destruct (String.eqb k k') eqn:He.
  - apply String.eqb_eq in He. exfalso. apply Hnot. left. congruence.
  - apply IH. tauto.
Qed.

Lemma net_step_spec (produced consumed : list (string * pyval)) (item : string)
    (net net' : gmap string Z) :
  net_step produced consumed item net = Some net' ->
  let d := (count_of produced item - count_of consumed item)%Z in
  net' = if (d =? 0)%Z then net else <[item := d]> net.
Proof.
  unfold net_step, count_of.
  destruct (py_num (default (PInt 0) (dict_get item produced))) as [p|];
    [|discriminate].
  destruct (py_num (default (PInt 0) (dict_get item consumed))) as [c|];
    [|discriminate].
  simpl. destruct (p - c =? 0)%Z; now intros [= <-].
Qed.

(** Every entry of the result is a difference that is not 0. *)
Lemma net_loop_sound (produced consumed : list (string * pyval))
    (items : list string) :
  forall net net',
    net_loop produced consumed items net = Some net' ->
    (forall i z, net !! i = Some z ->
       z = (count_of produced i - count_of consumed i)%Z /\ z <> 0%Z) ->
    forall i z, net' !! i = Some z ->
       z = (count_of produced i - count_of consumed i)%Z /\ z <> 0%Z.
Proof.
  induction items as [|item items IH]; simpl; intros net net'.
  - intros [= <-]. auto.
  - destruct (net_step produced consumed item net) as [net1|] eqn:Hstep;
      [|discriminate].
    intros Hloop Hnet. apply (IH net1 net' Hloop).
    apply net_step_spec in Hstep. cbv zeta in Hstep.
    destruct (_ =? 0)%Z eqn:Hd; subst net1; [exact Hnet|].
    intros i z. destruct (decide (i = item)) as [->|Hne].
    + rewrite lookup_insert_eq. intros [= <-]. split; [reflexivity|].
      now apply Z.eqb_neq.
    + rewrite lookup_insert_ne by congruence. apply Hnet.
Qed.

(** Every item the loop visits whose difference is not 0 has an entry, and
    no entry goes away. *)
Lemma net_loop_complete (produced consumed : list (string * pyval))
    (items : list string) :
  forall net net',
    net_loop produced consumed items net = Some net' ->
    forall i, In i items \/ net !! i <> None ->
      (count_of produced i - count_of consumed i)%Z <> 0%Z ->
      net' !! i <> None.
Proof.
  induction items as [|item items IH]; simpl; intros net net'.
  - intros [= <-] i [[] | H] _. exact H.
  - destruct (net_step produced consumed item net) as [net1|] eqn:Hstep;
      [|discriminate].
    intros Hloop i Hi Hd. apply (IH net1 net' Hloop i); [|exact Hd].
    apply net_step_spec in Hstep. cbv zeta in Hstep.
    destruct Hi as [[-> | Hin] | Hnet].
    + right. apply Z.eqb_neq in Hd. rewrite Hd in Hstep. subst net1.
      rewrite lookup_insert_eq. discriminate.
    + now left.
    + right. destruct (_ =? 0)%Z; subst net1; [exact Hnet|].
      destruct (decide (i = item)) as [->|Hne].
      * rewrite lookup_insert_eq. discriminate.
      * now rewrite lookup_insert_ne by congruence.
Qed.

(** X16: whenever the production query is not an error, the net production
    it reports is the difference of what it reports as produced and as
    consumed: an item has an entry exactly when the counts differ (a count
    that is missing is 0), and the entry is produced minus consumed.  The
    order in which the items are visited does not matter. *)
Theorem production_net_is_difference (p c : rcon_result)
    (produced consumed : list (string * pyval)) (net : gmap string Z) :
  production_of_replies json_loads p c = ProductionData produced consumed net ->
  forall item,
    net !! item =
      if (count_of produced item - count_of consumed item =? 0)%Z then None
      else Some (count_of produced item - count_of consumed item)%Z.
Proof.
  unfold production_of_replies.
  destruct p as [|pr]; [discriminate|]. destruct c as [|cr]; [discriminate|].
  destruct (production_counts json_loads pr) as [| | | | |pd]; try discriminate.
  destruct (production_counts json_loads cr) as [| | | | |cd]; try discriminate.
  destruct (net_loop pd cd (map fst pd ++ map fst cd)%list ∅) as [n|] eqn:Hloop;
    [|discriminate].
  intros [= <- <- <-] item.
  pose proof (net_loop_sound pd cd _ ∅ n Hloop) as Hsound.
  pose proof (net_loop_complete pd cd _ ∅ n Hloop item) as Hcomplete.
  destruct (count_of pd item - count_of cd item =? 0)%Z eqn:Hd.
  - apply Z.eqb_eq in Hd. destruct (n !! item) as [z|] eqn:Hz; [|reflexivity].
    destruct (Hsound ltac:(intros i z0; rewrite lookup_empty; discriminate)
                item z Hz) as [-> Hne].
    contradiction.
  - apply Z.eqb_neq in Hd. destruct (n !! item) as [z|] eqn:Hz.
    + destruct (Hsound ltac:(intros i z0; rewrite lookup_empty; discriminate)
                  item z Hz) as [-> _].
      reflexivity.
    + exfalso. apply Hcomplete; [|exact Hd | reflexivity].
      left. apply in_or_app.
      destruct (in_dec string_dec item (map fst pd)) as [Hp|Hp]; [now left|].
      destruct (in_dec string_dec item (map fst cd)) as [Hc|Hc]; [now right|].
      exfalso. apply Hd. unfold count_of.
      rewrite (dict_get_None _ _ Hp), (dict_get_None _ _ Hc). reflexivity.
Qed.

(** ** Inventory *)

(** X17: the total of the inventory answer is the sum of the items it
    reports, whatever the game replied: whenever the reported items are a
    dictionary, the sum of its values can be taken and is the total; and
    an answer that carries an error reports no items and total 0. *)
Theorem inventory_total_is_sum (r : rcon_result) :
  let answer := inventory_of_reply json_loads r in
  (forall d, inv_items answer = PDict d -> sum_values d = Some (inv_total answer)) /\
  (inv_error answer <> None ->
   inv_items answer = PDict [] /\ inv_total answer = 0%Z).
Proof.
  cbv zeta. unfold inventory_of_reply.
  destruct r as [|response]; [simpl; split; [now intros d [= <-] | auto]|].
  destruct (String.eqb response "" || str_contains "Error" response);
    [simpl; split; [now intros d [= <-] | auto]|].
  destruct (json_loads response) as [items|];
    [|simpl; split; [now intros d [= <-] | auto]].
  destruct items as [| b | z | s | l | d];
    try (destruct (py_truthy _); simpl;
         (split; [intros d' Hd'; simplify_eq; reflexivity
                 | intros H; first [now destruct H | auto]])).
  destruct d as [|kv d].
  - simpl. split; [now intros d' [= <-] | intros H; now destruct H].
  - cbn [py_truthy]. destruct (sum_values (kv :: d)) as [total|] eqn:Hsum; simpl.
    + split; [intros d' [= <-]; exact Hsum | intros H; now destruct H].
    + split; [now intros d' [= <-] | auto].
Qed.

(** ** The score reply *)

Lemma pretty_N_char_digit (x : N) :
  (x < 10)%N ->
  is_digit (pretty_N_char x) = true /\
  (Z.of_nat (nat_of_ascii (pretty_N_char x)) - 48)%Z = Z.of_N x.
Proof.
  intros Hx.
  assert (x = 0 \/ x = 1 \/ x = 2 \/ x = 3 \/ x = 4 \/ x = 5 \/ x = 6 \/
          x = 7 \/ x = 8 \/ x = 9)%N as H by lia.
  repeat (destruct H as [-> | H]; [split; reflexivity|]). subst. split; reflexivity.
Qed.

Lemma int_of_digits_snoc (ds : list ascii) (d : ascii) :
  int_of_digits (ds ++ [d]) =
  (10 * int_of_digits ds + (Z.of_nat (nat_of_ascii d) - 48))%Z.
Proof. unfold int_of_digits. rewrite fold_left_app. reflexivity. Qed.

(** The decimal digits of a number, as [str] writes them. *)
Lemma pretty_N_go_digits (x : N) :
  forall s, exists ds,
    list_ascii_of_string (pretty_N_go x s) = (ds ++ list_ascii_of_string s)%list /\
    Forall (fun a => is_digit a = true) ds /\
    int_of_digits ds = Z.of_N x /\
    ((0 < x)%N -> ds <> []).
Proof.
  induction (N.lt_wf_0 x) as [x _ IH]. intros s.
  destruct (N.eq_dec x 0%N) as [->|Hx].
  - exists []. rewrite pretty_N_go_0. repeat split; [constructor | lia].
  - assert (Hpos : (0 < x)%N) by lia.
    rewrite pretty_N_go_step by exact Hpos.
    destruct (IH (x `div` 10)%N (N.div_lt x 10 Hpos eq_refl)
                (String (pretty_N_char (x `mod` 10)) s))
      as [ds [Hds [Hall [Hint _]]]].
    destruct (pretty_N_char_digit (x `mod` 10)%N) as [Hdigit Hval];
      [apply N.mod_lt; lia|].
    exists (ds ++ [pretty_N_char (x `mod` 10)])%list.
    split; [rewrite Hds, <- app_assoc; reflexivity|].
    split; [apply Forall_app; split; [exact Hall | repeat constructor; exact Hdigit]|].
    split.
    + rewrite int_of_digits_snoc, Hint, Hval.
      rewrite (N.div_mod x 10) at 3 by lia. lia.
    + intros _. destruct ds; discriminate.
Qed.

Lemma take_digits_app (ds rest : list ascii) :
  Forall (fun a => is_digit a = true) ds ->
  match rest with a :: _ => is_digit a = false | [] => True end ->
  take_digits (ds ++ rest) = ds.
Proof.
  intros Hall Hrest. induction Hall as [|a ds Ha _ IH]; cbn [app take_digits].
  - destruct rest as [|a rest]; [reflexivity|]. cbn [take_digits]. now rewrite Hrest.
  - now rewrite Ha, IH.
Qed.

Lemma search_player_hit (l : list ascii) (z : Z) :
  match_player_at l = Some z -> search_player l = Some z.
Proof. intros H. destruct l; cbn [search_player]; now rewrite H. Qed.

Lemma digit_not_space (a : ascii) : is_digit a = true -> is_space a = false.
Proof. destruct a as [[] [] [] [] [] [] [] []]; try reflexivity; discriminate. Qed.

(** The pattern read at the digits of an integer. *)
Lemma group_of_pretty (z : Z) (rest : list ascii) :
  match rest with a :: _ => is_digit a = false | [] => True end ->
  let l3 := (list_ascii_of_string (pretty z) ++ rest)%list in
  skip_spaces l3 = l3 /\
  (let '(neg, l4) :=
     match l3 with
     | "-"%char :: r => (true, r)
     | _ => (false, l3)
     end in
   match take_digits l4 with
   | [] => None
   | ds => Some (if neg then - int_of_digits ds else int_of_digits ds)%Z
   end) = Some z.
Proof.
  intros Hrest. cbv zeta.
  assert (Hdigits : forall a ds,
            Forall (fun a => is_digit a = true) (a :: ds) ->
            (let '(neg, l4) :=
               match (a :: ds ++ rest)%list with
               | "-"%char :: r => (true, r)
               | _ => (false, (a :: ds ++ rest)%list)
               end in
             match take_digits l4 with
             | [] => None
             | ds => Some (if neg then - int_of_digits ds else int_of_digits ds)%Z
             end) = Some (int_of_digits (a :: ds))).
  { intros a ds Hall.
    assert (Ha : a <> "-"%char).
    { intros ->. inversion Hall as [|? ? Hd _]. discriminate. }
    assert (Hmatch :
      match (a :: ds ++ rest)%list with
      | "-"%char :: r => (true, r)
      | _ => (false, (a :: ds ++ rest)%list)
      end = (false, (a :: ds ++ rest)%list)).
    { clear -Ha. destruct a as [[] [] [] [] [] [] [] []]; try reflexivity.
      contradiction. }
    rewrite Hmatch.
    change (a :: ds ++ rest)%list with ((a :: ds) ++ rest)%list.
    rewrite (take_digits_app (a :: ds) rest Hall Hrest). reflexivity. }
  assert (Hpos : forall p : positive,
            exists a ds, list_ascii_of_string (pretty (N.pos p)) = a :: ds /\
                         Forall (fun a => is_digit a = true) (a :: ds) /\
                         int_of_digits (a :: ds) = Z.pos p).
  { intros p. unfold pretty, pretty_N.
    destruct (decide (N.pos p = 0%N)) as [|_]; [discriminate|].
    destruct (pretty_N_go_digits (N.pos p) "") as [ds [Hds [Hall [Hint Hne]]]].
    destruct ds as [|a ds]; [exfalso; apply Hne; [lia | reflexivity]|].
    exists a, ds. rewrite Hds. cbn [list_ascii_of_string]. rewrite app_nil_r.
    split; [reflexivity|]. split; [exact Hall|]. rewrite Hint. reflexivity. }
  destruct z as [|p|p].
  - change (list_ascii_of_string (pretty 0%Z)) with ["0"%char].
    split; [reflexivity|]. apply (Hdigits "0"%char []). repeat constructor.
  - change (pretty (Z.pos p)) with (pretty (N.pos p)).
    destruct (Hpos p) as [a [ds [-> [Hall Hint]]]]. split.
    + cbn [app skip_spaces]. inversion Hall as [|? ? Ha _]; subst.
      now rewrite (digit_not_space a Ha).
    + rewrite <- Hint. exact (Hdigits a ds Hall).
  - change (pretty (Z.neg p)) with ("-" +:+ pretty (N.pos p)).
    change (list_ascii_of_string ("-" +:+ pretty (N.pos p)))
      with ("-"%char :: list_ascii_of_string (pretty (N.pos p))).
    split; [reflexivity|].
    cbn [app]. destruct (Hpos p) as [a [ds [-> [Hall Hint]]]].
    change (a :: ds ++ rest)%list with ((a :: ds) ++ rest)%list.
    rewrite (take_digits_app (a :: ds) rest Hall Hrest).
    cbn [app]. rewrite Hint. reflexivity.
Qed.

(** X18: the reply format that the score query is written for, an opening
    brace, the key player in brackets and quotes, an equals sign, the
    integer, a comma and a closing brace, is read back as that integer,
    for every integer, negative ones too, by the score query and by the
    detailed score query alike. *)
Theorem score_reply_round_trip (z : Z) :
  sd_score (score_of_reply json_loads (RconReply (Scenario.score_reply (pretty z))))
    = PInt z /\
  ds_score (detailed_score_of_reply (RconReply (Scenario.score_reply (pretty z))))
    = z.
Proof.
  assert (Hsearch :
    search_player (list_ascii_of_string (Scenario.score_reply (pretty z))) = Some z).
  { unfold Scenario.score_reply. rewrite list_ascii_of_string_of_list_ascii.
    change (list_ascii_of_string (" = " +:+ pretty z +:+ ", }"))
      with (" "%char :: "="%char :: " "%char ::
            list_ascii_of_string (pretty z +:+ ", }")).
    assert (Happ : list_ascii_of_string (pretty z +:+ ", }") =
                   (list_ascii_of_string (pretty z) ++ list_ascii_of_string ", }")%list).
    { generalize (pretty z). intros s. induction s as [|a s IH]; simpl;
        [reflexivity | now rewrite IH]. }
    rewrite Happ.
    destruct (group_of_pretty z (list_ascii_of_string ", }") eq_refl)
      as [Hskip Hgroup].
    revert Hskip Hgroup.
    generalize (list_ascii_of_string (pretty z) ++ list_ascii_of_string ", }")%list.
    intros l Hskip Hgroup.
    change (search_player
              ("{"%char :: " "%char :: player_key ++
               " "%char :: "="%char :: " "%char :: l)%list = Some z).
    assert (Hat : match_player_at
                    (player_key ++ " "%char :: "="%char :: " "%char :: l)%list =
                  Some z).
    { unfold match_player_at.
      change (strip_prefix player_key
                (player_key ++ " "%char :: "="%char :: " "%char :: l)%list)
        with (Some (" "%char :: "="%char :: " "%char :: l)).
      cbv iota beta.
      replace (skip_spaces (" "%char :: "="%char :: " "%char :: l))
        with ("="%char :: " "%char :: l) by reflexivity.
      cbv iota beta zeta.
      replace (skip_spaces (" "%char :: l)) with (skip_spaces l) by reflexivity.
      rewrite Hskip. exact Hgroup. }
    change (search_player
              ("{"%char :: " "%char :: player_key ++
               " "%char :: "="%char :: " "%char :: l)%list)
      with (search_player
              (player_key ++ " "%char :: "="%char :: " "%char :: l)%list).
    exact (search_player_hit _ _ Hat). }
  assert (Hne : String.eqb (Scenario.score_reply (pretty z)) "" = false)
    by reflexivity.
  unfold score_of_reply, detailed_score_of_reply.
  rewrite Hne, Hsearch. split; reflexivity.
Qed.

End Replies.

(** * What the read-only endpoints show *)

Section Views.

Variable json_loads : string -> option pyval.
Variable STREAM_BASE_URL : string.
Variable STREAM_BASE_PORT : Z.
Variable str_as_float : string -> bool.

(** ** The two endpoints that report a score *)

(** X19: the session endpoint and the score endpoint agree.  They know the
    same sessions (both answer 404 for an unknown id), and for a session
    they report the same user, the same status and the same score: the
    final score for an ended session, and for an active one the score read
    from the game, unless the reply has no player entry in the format of
    the game and is a JSON object, which only the session endpoint reads. *)
Theorem score_endpoints_agree (w : World) (st : State) (sid : string) :
  (forall session response d,
     session_by_id st sid = Some session -> is_active session = true ->
     rcon w (s_slot session) CmdScore = RconReply response ->
     search_player (list_ascii_of_string response) = None ->
     json_loads response <> Some (PDict d)) ->
  (session_by_id st sid = None /\
   get_session json_loads str_as_float w st sid = inl E404 /\
   get_session_score w st sid = inl E404) \/
  (exists info report,
     get_session json_loads str_as_float w st sid = inr info /\
     get_session_score w st sid = inr report /\
     si_current_score info = PInt (sr_score report) /\
     si_username info = sr_username report /\
     si_status info = sr_status report).
Proof.
  intros Hreply. unfold get_session, get_session_score.
  destruct (session_by_id st sid) as [session|] eqn:Hs; [right | left; auto].
  destruct (is_active session) eqn:Hact.
  - assert (Hscore : sd_score (get_slot_score json_loads w (s_slot session)) =
                     PInt (ds_score (_sync_get_detailed_score w (s_slot session)))).
    { unfold get_slot_score, _sync_get_slot_score, _sync_get_detailed_score,
        score_of_reply, detailed_score_of_reply.
      destruct (rcon w (s_slot session) CmdScore) as [|response] eqn:Hr;
        [reflexivity|].
      destruct (String.eqb response ""); [reflexivity|].
      destruct (search_player (list_ascii_of_string response)) as [score|] eqn:Hp;
        [reflexivity|].
      destruct (json_loads response) as [[| | | | |d]|] eqn:Hj; try reflexivity.
      exfalso. exact (Hreply session response d eq_refl Hact Hr Hp Hj). }
    rewrite Hscore. cbn [float_field].
    eexists _, _. split; [reflexivity|]. split; [reflexivity|]. simpl.
    repeat split.
  - cbn [float_field].
    eexists _, _. split; [reflexivity|]. split; [reflexivity|]. simpl.
    repeat split.
Qed.

(** ** The rank of a user *)

Lemma higher_scores_self (us : gmap string User) (name : string) (u : User) :
  us !! name = Some u -> higher_scores (best_score u) us !! name = None.
Proof.
  intros Hu. unfold higher_scores. apply map_lookup_filter_None. right.
  intros u' Hu'. simpl. rewrite Hu in Hu'. injection Hu' as <-. lia.
Qed.

Lemma higher_scores_below (us : gmap string User) (name : string) (u : User) :
  us !! name = Some u -> (size (higher_scores (best_score u) us) < size us)%nat.
Proof.
  intros Hu. apply map_subset_size, map_subset_alt. split.
  - apply map_filter_subseteq.
  - exists name. split; [now apply higher_scores_self | now rewrite Hu].
Qed.

Lemma higher_scores_strict (us : gmap string User) (name : string) (u : User)
    (score : Z) :
  us !! name = Some u -> (score < best_score u)%Z ->
  (size (higher_scores (best_score u) us) < size (higher_scores score us))%nat.
Proof.
  intros Hu Hlt. apply map_subset_size, map_subset_alt. split.
  - unfold higher_scores. apply map_filter_strong_subseteq_ext.
    intros i x [Hx Hi]. simpl in *. split; [lia | exact Hi].
  - exists name. split; [now apply higher_scores_self|].
    unfold higher_scores. exists u. apply map_lookup_filter_Some. now split.
Qed.

(** X20: the rank on a user's profile.  A user whose best score is not above
    0 has no rank; otherwise the rank lies between 1 and the number of
    users.  Two users with the same best score have the same rank, and of
    two ranked users the one with the higher best score has the strictly
    smaller rank. *)
Theorem rank_orders_users (st : State) (name1 name2 : string)
    (p1 p2 : UserProfile) :
  get_user st name1 = inr p1 -> get_user st name2 = inr p2 ->
  (up_rank p1 = None <-> (up_best_score p1 <= 0)%Z) /\
  (forall r1, up_rank p1 = Some r1 -> (1 <= r1 <= size (users st))%nat) /\
  (up_best_score p1 = up_best_score p2 -> up_rank p1 = up_rank p2) /\
  ((0 < up_best_score p2 < up_best_score p1)%Z ->
   exists r1 r2, up_rank p1 = Some r1 /\ up_rank p2 = Some r2 /\ (r1 < r2)%nat).
Proof.
  unfold get_user.
  destruct (users st !! py_lower name1) as [u1|] eqn:Hu1; [|discriminate].
  destruct (users st !! py_lower name2) as [u2|] eqn:Hu2; [|discriminate].
  intros [= <-] [= <-]. cbn [up_rank up_best_score].
  pose proof (higher_scores_below _ _ _ Hu1) as Hbelow.
  split; [|split; [|split]].
  - destruct (0 <? best_score u1)%Z eqn:Hpos.
    + apply Z.ltb_lt in Hpos. split; [discriminate | lia].
    + apply Z.ltb_ge in Hpos. split; [lia | reflexivity].
  - intros r1. destruct (0 <? best_score u1)%Z; [|discriminate].
    intros [= <-]. lia.
  - intros ->. reflexivity.
  - intros [Hpos Hlt].
    assert (H1 : (0 <? best_score u1)%Z = true) by (apply Z.ltb_lt; lia).
    assert (H2 : (0 <? best_score u2)%Z = true) by (apply Z.ltb_lt; lia).
    rewrite H1, H2. eexists _, _. split; [reflexivity|]. split; [reflexivity|].
    pose proof (higher_scores_strict _ _ _ _ Hu1 Hlt). lia.
Qed.

(** ** The stream addresses *)

Lemma append_slash_inj (a b : string) : a +:+ "/" = b +:+ "/" -> a = b.
Proof.
  revert b. induction a as [|x a IH]; intros [|y b]; simpl; try reflexivity.
  - intros [= <- H]. destruct b; discriminate.
  - intros [= -> H]. destruct a; discriminate.
  - intros [= -> H]. f_equal. now apply IH.
Qed.

Lemma get_stream_url_inj (slot1 slot2 : nat) :
  get_stream_url STREAM_BASE_URL STREAM_BASE_PORT slot1 =
  get_stream_url STREAM_BASE_URL STREAM_BASE_PORT slot2 ->
  slot1 = slot2.
Proof.
  unfold get_stream_url. intros H.
  apply (inj (String.append STREAM_BASE_URL)) in H.
  apply (inj (String.append ":")) in H.
  apply append_slash_inj in H. apply (inj pretty) in H. lia.
Qed.

Lemma NoDup_map_injective {A B : Type} (f : A -> B) (l : list A) :
  (forall a b, f a = f b -> a = b) ->
  List.NoDup l -> List.NoDup (map f l).
Proof.
  intros Hinj. induction 1 as [|a l Hnot _ IH]; simpl; constructor; [|exact IH].
  intros Hin. apply in_map_iff in Hin as [b [Hb Hin]].
  apply Hinj in Hb. now subst b.
Qed.

(** X21: in every state the system reaches, the sessions that the status
    endpoint lists are told apart by each of their fields: no two of them
    have the same session id, the same user, the same slot or the same
    stream address. *)
Theorem status_lists_distinct_streams (st : State) :
  reachable json_loads st ->
  let listed := st_active_sessions (get_status STREAM_BASE_URL STREAM_BASE_PORT st) in
  List.NoDup (map ae_session_id listed) /\
  List.NoDup (map ae_username listed) /\
  List.NoDup (map ae_slot listed) /\
  List.NoDup (map ae_stream_url listed).
Proof.
  intros Hreach. cbv zeta. unfold get_status. cbn [st_active_sessions].
  rewrite !map_map. cbn [ae_session_id ae_username ae_slot ae_stream_url].
  pose proof (well_formed_reachable json_loads st Hreach) as Hwf.
  destruct (one_active_reachable json_loads st Hreach) as [Hslot Huser].
  split; [|split; [|split]].
  - unfold active_sessions. apply NoDup_map_filter. exact (wf_ids st Hwf).
  - exact Huser.
  - exact Hslot.
  - rewrite <- (map_map s_slot
                  (get_stream_url STREAM_BASE_URL STREAM_BASE_PORT)).
    apply NoDup_map_injective; [|exact Hslot].
    intros a b. apply get_stream_url_inj.
Qed.

(** ** The saves of a user *)

Lemma insert_desc_perm (r : Save) (l : list Save) :
  Permutation (insert_desc r l) (r :: l).
Proof.
  induction l as [|x l IH]; simpl; [reflexivity|].
  destruct (last_played x <=? last_played r)%Z; [reflexivity|].
  rewrite IH. apply perm_swap.
Qed.

Lemma order_by_last_played_desc_perm (rows : list Save) :
  Permutation (order_by_last_played_desc rows) rows.
Proof.
  induction rows as [|r rows IH]; simpl; [reflexivity|].
  rewrite insert_desc_perm. now constructor.
Qed.

Lemma insert_desc_sorted (r : Save) (l : list Save) :
  StronglySorted (fun a b => (last_played b <= last_played a)%Z) l ->
  StronglySorted (fun a b => (last_played b <= last_played a)%Z) (insert_desc r l).
Proof.
  induction 1 as [|x l Hsorted IH Hall]; simpl.
  - repeat constructor.
  - destruct (last_played x <=? last_played r)%Z eqn:Hle.
    + apply Z.leb_le in Hle. constructor; [now constructor|].
      constructor; [exact Hle|].
      eapply Forall_impl; [exact Hall|]. simpl. intros y Hy. lia.
    + apply Z.leb_gt in Hle. constructor; [exact IH|].
      apply List.Forall_forall. intros y Hy.
      apply (Permutation_in _ (insert_desc_perm r l)) in Hy as [<- | Hy]; [lia|].
      rewrite List.Forall_forall in Hall. now apply Hall.
Qed.

Lemma order_by_last_played_desc_sorted (rows : list Save) :
  StronglySorted (fun a b => (last_played b <= last_played a)%Z)
    (order_by_last_played_desc rows).
Proof.
  induction rows as [|r rows IH]; simpl; [constructor|].
  now apply insert_desc_sorted.
Qed.

Lemma save_names_NoDup (username : string) (l : list Save) :
  (forall r, In r l -> sv_username r = username) ->
  List.NoDup (map save_key l) -> List.NoDup (map sv_save_name l).
Proof.
  induction l as [|a l IH]; simpl; intros Hall Hnd; [constructor|].
  apply List.NoDup_cons_iff in Hnd as [Hnot Hnd].
  apply List.NoDup_cons; [|apply IH; auto].
  intros Hin. apply Hnot. apply in_map_iff in Hin as [x [Hx Hin]].
  apply in_map_iff. exists x. split; [|exact Hin].
  unfold save_key. rewrite Hx, (Hall x), (Hall a); auto.
Qed.

Lemma user_saves_of_fields (rows : list Save) (models : list UserSave) :
  user_saves_of rows = Some models ->
  map us_save_name models = map sv_save_name rows /\
  map us_last_played models = map last_played rows.
Proof.
  revert models. induction rows as [|r rows IH]; simpl; intros models.
  - intros [= <-]. split; reflexivity.
  - destruct (score_at_save r) as [score|]; [|discriminate].
    destruct (user_saves_of rows) as [models'|]; [|discriminate].
    intros [= <-]. destruct (IH models' eq_refl) as [Hnames Htimes].
    simpl. now rewrite Hnames, Htimes.
Qed.

Lemma user_saves_of_sorted (rows : list Save) (models : list UserSave) :
  user_saves_of rows = Some models ->
  StronglySorted (fun a b => (last_played b <= last_played a)%Z) rows ->
  StronglySorted (fun a b => (us_last_played b <= us_last_played a)%Z) models.
Proof.
  intros Hmodels Hsorted. revert models Hmodels.
  induction Hsorted as [|r rows _ IH Hall]; simpl; intros models.
  - intros [= <-]. constructor.
  - destruct (score_at_save r) as [score|]; [|discriminate].
    destruct (user_saves_of rows) as [models'|] eqn:Hrest; [|discriminate].
    intros [= <-]. constructor; [now apply IH|].
    apply List.Forall_forall. intros y Hy. simpl.
    destruct (user_saves_of_fields rows models' Hrest) as [_ Htimes].
    assert (Hin : In (us_last_played y) (map last_played rows))
      by (rewrite <- Htimes; now apply in_map).
    apply in_map_iff in Hin as [y' [<- Hy']].
    rewrite List.Forall_forall in Hall. exact (Hall y' Hy').
Qed.

(** X22: the saves endpoint lists the saves of the user and nothing else,
    latest played first.  Whenever it answers with a list, a name is
    listed exactly when the user has a save of that name; every row that
    is listed comes before all rows that were played earlier; and in every
    state the system reaches no name is listed twice.  It answers 404
    exactly when the user, in lower case, has no record. *)
Theorem user_saves_latest_first (st : State) (username : string) :
  (get_user_saves st username = inl E404 <->
   users st !! py_lower username = None) /\
  forall rows,
    get_user_saves st username = inr rows ->
    (forall name,
       In name (map us_save_name rows) <->
       exists r, In r (saves st) /\ sv_username r = py_lower username /\
                 sv_save_name r = name) /\
    StronglySorted (fun a b => (us_last_played b <= us_last_played a)%Z) rows /\
    (reachable json_loads st -> List.NoDup (map us_save_name rows)).
Proof.
  unfold get_user_saves.
  set (mine := List.filter (fun r => String.eqb (sv_username r) (py_lower username))
                 (saves st)).
  pose proof (order_by_last_played_desc_perm mine) as Hperm.
  destruct (users st !! py_lower username) as [u|].
  - destruct (user_saves_of (order_by_last_played_desc mine)) as [models|] eqn:Hmodels.
    + split; [split; discriminate|]. intros rows [= <-].
      destruct (user_saves_of_fields _ _ Hmodels) as [Hnames _].
      rewrite Hnames. split; [|split].
      * intros name. split.
        -- intros Hin. apply in_map_iff in Hin as [r [Hname Hin]].
           apply (Permutation_in _ Hperm) in Hin.
           apply filter_In in Hin as [Hin Hu]. apply String.eqb_eq in Hu.
           exists r. auto.
        -- intros [r [Hin [Hu Hname]]]. apply in_map_iff. exists r.
           split; [exact Hname|].
           apply (Permutation_in _ (Permutation_sym Hperm)).
           apply filter_In. split; [exact Hin|]. now apply String.eqb_eq.
      * apply (user_saves_of_sorted _ _ Hmodels).
        apply order_by_last_played_desc_sorted.
      * intros Hreach.
        pose proof (well_formed_reachable json_loads st Hreach) as Hwf.
        apply (Permutation_NoDup (l := map sv_save_name mine)).
        { apply Permutation_map, Permutation_sym, Hperm. }
        apply (save_names_NoDup (py_lower username)).
        -- intros r Hin. apply filter_In in Hin as [_ Hu]. now apply String.eqb_eq.
        -- apply NoDup_map_filter. exact (wf_save_keys st Hwf).
    + split; [split; discriminate|]. discriminate.
  - split; [split; reflexivity|]. discriminate.
Qed.

End Views.

(** * A slot after a release *)

Section Turnover.

Variable json_loads : string -> option pyval.


Lemma release_session_Done (w : World) (st st' : State) (sid : string)
    (request : ReleaseRequest) (resp : ReleaseResponse) :
  release_session json_loads w st sid request = (st', inr resp) ->
  exists session score,
    active_session_by_id st sid = Some session /\
    sessions st' =
      update_session sid
        (terminate Completed (now w) score (Some (rr_save_name request)))
        (sessions st) /\
    slot_locks st' = delete (s_slot session) (slot_locks st).
Proof.
  unfold release_session.
  destruct (active_session_by_id st sid) as [session|] eqn:Hs; [|discriminate].
  set (score := sd_score _). set (playtime := (now w - _)%Z).
  assert (H1 : sessions (capture_snapshot w sid (s_slot session) score playtime st)
               = sessions st /\
               slot_locks (capture_snapshot w sid (s_slot session) score playtime st)
               = slot_locks st).
  { unfold capture_snapshot. destruct (as_real score); auto. }
  set (st1 := capture_snapshot _ _ _ _ _ _) in *.
  assert (H2 : match save_if_requested w (s_slot session) (s_username session)
                       score playtime (rr_save_name request) st1 with
               | Done st2 | Raise st2 =>
                   sessions st2 = sessions st /\ slot_locks st2 = slot_locks st
               end).
  { unfold save_if_requested. destruct (truthy _) as [name|]; [|exact H1].
    pose proof (save_slot_state_locks w (s_slot session)
                  (save_path_of (s_username session) name) st1) as Hsave.
    destruct (save_slot_state _ _ _ _) as [st2|st2];
      [destruct (as_real score)|]; simpl;
      destruct Hsave as [-> ->]; exact H1. }
  destruct (save_if_requested _ _ _ _ _ _ _) as [st2|st2]; [|discriminate].
  destruct (as_real score) as [sc|]; [|discriminate].
  intros [= <- _]. exists session, sc. simpl. destruct H2 as [-> ->]. auto.
Qed.

Lemma NoDup_map_eq {A B : Type} (f : A -> B) (l : list A) (a b : A) :
  List.NoDup (map f l) -> In a l -> In b l -> f a = f b -> a = b.
Proof.
  induction l as [|x l IH]; simpl; [tauto|]. intros Hnd Ha Hb Hf.
  apply List.NoDup_cons_iff in Hnd as [Hnot Hnd].
  destruct Ha as [-> | Ha], Hb as [-> | Hb]; auto.
  - exfalso. apply Hnot. rewrite Hf. now apply in_map.
  - exfalso. apply Hnot. rewrite <- Hf. now apply in_map.
Qed.

(** X23: a release that goes through gives the slot back.  In a state the
    system reaches, after a release that is answered without an error no
    active session is on the slot of the session, the lock key of the slot
    is gone, and the allocator finds a free slot, that one or a lower
    one. *)
Theorem released_slot_is_free_again (w : World) (st st' : State) (sid : string)
    (request : ReleaseRequest) (resp : ReleaseResponse) :
  reachable json_loads st ->
  release_session json_loads w st sid request = (st', inr resp) ->
  exists session,
    active_session_by_id st sid = Some session /\
    ~ In (s_slot session) (active_set st') /\
    slot_locks st' !! s_slot session = None /\
    exists slot, get_free_slot st' = Some slot /\ (slot <= s_slot session)%nat.
Proof.
  intros Hreach Hrel.
  destruct (release_session_Done w st st' sid request resp Hrel)
    as [session [score [Hs [Hsessions Hlocks]]]].
  exists session. split; [exact Hs|].
  destruct (active_session_by_id_In st sid session Hs) as [Hin [Hid Hact]].
  destruct (one_active_reachable json_loads st Hreach) as [Hslot _].
  pose proof (well_formed_reachable json_loads st Hreach) as Hwf.
  assert (Hfree : ~ In (s_slot session) (active_set st')).
  { unfold active_set, active_sessions. rewrite Hsessions. intros Hin'.
    apply in_map_iff in Hin' as [s' [Hon Hin']].
    apply filter_In in Hin' as [Hin' Hact'].
    apply In_update_session in Hin' as [s0 [Hin0 ->]].
    destruct (String.eqb (session_id s0) sid) eqn:He; [discriminate|].
    apply String.eqb_neq in He. apply He. rewrite <- Hid. f_equal.
    apply (NoDup_map_eq s_slot (active_sessions st)); auto.
    - apply filter_In. auto.
    - apply filter_In. auto. }
  split; [exact Hfree|]. split; [rewrite Hlocks; apply lookup_delete_eq|].
  destruct (get_free_slot st') as [slot|] eqn:Hget.
  - exists slot. split; [reflexivity|].
    apply get_free_slot_Some in Hget as [_ [_ Hbelow]].
    destruct (le_lt_dec slot (s_slot session)) as [Hle|Hlt]; [exact Hle|].
    exfalso. apply Hfree. now apply Hbelow.
  - exfalso. apply Hfree. rewrite get_free_slot_None in Hget. apply Hget.
    exact (wf_slots st Hwf session Hin).
Qed.

End Turnover.

(** * The further properties, at work *)

Lemma claimed_again_reachable : reachable no_json claimed_again.
Proof.
  apply reachable_step with (st := saved_once);
    [|apply (step_claim no_json (world 1699992770 "120" "e5f6a7b8") saved_once alice)].
  apply reachable_step
    with (st := fst (claim_session (world 1699990000 "0" "a1b2c3d4") init_state alice)).
  - apply reachable_step with (st := init_state); [apply reachable_init|].
    apply (step_claim no_json (world 1699990000 "0" "a1b2c3d4") init_state alice).
  - apply (step_release no_json (world 1699990100 "120" "")
             (fst (claim_session (world 1699990000 "0" "a1b2c3d4") init_state alice))
             "a1b2c3d4" (mkReleaseRequest (Some (autosave_name stamp)))).
Qed.

Lemma saved_once_reachable : reachable no_json saved_once.
Proof.
  apply reachable_step
    with (st := fst (claim_session (world 1699990000 "0" "a1b2c3d4") init_state alice)).
  - apply reachable_step with (st := init_state); [apply reachable_init|].
    apply (step_claim no_json (world 1699990000 "0" "a1b2c3d4") init_state alice).
  - apply (step_release no_json (world 1699990100 "120" "")
             (fst (claim_session (world 1699990000 "0" "a1b2c3d4") init_state alice))
             "a1b2c3d4" (mkReleaseRequest (Some (autosave_name stamp)))).
Qed.

Lemma claimed_reachable : reachable no_json claimed.
Proof.
  apply reachable_step with (st := init_state); [apply reachable_init|].
  apply (step_claim no_json (world 1000 "0" "a1b2c3d4") init_state alice).
Qed.

Lemma watched_reachable : reachable no_json watched.
Proof.
  apply reachable_step with (st := claimed); [apply claimed_reachable|].
  apply (step_stream_open no_json claimed "a1b2c3d4" 7).
Qed.

Lemma two_players_reachable : reachable no_json two_players.
Proof.
  apply reachable_step with (st := claimed); [apply claimed_reachable|].
  apply (step_claim no_json (world 1500 "0" "0f0f0f0f") claimed bob).
Qed.

(** X4, at work: alice has played, saved and claimed again. *)
Lemma schema_constraints_hold_witness :
  List.NoDup (map session_id (sessions claimed_again)) /\
  List.NoDup (map save_key (saves claimed_again)) /\
  (forall s, In s (sessions claimed_again) ->
             users claimed_again !! s_username s <> None) /\
  (forall r, In r (saves claimed_again) ->
             users claimed_again !! sv_username r <> None).
Proof.
  exact (schema_constraints_hold no_json claimed_again claimed_again_reachable).
Defined.

(** X5, at work: the completed session of alice and her active one. *)
Lemma sessions_follow_life_cycle_witness :
  map status (sessions claimed_again) = [Completed; Active] /\
  forall s, In s (sessions claimed_again) ->
    (s_slot s < Config.TOTAL_SLOTS)%nat /\
    (status s = Active ->
     ended_at s = None /\ final_score s = None /\ save_created s = None) /\
    (status s <> Active -> ended_at s <> None).
Proof.
  split; [vm_compute; reflexivity|].
  exact (sessions_follow_life_cycle no_json claimed_again claimed_again_reachable).
Defined.

(** X6, at work: the completed session of alice is still there, as it was,
    after her next claim. *)
Lemma ended_sessions_are_final_witness :
  let s := mkSession "a1b2c3d4" "alice" 0 1699990000 (Some 1699990100%Z)
             (Some 120%Z) Completed None (Some "autosave_20231114_221320") in
  In s (sessions saved_once) /\ In s (sessions claimed_again).
Proof.
  cbv zeta.
  assert (Hin : In (mkSession "a1b2c3d4" "alice" 0 1699990000 (Some 1699990100%Z)
                      (Some 120%Z) Completed None (Some "autosave_20231114_221320"))
                  (sessions saved_once)) by (vm_compute; now left).
  split; [exact Hin|].
  apply (ended_sessions_are_final no_json saved_once claimed_again _
           saved_once_reachable
           (step_claim no_json (world 1699992770 "120" "e5f6a7b8") saved_once alice)
           Hin).
  discriminate.
Defined.

(** X7, at work: with two players on a pool of twenty slots, a third one is
    not turned away. *)
Lemma claim_unavailable_only_when_full_witness :
  let w := world 1600 "0" "99999999" in
  let carol := mkClaimRequest "Carol" None in
  (snd (claim_session w two_players carol) = inl E503 <->
   get_free_slot two_players = None) /\
  get_free_slot two_players = Some 2%nat.
Proof.
  cbv zeta. split; [|vm_compute; reflexivity].
  apply (claim_unavailable_only_when_full no_json (world 1600 "0" "99999999")
           two_players (mkClaimRequest "Carol" None) two_players_reachable).
  vm_compute. reflexivity.
Defined.

(** X8, at work: two players, eighteen slots left. *)
Lemma status_counts_free_slots_witness :
  let status := get_status "https://localhost" 3003 two_players in
  available_slots status = 18%Z /\
  (0 <= available_slots status <= Z.of_nat (total_slots status))%Z /\
  (available_slots status + Z.of_nat (length (st_active_sessions status)) =
   Z.of_nat (total_slots status))%Z /\
  (available_slots status = 0%Z <-> get_free_slot two_players = None).
Proof.
  cbv zeta. split; [vm_compute; reflexivity|].
  exact (status_counts_free_slots no_json "https://localhost" 3003 two_players
           two_players_reachable).
Defined.

(** X9, at work: bob claims while alice holds slot 0. *)
Lemma claim_goes_through_witness :
  let w := world 1500 "0" "0f0f0f0f" in
  let r := claim_session w claimed bob in
  snd r = inr (mkClaimResponse "0f0f0f0f" "bob" 1 27001 34198 8700 (ResetSlot 1)) /\
  slot_locks (fst r) !! 1%nat = Some ("bob", 8700%Z) /\
  get_session no_json (fun _ => false) (world 1600 "7" "") (fst r) "0f0f0f0f" =
    inr (mkSessionInfo "0f0f0f0f" "bob" 1 1500 8700 (PInt 7) Active).
Proof.
  cbv zeta.
  destruct (claim_goes_through no_json (fun _ => false) (world 1500 "0" "0f0f0f0f")
              (world 1600 "7" "") claimed bob 1)
    as [Hanswer [_ [Hlock [_ Hsession]]]].
  - vm_compute. reflexivity.
  - vm_compute. reflexivity.
  - vm_compute. reflexivity.
  - vm_compute. intros [H | []]. discriminate.
  - intros name H. discriminate.
  - split; [exact Hanswer|]. split; [exact Hlock | exact (Hsession eq_refl)].
Defined.

(** X10, at work: the release of alice with a save name, and what the
    endpoints show afterwards. *)
Lemma endpoints_after_release_witness :
  let st' := fst (release_session no_json (world late "55" "") watched "a1b2c3d4"
                    (mkReleaseRequest (Some "mysave"))) in
  let w' := world 9000 "99" "" in
  get_session no_json (fun _ => false) w' st' "a1b2c3d4" =
    inr (mkSessionInfo "a1b2c3d4" "alice" 0 1000 8200 (PInt 55) Completed) /\
  get_session_score w' st' "a1b2c3d4" =
    inr (mkScoreReport "a1b2c3d4" "alice" Completed 55 0 "0h 0m") /\
  get_session_inventory no_json w' st' "a1b2c3d4" = inr (Stored (PDict [])).
Proof.
  cbv zeta.
  destruct (endpoints_after_release no_json (fun _ => false) (world late "55" "")
              (world 9000 "99" "")
              watched "a1b2c3d4" (mkReleaseRequest (Some "mysave"))
              (mkSession "a1b2c3d4" "alice" 0 1000 None None Active None None)
              (Some 55%Z) watched_reachable)
    as [Hsession [Hscore [Hinventory _]]].
  - vm_compute. reflexivity.
  - vm_compute. reflexivity.
  - intros name _. split; [reflexivity|]. split; discriminate.
  - split; [exact Hsession|]. split; [exact Hscore | exact Hinventory].
Defined.

(** X11, at work: alice releases with a save name; a polling tick later she
    claims with that name, and the file is there. *)
Lemma saved_game_can_be_claimed_witness :
  let st2 := score_polling_loop no_json (world 1699990200 "0" "") saved_once in
  let again := mkClaimRequest "Alice" (Some "autosave_20231114_221320") in
  save_path_of "alice" "autosave_20231114_221320" ∈ files st2 /\
  snd (claim_session (world 1699990300 "0" "e5f6a7b8") st2 again) <> inl E404.
Proof.
  cbv zeta.
  apply (saved_game_can_be_claimed no_json (world 1699990100 "120" "")
           (world 1699990300 "0" "e5f6a7b8")
           (fst (claim_session (world 1699990000 "0" "a1b2c3d4") init_state alice))
           saved_once
           (score_polling_loop no_json (world 1699990200 "0" "") saved_once)
           "a1b2c3d4" "autosave_20231114_221320"
           (mkReleaseRequest (Some (autosave_name stamp)))
           (mkSession "a1b2c3d4" "alice" 0 1699990000 None None Active None None)
           (mkReleaseResponse (PInt 120) 1 (Some "autosave_20231114_221320"))
           (mkClaimRequest "Alice" (Some "autosave_20231114_221320"))).
  - vm_compute. reflexivity.
  - vm_compute. reflexivity.
  - reflexivity.
  - vm_compute. reflexivity.
  - apply rtc_once.
    apply (step_poll no_json (world 1699990200 "0" "") saved_once).
  - vm_compute. reflexivity.
  - vm_compute. reflexivity.
Defined.

(** X13, at work: a polling tick and a release after the claim of alice. *)
Lemma history_and_users_only_grow_witness :
  let st1 := score_polling_loop no_json (world 1030 "10" "") watched in
  let st2 := fst (release_session no_json (world 2000 "55" "") st1 "a1b2c3d4"
                    (mkReleaseRequest None)) in
  (exists more, score_history st2 = (score_history watched ++ more)%list) /\
  users_grow (users watched) (users st2).
Proof.
  cbv zeta.
  apply (history_and_users_only_grow no_json watched).
  eapply rtc_l; [apply (step_poll no_json (world 1030 "10" "") watched)|].
  apply rtc_once.
  apply (step_release no_json (world 2000 "55" "")
           (score_polling_loop no_json (world 1030 "10" "") watched)
           "a1b2c3d4" (mkReleaseRequest None)).
Defined.

(** X14, at work: a reply with three furnaces. *)
Lemma factory_counts_add_up_witness :
  factory_of_reply (json_of_render 3) (RconReply "render") =
    FactoryData 3 [("stone-furnace", 3%nat)] false /\
  list_sum (map snd [("stone-furnace", 3%nat)]) = 3%nat /\
  count_for "stone-furnace" [("stone-furnace", 3%nat)] =
    length (named "stone-furnace" (repeat furnace 3)).
Proof.
  assert (H : factory_of_reply (json_of_render 3) (RconReply "render") =
              FactoryData 3 [("stone-furnace", 3%nat)] false)
    by (vm_compute; reflexivity).
  destruct (factory_counts_add_up (json_of_render 3) (RconReply "render") 3
              [("stone-furnace", 3%nat)] false H) as [Hsum [_ [_ Hnamed]]].
  split; [exact H|]. split; [exact Hsum|].
  apply (Hnamed "render" [("entities", PList (repeat furnace 3))] (repeat furnace 3));
    reflexivity.
Defined.

(** X15, at work: a reply with 250 furnaces, read by the factory summary
    and by the entity list. *)
Lemma factory_agrees_with_entities_witness :
  let answer := entities_of_reply (json_of_render 250) (RconReply "render") in
  er_total answer = 250%nat /\
  length (er_entities answer) = Nat.min 200 250 /\
  forall c, In c (er_entities answer) ->
            (0 < count_for (ce_name c) [("stone-furnace", 250%nat)])%nat.
Proof.
  cbv zeta.
  apply (factory_agrees_with_entities (json_of_render 250) (RconReply "render") 250
           [("stone-furnace", 250%nat)] false).
  vm_compute. reflexivity.
Defined.

(** X16, at work: ten iron plates made and four used, five coal made and
    used, two wood used. *)
Lemma production_net_is_difference_witness :
  let produced := [("iron-plate", PInt 10); ("coal", PInt 5)] in
  let consumed := [("coal", PInt 5); ("iron-plate", PInt 4); ("wood", PInt 2)] in
  exists net,
    production_of_replies json_of_counts (RconReply "produced") (RconReply "consumed") =
      ProductionData produced consumed net /\
    net !! "iron-plate" = Some 6%Z /\
    net !! "coal" = None /\
    net !! "wood" = Some (-2)%Z /\
    net !! "stone" = None.
Proof.
  cbv zeta.
  exists (<["wood" := (-2)%Z]> (<["iron-plate" := 6%Z]> ∅)).
  assert (H : production_of_replies json_of_counts (RconReply "produced")
                (RconReply "consumed") =
              ProductionData [("iron-plate", PInt 10); ("coal", PInt 5)]
                [("coal", PInt 5); ("iron-plate", PInt 4); ("wood", PInt 2)]
                (<["wood" := (-2)%Z]> (<["iron-plate" := 6%Z]> ∅)))
    by (vm_compute; reflexivity).
  split; [exact H|].
  pose proof (production_net_is_difference json_of_counts _ _ _ _ _ H) as Hnet.
  split; [exact (Hnet "iron-plate")|]. split; [exact (Hnet "coal")|].
  split; [exact (Hnet "wood") | exact (Hnet "stone")].
Defined.

(** X19, at work: the session of alice while the game shows the score 10,
    and a session id that was never given out. *)
Lemma score_endpoints_agree_witness :
  let w := world 1030 "10" "" in
  (exists info report,
     get_session no_json (fun _ => false) w watched "a1b2c3d4" = inr info /\
     get_session_score w watched "a1b2c3d4" = inr report /\
     si_current_score info = PInt (sr_score report) /\
     sr_score report = 10%Z) /\
  get_session no_json (fun _ => false) w watched "nosuch" = inl E404 /\
  get_session_score w watched "nosuch" = inl E404.
Proof.
  cbv zeta. split.
  - destruct (score_endpoints_agree no_json (fun _ => false) (world 1030 "10" "")
                watched "a1b2c3d4")
      as [[Hnone _] | [info [report [Hinfo [Hreport [Hscore _]]]]]].
    + intros session response d _ _ _ _. discriminate.
    + vm_compute in Hnone. discriminate.
    + exists info, report. split; [exact Hinfo|]. split; [exact Hreport|].
      split; [exact Hscore|].
      vm_compute in Hreport. injection Hreport as <-. reflexivity.
  - destruct (score_endpoints_agree no_json (fun _ => false) (world 1030 "10" "")
                watched "nosuch")
      as [[_ H] | [info [report [Hinfo _]]]].
    + intros session response d _ _ _ _. discriminate.
    + exact H.
    + vm_compute in Hinfo. discriminate.
Defined.

(** X20, at work: bob has the best score 300, alice 120. *)
Lemma rank_orders_users_witness :
  let bob_profile := mkUserProfile "bob" 5 300 (Fraction 50 3600) 0 None (Some 1%nat) in
  let alice_profile :=
    mkUserProfile "alice" 0 120 (Fraction 100 3600) 0 None (Some 2%nat) in
  get_user two_records "Bob" = inr bob_profile /\
  get_user two_records "Alice" = inr alice_profile /\
  exists r1 r2,
    up_rank bob_profile = Some r1 /\ up_rank alice_profile = Some r2 /\ (r1 < r2)%nat.
Proof.
  cbv zeta.
  assert (Hbob : get_user two_records "Bob" =
                 inr (mkUserProfile "bob" 5 300 (Fraction 50 3600) 0 None
                        (Some 1%nat))) by (vm_compute; reflexivity).
  assert (Halice : get_user two_records "Alice" =
                   inr (mkUserProfile "alice" 0 120 (Fraction 100 3600) 0 None
                          (Some 2%nat))) by (vm_compute; reflexivity).
  split; [exact Hbob|]. split; [exact Halice|].
  destruct (rank_orders_users two_records "Bob" "Alice" _ _ Hbob Halice)
    as [_ [_ [_ Horder]]].
  apply Horder. simpl. lia.
Defined.

(** X21, at work: alice on slot 0 and bob on slot 1. *)
Lemma status_lists_distinct_streams_witness :
  let listed := st_active_sessions (get_status "https://localhost" 3003 two_players) in
  map ae_stream_url listed = ["https://localhost:3003/"; "https://localhost:3004/"] /\
  List.NoDup (map ae_session_id listed) /\
  List.NoDup (map ae_username listed) /\
  List.NoDup (map ae_slot listed) /\
  List.NoDup (map ae_stream_url listed).
Proof.
  cbv zeta. split; [vm_compute; reflexivity|].
  exact (status_lists_distinct_streams no_json "https://localhost" 3003 two_players
           two_players_reachable).
Defined.

(** X22, at work: the one save of alice. *)
Lemma user_saves_latest_first_witness :
  let rows := [mkUserSave "autosave_20231114_221320" 1699990100 1699990100
                 120 (Fraction 100 3600)] in
  get_user_saves claimed_again "Alice" = inr rows /\
  (forall name,
     In name (map us_save_name rows) <->
     exists r, In r (saves claimed_again) /\ sv_username r = py_lower "Alice" /\
               sv_save_name r = name) /\
  List.NoDup (map us_save_name rows).
Proof.
  cbv zeta.
  assert (H : get_user_saves claimed_again "Alice" =
              inr [mkUserSave "autosave_20231114_221320" 1699990100 1699990100
                     120 (Fraction 100 3600)]) by (vm_compute; reflexivity).
  destruct (user_saves_latest_first no_json claimed_again "Alice") as [_ Hrows].
  destruct (Hrows _ H) as [Hnames [_ Hnodup]].
  split; [exact H|]. split; [exact Hnames|].
  exact (Hnodup claimed_again_reachable).
Defined.

(** X23, at work: the release of alice gives slot 0 back. *)
Lemma released_slot_is_free_again_witness :
  let st' := fst (release_session no_json (world late "55" "") watched "a1b2c3d4"
                    (mkReleaseRequest (Some "mysave"))) in
  exists session,
    active_session_by_id watched "a1b2c3d4" = Some session /\
    ~ In (s_slot session) (active_set st') /\
    slot_locks st' !! s_slot session = None /\
    exists slot, get_free_slot st' = Some slot /\ (slot <= s_slot session)%nat.
Proof.
  cbv zeta.
  apply (released_slot_is_free_again no_json (world late "55" "") watched _
           "a1b2c3d4" (mkReleaseRequest (Some "mysave"))
           (mkReleaseResponse (PInt 55) 120 (Some "mysave")) watched_reachable).
  vm_compute. reflexivity.
Defined.
